(** * Camera.py: capture / record / save lifecycle

    A shallow embedding of [src/Camera.py]: the [VideoRecorder] thread, the
    [CameraApp] controller and the external collaborators they call (the
    capture device, the encoder sink, the directory prompt, the file system
    and the wall clock).

    The GUI thread and the worker threads are interleaved by a labelled
    step function: a worker moves one source line of [run] at a time, a
    slot of the controller runs to completion unless it blocks in
    [QThread.wait()], and [closeEvent] is split between its line 140 and the
    rest.  Both signals cross from a worker to the GUI thread, so they are
    queued and their slots run when the event loop dispatches them.  What
    the environment decides (the frame the device delivers, the directory
    the user picks, the clock, whether [os.rename], the encoder open and
    [cv.imwrite] succeed) is an argument of each step.  A modal
    directory prompt is one blocking call during which time passes: what
    the dialog's own event loop delivers meanwhile is taken to be delivered
    once the slot has returned.  The window is gone once [closeEvent] has
    returned, but the event loop still delivers timer ticks and posted
    signals. *)

From Stdlib Require Import ZArith NArith Lia Ascii String.
From stdpp Require Import base option strings list gmap.

Local Open Scope string_scope.
Local Open Scope list_scope.

(** ** Text helpers: [str.format], [strftime], [os.path.join] *)

Module Text.

Definition digit_char (n : nat) : ascii := Ascii.ascii_of_nat (48 + n mod 10).

Fixpoint decimal_go (fuel n : nat) (acc : string) : string :=
  match fuel with
  | 0 => acc
  | S fuel' =>
      let acc' := String (digit_char n) acc in
      if Nat.eqb (n / 10) 0 then acc' else decimal_go fuel' (n / 10) acc'
  end.

(** [str(n)] for a non-negative integer. *)
Definition decimal (n : nat) : string := decimal_go (S n) n "".

Fixpoint zeros (k : nat) : string :=
  match k with 0 => "" | S k' => String "0" (zeros k') end.

(** A [%0wd] field: at least [w] digits, padded with zeros on the left. *)
Definition zfill (w n : nat) : string :=
  let d := decimal n in zeros (w - String.length d) +:+ d.

Fixpoint last_char (s : string) : option ascii :=
  match s with
  | EmptyString => None
  | String c EmptyString => Some c
  | String _ s' => last_char s'
  end.

Definition starts_with_sep (s : string) : bool :=
  match s with String "/" _ => true | _ => false end.

Definition ends_with_sep (s : string) : bool :=
  match last_char s with Some "/"%char => true | _ => false end.

(** [posixpath.join a b]. *)
Definition path_join (a b : string) : string :=
  if starts_with_sep b then b
  else if bool_decide (a = "") || ends_with_sep a then a +:+ b
  else a +:+ "/" +:+ b.

(** [bool(s)] for a Python string. *)
Definition truthy (s : string) : bool := negb (bool_decide (s = "")).

End Text.

(** ** The wall clock *)

Record datetime := mk_datetime {
  year : nat; month : nat; day : nat;
  hour : nat; minute : nat; second : nat
}.

(** [t.strftime("%Y%m%d_%H%M%S")] *)
Definition strftime_stamp (t : datetime) : string :=
  Text.zfill 4 (year t) +:+ Text.zfill 2 (month t) +:+ Text.zfill 2 (day t)
  +:+ "_" +:+
  Text.zfill 2 (hour t) +:+ Text.zfill 2 (minute t) +:+ Text.zfill 2 (second t).

Definition calendar_range (t : datetime) : Prop :=
  year t < 10 ^ 4 /\ month t < 10 ^ 2 /\ day t < 10 ^ 2 /\
  hour t < 10 ^ 2 /\ minute t < 10 ^ 2 /\ second t < 10 ^ 2.

(** ** Frames and the preview conversions *)

Definition Pixel : Type := N * N * N.
Definition Frame : Type := list (list Pixel).

(** [cv.cvtColor(frame, cv.COLOR_BGR2RGB)] *)
Definition cvtColor_BGR2RGB (f : Frame) : Frame :=
  map (map (fun '(b, g, r) => (r, g, b))) f.

(** [cv.flip(frame, 1)]: mirror around the vertical axis. *)
Definition flip_horizontal (f : Frame) : Frame := map (@rev Pixel) f.

Record QImage := mk_QImage {
  img_data : Frame; img_w : nat; img_h : nat; img_bytes_per_line : nat
}.

(** [QSize(w, h).scaled(tw, th, Qt.KeepAspectRatio)] *)
Definition keep_aspect_ratio (w h tw th : nat) : nat * nat :=
  if Nat.eqb w 0 || Nat.eqb h 0 then (tw, th)
  else
    let rw := th * w / h in
    if Nat.leb rw tw then (rw, th) else (tw, tw * h / w).

(** The size of [QImage.scaled(tw, th, Qt.KeepAspectRatio)] for an image of
    [w] by [h] pixels: the null image when the target is empty, at least
    one pixel each way otherwise. *)
Definition scaled_size (w h tw th : nat) : nat * nat :=
  if Nat.eqb tw 0 || Nat.eqb th 0 then (0, 0)
  else
    let '(sw, sh) := keep_aspect_ratio w h tw th in
    (Nat.max sw 1, Nat.max sh 1).

(** What [QPixmap.fromImage(image.scaled(...))] shows: the image that was
    scaled and the size it was scaled to.  The pixels Qt computes for the
    scaled image are not modelled. *)
Record QPixmap := mk_QPixmap { pix_source : QImage; pix_size : nat * nat }.

Definition frame_shape (f : Frame) : nat * nat * nat :=
  (length f, match f with row :: _ => length row | [] => 0 end, 3).

(** Width and height, as [cv.VideoWriter] takes them. *)
Definition frame_size (f : Frame) : nat * nat :=
  (match f with row :: _ => length row | [] => 0 end, length f).

(** An image is an array of [h] rows of [w] pixels, with [h, w > 0]. *)
Definition frame_ok (f : Frame) : bool :=
  match f with
  | [] => false
  | row :: rest =>
      negb (Nat.eqb (length row) 0) &&
      forallb (fun r => Nat.eqb (length r) (length row)) rest
  end.

(** ** External collaborators *)

Definition is_some {A} (o : option A) : bool :=
  match o with Some _ => true | None => false end.

(** [cv.VideoCapture]: the device handle.  A released (or never opened)
    handle answers every [read()] with [(False, None)] and every property
    with [0].  [read()] answers [True] only together with a non-empty
    image. *)
Record VideoCapture := mk_VideoCapture {
  cap_opened : bool;
  cap_width : nat;
  cap_height : nat;
  cap_releases : nat
}.

Definition cap_read (c : VideoCapture) (device : option Frame) : option Frame :=
  if cap_opened c then
    match device with
    | Some f => if frame_ok f then Some f else None
    | None => None
    end
  else None.

Definition cap_get_width (c : VideoCapture) : nat :=
  if cap_opened c then cap_width c else 0.

Definition cap_get_height (c : VideoCapture) : nat :=
  if cap_opened c then cap_height c else 0.

Definition cap_release (c : VideoCapture) : VideoCapture :=
  {| cap_opened := false; cap_width := cap_width c;
     cap_height := cap_height c; cap_releases := S (cap_releases c) |}.

(** [cv.VideoWriter_fourcc(c1, c2, c3, c4)] *)
Definition VideoWriter_fourcc (c1 c2 c3 c4 : ascii) : N :=
  let b (c : ascii) := N.land (Ascii.N_of_ascii c) 255 in
  N.lor (N.lor (b c1) (N.shiftl (b c2) 8))
        (N.lor (N.shiftl (b c3) 16) (N.shiftl (b c4) 24)).

(** [cv.VideoWriter]: the encoder sink.  The constructor does not raise when
    the sink cannot be opened; it returns a writer that is not opened, on
    which [write] does nothing.  An opened writer takes the frames that
    have the size it was opened with and drops the others. *)
Record VideoWriter := mk_VideoWriter {
  vw_path : string;
  vw_fourcc : N;
  vw_fps : nat;
  vw_size : nat * nat;
  vw_opened : bool;
  vw_released : bool;
  vw_frames : list Frame
}.

Definition VideoWriter_new (path : string) (fourcc : N) (fps : nat)
    (size : nat * nat) (ok : bool) : VideoWriter :=
  {| vw_path := path; vw_fourcc := fourcc; vw_fps := fps; vw_size := size;
     vw_opened := ok; vw_released := false; vw_frames := [] |}.

Definition vw_accepts (v : VideoWriter) (f : Frame) : bool :=
  vw_opened v && bool_decide (frame_size f = vw_size v).

Definition vw_write (v : VideoWriter) (f : Frame) : VideoWriter :=
  {| vw_path := vw_path v; vw_fourcc := vw_fourcc v; vw_fps := vw_fps v;
     vw_size := vw_size v; vw_opened := vw_opened v;
     vw_released := vw_released v;
     vw_frames := if vw_accepts v f then vw_frames v ++ [f] else vw_frames v |}.

Definition vw_release (v : VideoWriter) : VideoWriter :=
  {| vw_path := vw_path v; vw_fourcc := vw_fourcc v; vw_fps := vw_fps v;
     vw_size := vw_size v; vw_opened := false; vw_released := true;
     vw_frames := vw_frames v |}.

Inductive file :=
| ImageFile (f : Frame)
| VideoFile (frames : list Frame).

(** The two signals of [VideoRecorder]. *)
Inductive signal :=
| recording_started
| recording_stopped (path : string).

(** What the environment answers during one step: the frame the device
    would deliver, the directory the user picks (empty when the prompt is
    canceled), the wall clock when a blocking prompt returns, whether
    [os.rename], the encoder open and [cv.imwrite] succeed. *)
Record Env := mk_Env {
  device : option Frame;
  chosen_dir : string;
  wall_next : datetime;
  rename_ok : bool;
  encoder_ok : bool;
  imwrite_ok : bool
}.

(** Calls that leave the program, in the order they are made.  A worker is
    named by its index in the store of [VideoRecorder] objects; [None] is
    the GUI thread. *)
Inductive action :=
| CapRead (by_thread : option nat) (ret : bool)
| CapRelease
| DirectoryPrompt (title answer : string)
| ImWrite (path : string) (f : Frame) (ok : bool)
| OsRename (src dst : string) (ok : bool)
| MessageBox (title text : string)
| SetText (label : string)
| SetPixmap (p : QPixmap)
| ThreadStart (w : nat)
| StopCall (w : nat)
| WaitReturned (w : nat)
| EncoderOpen (w : nat) (v : VideoWriter)
| EncoderWrite (w : nat) (f : Frame)
| EncoderRelease (w : nat) (v : VideoWriter)
| Emit (w : nat) (s : signal).

(** ** The recording worker *)

(** Where a worker thread stands in [VideoRecorder.run]: the line it
    executes next.  [L29] holds the pair just returned by [cap.read()]. *)
Inductive line :=
| NotStarted
| L21 | L24 | L25
| L27 | L28 | L29 (ret : option Frame)
| L32 | L33
| Finished.

Record VideoRecorder := mk_VideoRecorder {
  out : option VideoWriter;
  is_recording : bool;
  temp_file_name : string;
  at_line : line
}.

Definition VideoRecorder_init (now : datetime) : VideoRecorder :=
  {| out := None; is_recording := false;
     temp_file_name := "Recorder_" +:+ strftime_stamp now +:+ ".avi";
     at_line := NotStarted |}.

Definition goto (l : line) (r : VideoRecorder) : VideoRecorder :=
  {| out := out r; is_recording := is_recording r;
     temp_file_name := temp_file_name r; at_line := l |}.

Definition set_out (v : VideoWriter) (r : VideoRecorder) : VideoRecorder :=
  {| out := Some v; is_recording := is_recording r;
     temp_file_name := temp_file_name r; at_line := at_line r |}.

Definition set_is_recording (b : bool) (r : VideoRecorder) : VideoRecorder :=
  {| out := out r; is_recording := b;
     temp_file_name := temp_file_name r; at_line := at_line r |}.

(** [QThread.start()] *)
Definition start (r : VideoRecorder) : VideoRecorder :=
  match at_line r with NotStarted => goto L21 r | _ => r end.

(** [VideoRecorder.stop] *)
Definition stop (r : VideoRecorder) : VideoRecorder := set_is_recording false r.

(** One line of [VideoRecorder.run], executed by worker [w] against the
    shared capture handle [c].  [None]: the thread has nothing to execute
    (not started, finished) or it dereferences a missing writer. *)
Definition run (w : nat) (e : Env) (c : VideoCapture) (r : VideoRecorder)
    : option (VideoRecorder * list action) :=
  match at_line r with
  | NotStarted | Finished => None
  | L21 =>
      let frame_width := cap_get_width c in
      let frame_height := cap_get_height c in
      let v := VideoWriter_new (temp_file_name r)
                 (VideoWriter_fourcc "X" "V" "I" "D") 30
                 (frame_width, frame_height) (encoder_ok e) in
      Some (goto L24 (set_out v r), [EncoderOpen w v])
  | L24 => Some (goto L25 (set_is_recording true r), [])
  | L25 => Some (goto L27 r, [Emit w recording_started])
  | L27 => Some (goto (if is_recording r then L28 else L32) r, [])
  | L28 =>
      let ret := cap_read c (device e) in
      Some (goto (L29 ret) r, [CapRead (Some w) (is_some ret)])
  | L29 (Some frame) =>
      v ← out r;
      Some (goto L27 (set_out (vw_write v frame) r), [EncoderWrite w frame])
  | L29 None => Some (goto L27 r, [])
  | L32 =>
      v ← out r;
      Some (goto L33 (set_out (vw_release v) r), [EncoderRelease w v])
  | L33 => Some (goto Finished r, [Emit w (recording_stopped (temp_file_name r))])
  end.

(** ** The application controller *)

Record CameraApp := mk_CameraApp {
  cap : VideoCapture;
  video_thread : option nat;
  video_btn : string;
  picture_box : option QPixmap;
  picture_box_size : nat * nat
}.

(** Where the GUI thread stands: in the event loop, inside [closeEvent]
    after line 140, blocked in [QThread.wait()] (reached from
    [stop_video_recording] or from [closeEvent]), after [closeEvent]
    returned, or dead after an exception escaped a slot. *)
Inductive gui_pc :=
| EventLoop
| Close141
| Waiting (w : nat) (closing : bool)
| Closed
| Aborted.

Record World := mk_World {
  self : CameraApp;
  gui : gui_pc;
  recorders : list VideoRecorder;
  posted : list signal;
  fs : gmap string file;
  wall : datetime;
  trace : list action
}.

Definition with_cap (c : VideoCapture) (a : CameraApp) : CameraApp :=
  mk_CameraApp c (video_thread a) (video_btn a) (picture_box a) (picture_box_size a).
Definition with_video_thread (t : option nat) (a : CameraApp) : CameraApp :=
  mk_CameraApp (cap a) t (video_btn a) (picture_box a) (picture_box_size a).
Definition with_video_btn (l : string) (a : CameraApp) : CameraApp :=
  mk_CameraApp (cap a) (video_thread a) l (picture_box a) (picture_box_size a).
Definition with_picture_box (p : QPixmap) (a : CameraApp) : CameraApp :=
  mk_CameraApp (cap a) (video_thread a) (video_btn a) (Some p) (picture_box_size a).

Definition with_self (a : CameraApp) (s : World) : World :=
  mk_World a (gui s) (recorders s) (posted s) (fs s) (wall s) (trace s).
Definition with_gui (g : gui_pc) (s : World) : World :=
  mk_World (self s) g (recorders s) (posted s) (fs s) (wall s) (trace s).
Definition with_recorders (rs : list VideoRecorder) (s : World) : World :=
  mk_World (self s) (gui s) rs (posted s) (fs s) (wall s) (trace s).
Definition with_posted (q : list signal) (s : World) : World :=
  mk_World (self s) (gui s) (recorders s) q (fs s) (wall s) (trace s).
Definition with_wall (t : datetime) (s : World) : World :=
  mk_World (self s) (gui s) (recorders s) (posted s) (fs s) t (trace s).

(** The effect of a call on the file system and on the queue of signals
    posted to the GUI thread (both signals cross threads, so their slots
    run later, from the event loop).  [cv.imwrite] that fails returns
    [False] and writes nothing. *)
Definition fs_effect (a : action) (m : gmap string file) : gmap string file :=
  match a with
  | ImWrite p f true => <[p := ImageFile f]> m
  | OsRename src dst true =>
      match m !! src with
      | Some x => <[dst := x]> (delete src m)
      | None => m
      end
  | EncoderOpen _ v => if vw_opened v then <[vw_path v := VideoFile []]> m else m
  | EncoderRelease _ v =>
      if vw_opened v then <[vw_path v := VideoFile (vw_frames v)]> m else m
  | _ => m
  end.

Definition post_effect (a : action) (q : list signal) : list signal :=
  match a with Emit _ sg => q ++ [sg] | _ => q end.

Definition perform (a : action) (s : World) : World :=
  mk_World (self s) (gui s) (recorders s) (post_effect a (posted s))
           (fs_effect a (fs s)) (wall s) (trace s ++ [a]).

Definition perform_all (l : list action) (s : World) : World :=
  foldl (fun s a => perform a s) s l.

(** [QFileDialog.getExistingDirectory]: blocks until the user answers. *)
Definition getExistingDirectory (title : string) (e : Env) (s : World)
    : string * World :=
  (chosen_dir e,
   perform (DirectoryPrompt title (chosen_dir e)) (with_wall (wall_next e) s)).

Definition update_frame (e : Env) (s : World) : World :=
  let ret := cap_read (cap (self s)) (device e) in
  let s := perform (CapRead None (is_some ret)) s in
  match ret with
  | Some frame =>
      let frame := cvtColor_BGR2RGB frame in
      let frame := flip_horizontal frame in
      let '(h, w, ch) := frame_shape frame in
      let bytes_per_line := ch * w in
      let qt_image := mk_QImage frame w h bytes_per_line in
      let '(bw, bh) := picture_box_size (self s) in
      let scaled_image := mk_QPixmap qt_image (scaled_size w h bw bh) in
      perform (SetPixmap scaled_image)
        (with_self (with_picture_box scaled_image (self s)) s)
  | None => s
  end.

Definition save_image (e : Env) (s : World) : World :=
  let ret := cap_read (cap (self s)) (device e) in
  let s := perform (CapRead None (is_some ret)) s in
  match ret with
  | Some frame =>
      let '(save_dir, s) := getExistingDirectory "Select Directory" e s in
      if Text.truthy save_dir then
        let file_name := "capture_" +:+ strftime_stamp (wall s) +:+ ".jpg" in
        let path := Text.path_join save_dir file_name in
        perform (ImWrite path frame (imwrite_ok e)) s
      else s
  | None => s
  end.

Definition start_video_recording (s : World) : World :=
  let w := length (recorders s) in
  let r := VideoRecorder_init (wall s) in
  let s := with_recorders (recorders s ++ [r]) s in
  let s := with_self (with_video_thread (Some w) (self s)) s in
  perform (ThreadStart w) (with_recorders (alter start w (recorders s)) s).

(** [self.video_thread.stop()] on the worker stored at [w]. *)
Definition stop_call (w : nat) (s : World) : World :=
  perform (StopCall w) (with_recorders (alter stop w (recorders s)) s).

Definition stop_video_recording (s : World) : World :=
  match video_thread (self s) with
  | Some w => with_gui (Waiting w false) (stop_call w s)
  | None => s
  end.

(** [None]: the controller holds a reference into nothing, which no run of
    the program produces. *)
Definition toggle_video_recording (s : World) : option World :=
  match video_thread (self s) with
  | None => Some (start_video_recording s)
  | Some w =>
      r ← recorders s !! w;
      if negb (is_recording r) then Some (start_video_recording s)
      else Some (stop_video_recording s)
  end.

Definition setText (label : string) (s : World) : World :=
  perform (SetText label) (with_self (with_video_btn label (self s)) s).

Definition on_recording_started (s : World) : World :=
  setText "Stop Recording" s.

(** A slot either returns or lets an exception escape; the world is the one
    at the return or at the raise. *)
Inductive outcome :=
| Returned (s : World)
| Raised (s : World).

Definition world_of (o : outcome) : World :=
  match o with Returned s | Raised s => s end.

(** [os.rename src dst] succeeds when the environment lets it and [src]
    exists. *)
Definition os_rename (src dst : string) (e : Env) (s : World) : bool * World :=
  let ok := rename_ok e && is_some (fs s !! src) in
  (ok, perform (OsRename src dst ok) s).

Definition on_recording_stopped (temp_file_name : string) (e : Env) (s : World)
    : outcome :=
  let s := setText "Record Video" s in
  let '(save_dir, s) :=
    getExistingDirectory "Select Directory to Save Video" e s in
  if Text.truthy save_dir then
    let final_path := Text.path_join save_dir temp_file_name in
    let '(ok, s) := os_rename temp_file_name final_path e s in
    if ok then
      let s := perform (MessageBox "Video Saved"
                          ("Video saved to: " +:+ final_path)) s in
      Returned (with_self (with_video_thread None (self s)) s)
    else Raised s
  else Returned (with_self (with_video_thread None (self s)) s).

(** [closeEvent], line 140. *)
Definition closeEvent_release (s : World) : World :=
  let s := with_self (with_cap (cap_release (cap (self s))) (self s)) s in
  with_gui Close141 (perform CapRelease s).

(** [closeEvent], lines 141-143, up to the blocking [wait()]. *)
Definition closeEvent_stop (s : World) : World :=
  match video_thread (self s) with
  | Some w => with_gui (Waiting w true) (stop_call w s)
  | None => with_gui Closed s
  end.

(** [QThread.wait()] returns once [run] has returned. *)
Definition wait_returns (w : nat) (closing : bool) (s : World) : option World :=
  r ← recorders s !! w;
  match at_line r with
  | Finished =>
      Some (with_gui (if closing then Closed else EventLoop)
              (perform (WaitReturned w) s))
  | _ => None
  end.

(** ** Interleaving the GUI thread and the workers *)

(** Who moves next.  The first five are events taken from the Qt event loop
    (timer, the two buttons, a posted signal, the window close request);
    [GuiContinue] lets the GUI thread go on inside [closeEvent] or return
    from [wait()]; [WorkerLine w] lets worker [w] execute one line;
    [ClockTick] lets time pass. *)
Inductive actor :=
| TimerTimeout
| PhotoClicked
| VideoClicked
| Dispatch
| CloseRequested
| GuiContinue
| WorkerLine (w : nat)
| ClockTick.

Definition dispatch (e : Env) (s : World) : option World :=
  match posted s with
  | [] => None
  | sg :: rest =>
      let s := with_posted rest s in
      match sg with
      | recording_started => Some (on_recording_started s)
      | recording_stopped path =>
          match on_recording_stopped path e s with
          | Returned s' => Some s'
          | Raised s' => Some (with_gui Aborted s')
          end
      end
  end.

Definition worker_line (w : nat) (e : Env) (s : World) : option World :=
  r ← recorders s !! w;
  '(r', acts) ← run w e (cap (self s)) r;
  Some (perform_all acts (with_recorders (<[w := r']> (recorders s)) s)).

(** One step of the whole program.  [None]: the actor cannot move in this
    state (a GUI event while the GUI thread is inside a slot or blocked, a
    [wait()] whose worker has not finished, a worker with nothing left to
    execute).  Nothing moves once an exception has escaped a slot.  After
    [closeEvent] has returned the window takes no more clicks, while the
    timer and the posted signals are still served; workers that are still
    running go on. *)
Definition step (a : actor) (e : Env) (s : World) : option World :=
  match gui s, a with
  | Aborted, _ => None
  | _, WorkerLine w => worker_line w e s
  | _, ClockTick => Some (with_wall (wall_next e) s)
  | EventLoop, TimerTimeout | Closed, TimerTimeout => Some (update_frame e s)
  | EventLoop, PhotoClicked => Some (save_image e s)
  | EventLoop, VideoClicked => toggle_video_recording s
  | EventLoop, Dispatch | Closed, Dispatch => dispatch e s
  | EventLoop, CloseRequested => Some (closeEvent_release s)
  | Close141, GuiContinue => Some (closeEvent_stop s)
  | Waiting w closing, GuiContinue => wait_returns w closing s
  | _, _ => None
  end.

Fixpoint exec (l : list (actor * Env)) (s : World) : option World :=
  match l with
  | [] => Some s
  | (a, e) :: l' => s' ← step a e s; exec l' s'
  end.

(** [CameraApp.__init__]: the device either opens or does not. *)
Definition boot (dev_ok : bool) (width height : nat) (box : nat * nat)
    (now : datetime) : World :=
  {| self := {| cap := mk_VideoCapture dev_ok width height 0;
                video_thread := None;
                video_btn := "Record Video";
                picture_box := None;
                picture_box_size := box |};
     gui := EventLoop; recorders := []; posted := []; fs := ∅;
     wall := now; trace := [] |}.

Inductive reachable : World -> Prop :=
| reach_boot dev_ok width height box now :
    reachable (boot dev_ok width height box now)
| reach_step s a e s' :
    reachable s -> step a e s = Some s' -> reachable s'.

(** ** Observations on a world *)

(** A session is live from the moment its thread is started until [run]
    has closed the encoder sink. *)
Definition session_live (r : VideoRecorder) : bool :=
  match at_line r with
  | NotStarted | L33 | Finished => false
  | _ => true
  end.

(** The worker is inside the [while] loop with the flag set. *)
Definition session_active (r : VideoRecorder) : bool :=
  is_recording r &&
  match at_line r with L25 | L27 | L28 | L29 _ => true | _ => false end.

Definition live_sessions (s : World) : nat :=
  length (filter (fun r => session_live r = true) (recorders s)).

Definition active_sessions (s : World) : nat :=
  length (filter (fun r => session_active r = true) (recorders s)).

Definition sink_closed (r : VideoRecorder) : bool :=
  match out r with Some v => vw_released v | None => false end.

Definition sink_frames (r : VideoRecorder) : list Frame :=
  match out r with Some v => vw_frames v | None => [] end.

(** ** Schedules and the worker loop *)

Definition in_loop (l : line) : Prop :=
  match l with L27 | L28 | L29 _ => True | _ => False end.

(** Lines a worker whose flag is cleared still executes before [run]
    returns, and the frame it still holds or is about to read. *)
Definition lines_to_exit (l : line) : nat :=
  match l with L27 => 3 | L28 => 5 | L29 _ => 4 | _ => 0 end.

Definition in_flight (c : VideoCapture) (e : Env) (l : line) : list Frame :=
  match l with
  | L28 => option_list (cap_read c (device e))
  | L29 ret => option_list ret
  | _ => []
  end.

Definition pending_read (w : nat) (c : VideoCapture) (e : Env) (l : line)
    : list action :=
  match l with
  | L28 => [CapRead (Some w) (is_some (cap_read c (device e)))]
  | _ => []
  end.

(** Worker [w] alone executes one line per environment of the list. *)
Definition worker_lines (w : nat) (el : list Env) : list (actor * Env) :=
  map (fun e => (WorkerLine w, e)) el.

Definition schedule (w : nat) (es : nat -> Env) (n : nat) : list (actor * Env) :=
  worker_lines w (map es (seq 0 n)).

(** The same lines seen from the thread: [run] iterated on the recorder,
    against a capture handle that nobody else touches meanwhile. *)
Fixpoint run_lines (w : nat) (c : VideoCapture) (el : list Env)
    (r : VideoRecorder) : option (VideoRecorder * list action) :=
  match el with
  | [] => Some (r, [])
  | e :: el' =>
      '(r1, a1) ← run w e c r;
      '(r2, a2) ← run_lines w c el' r1;
      Some (r2, a1 ++ a2)
  end.

(** One full turn of the loop by worker [w] (lines 27, 28, 29) for each of
    the given environments. *)
Definition iterations (w : nat) (el : list Env) : list (actor * Env) :=
  worker_lines w (flat_map (fun e => [e; e; e]) el).

(** ** Reading a trace of calls *)

(** The still images written and the directory prompts shown by a stretch of
    calls. *)
Definition image_writes (tr : list action) : list (string * Frame) :=
  omap (fun a => match a with ImWrite p f _ => Some (p, f) | _ => None end) tr.

Definition directory_prompts (tr : list action) : list string :=
  omap (fun a => match a with DirectoryPrompt t _ => Some t | _ => None end) tr.

Definition stop_calls (tr : list action) : list nat :=
  omap (fun a => match a with StopCall w => Some w | _ => None end) tr.

(** ** File names *)

Definition capture_name (t : datetime) : string :=
  "capture_" +:+ strftime_stamp t +:+ ".jpg".

Definition recorder_name (t : datetime) : string :=
  "Recorder_" +:+ strftime_stamp t +:+ ".avi".

(** [dir/name], with no second separator when [dir] already ends in one. *)
Definition inside (dir name : string) : string :=
  dir +:+ (if Text.ends_with_sep dir then "" else "/") +:+ name.

Definition is_digit (c : ascii) : bool :=
  Nat.leb 48 (Ascii.nat_of_ascii c) && Nat.leb (Ascii.nat_of_ascii c) 57.

Fixpoint all_digits (s : string) : bool :=
  match s with
  | EmptyString => true
  | String c s' => is_digit c && all_digits s'
  end.

(** [n] decimal digits. *)
Definition digits (n : nat) (s : string) : Prop :=
  String.length s = n /\ all_digits s = true.

(** The shape [YYYYMMDD_HHMMSS]. *)
Definition stamp_shape (s : string) : Prop :=
  exists y m d h mi sec,
    s = y +:+ m +:+ d +:+ "_" +:+ h +:+ mi +:+ sec /\
    digits 4 y /\ digits 2 m /\ digits 2 d /\
    digits 2 h /\ digits 2 mi /\ digits 2 sec.

(** ** Invariants of the interleaving *)

(** The GUI thread has begun [closeEvent]. *)
Definition shutting_down (g : gui_pc) : bool :=
  match g with Close141 | Waiting _ true | Closed => true | _ => false end.

(** A stretch of calls with no successful read and no release. *)
Definition no_frame_delivered (a : action) : Prop :=
  match a with CapRead _ true | CapRelease => False | _ => True end.

(** The worker will set (or has set) its flag and nobody is left to clear
    it: it is before line 24, or in the loop with the flag set. *)
Definition flag_pending (r : VideoRecorder) : Prop :=
  sink_closed r = false /\
  match at_line r with
  | L21 | L24 => True
  | L25 | L27 | L28 | L29 _ => is_recording r = true
  | _ => False
  end.

(** The worker is past line 23 and holds a sink that did not open and has
    taken no frame. *)
Definition unopened (r : VideoRecorder) : Prop :=
  at_line r <> NotStarted /\ at_line r <> L21 /\
  exists v, out r = Some v /\ vw_opened v = false /\ vw_frames v = [].

(** [closeEvent] stands between line 140 and line 142: the handle is
    released, and the worker the controller refers to still loops with its
    flag set, holding the sink [v]. *)
Definition loops_on_released (w : nat) (v : VideoWriter) (s : World) : Prop :=
  gui s = Close141 /\ cap_opened (cap (self s)) = false /\
  video_thread (self s) = Some w /\
  exists r, recorders s !! w = Some r /\ is_recording r = true /\
            out r = Some v /\
            (at_line r = L27 \/ at_line r = L28 \/ at_line r = L29 None).

(** ** Concrete runs *)

Module Demo.

Definition t0 : datetime := mk_datetime 2024 5 17 9 3 42.
Definition t1 : datetime := mk_datetime 2024 5 17 9 3 50.

Definition frame : Frame := [[(1, 2, 3)%N; (4, 5, 6)%N]].
Definition frame_wide : Frame := [[(1, 2, 3)%N; (4, 5, 6)%N; (7, 8, 9)%N]].

Definition env : Env := mk_Env (Some frame) "/tmp/out" t1 true true true.
Definition env_cancel : Env := mk_Env (Some frame) "" t1 true true true.
Definition env_no_frame : Env := mk_Env None "/tmp/out" t1 true true true.
Definition env_rename_fails : Env :=
  mk_Env (Some frame) "/tmp/out" t1 false true true.
Definition env_encoder_fails : Env :=
  mk_Env (Some frame) "/tmp/out" t1 true false true.
Definition env_imwrite_fails : Env :=
  mk_Env (Some frame) "/tmp/out" t1 true true false.
Definition env_wide : Env :=
  mk_Env (Some frame_wide) "/tmp/out" t1 true true true.

(** The application right after start-up, on a device that delivers images
    of two pixels by one. *)
Definition fresh : World := boot true 2 1 (720, 560) t0.

Definition after (l : list (actor * Env)) : World := default fresh (exec l fresh).

(** One click on the record button, then the worker runs lines 21-25. *)
Definition start_one : list (actor * Env) :=
  [(VideoClicked, env); (WorkerLine 0, env); (WorkerLine 0, env);
   (WorkerLine 0, env)].

(** The same with [started] dispatched: a recording in progress. *)
Definition recording : World := after (start_one ++ [(Dispatch, env)]).

(** The same a little later: the worker holds a frame it has just read. *)
Definition frame_in_flight : World :=
  after (start_one ++
         [(Dispatch, env); (WorkerLine 0, env); (WorkerLine 0, env)]).

(** The sink and the recorder of that recording, at the loop test. *)
Definition sink0 : VideoWriter :=
  VideoWriter_new "Recorder_20240517_090342.avi"
    (VideoWriter_fourcc "X" "V" "I" "D") 30 (2, 1) true.

Definition recorder0 : VideoRecorder :=
  {| out := Some sink0; is_recording := true;
     temp_file_name := "Recorder_20240517_090342.avi"; at_line := L27 |}.

(** Two clicks before the first worker has executed line 24. *)
Definition double_click : list (actor * Env) :=
  [(VideoClicked, env); (VideoClicked, env);
   (WorkerLine 0, env); (WorkerLine 0, env); (WorkerLine 0, env);
   (WorkerLine 1, env); (WorkerLine 1, env); (WorkerLine 1, env)].

(** Two clicks before the first worker has run, then the first worker up
    to the loop and the dispatch of its [started]. *)
Definition impatient_click : list (actor * Env) :=
  [(VideoClicked, env); (VideoClicked, env);
   (WorkerLine 0, env); (WorkerLine 0, env); (WorkerLine 0, env);
   (Dispatch, env)].

(** A recording stopped by a second click; [stopped] is posted and not yet
    dispatched. *)
Definition stop_one : list (actor * Env) :=
  start_one ++
  [(Dispatch, env); (WorkerLine 0, env); (WorkerLine 0, env);
   (VideoClicked, env); (WorkerLine 0, env); (WorkerLine 0, env);
   (WorkerLine 0, env); (WorkerLine 0, env); (GuiContinue, env)].

(** The window is closed while the first of two workers is orphaned. *)
Definition close_with_orphan : list (actor * Env) :=
  double_click ++
  [(Dispatch, env); (Dispatch, env); (CloseRequested, env);
   (GuiContinue, env); (WorkerLine 1, env); (WorkerLine 1, env);
   (WorkerLine 1, env); (GuiContinue, env)].

(** The window is closed right after the record button was clicked, before
    the worker has executed line 24. *)
Definition close_before_flag : list (actor * Env) :=
  [(VideoClicked, env); (CloseRequested, env); (GuiContinue, env)].

(** A click on the record button, then line 21-23 with an encoder that
    does not open. *)
Definition open_fails : list (actor * Env) :=
  [(VideoClicked, env); (WorkerLine 0, env_encoder_fails)].

End Demo.

(** ** Statements that the code is checked against *)

(** The record button shows the stop text exactly when the worker the
    controller refers to has its flag set. *)
Definition label_tracks_flag (s : World) : Prop :=
  video_btn (self s) = "Stop Recording" <->
  exists w r, video_thread (self s) = Some w /\
              recorders s !! w = Some r /\ is_recording r = true.

(** A worker whose encoder sink failed to open never sets its flag. *)
Definition fails_fast (s : World) (w : nat) : Prop :=
  forall l s' r, exec l s = Some s' -> recorders s' !! w = Some r ->
    is_recording r = false.

(** A still image is named after the wall clock at the moment the photo
    button is pressed. *)
Definition photo_stamped_at_click : Prop :=
  forall e s frame,
    cap_read (cap (self s)) (device e) = Some frame ->
    Text.truthy (chosen_dir e) = true ->
    fs (save_image e s) !! inside (chosen_dir e) (capture_name (wall s))
      = Some (ImageFile frame).

(** A successful read and a confirmed directory always leave the image on
    disk, as [capture_<stamp>.jpg] inside that directory. *)
Definition photo_always_written : Prop :=
  forall e s frame,
    cap_read (cap (self s)) (device e) = Some frame ->
    Text.truthy (chosen_dir e) = true ->
    exists stamp,
      fs (save_image e s) !!
        inside (chosen_dir e) ("capture_" +:+ stamp +:+ ".jpg")
      = Some (ImageFile frame).

(** [on_recording_stopped] always leaves the controller without a worker
    reference. *)
Definition reference_always_cleared : Prop :=
  forall path e s,
    video_thread (self (world_of (on_recording_stopped path e s))) = None.

(** ** Well-formed recorders and worlds *)

(** What the position of a worker in [run] says about its sink and its
    flag: no sink before line 23, an open sink from line 24 to line 32, a
    released one afterwards; the flag can only be set between line 25 and
    the end of the loop. *)
Definition recorder_wf (r : VideoRecorder) : Prop :=
  match at_line r with
  | NotStarted => False
  | L21 => out r = None /\ is_recording r = false
  | L24 =>
      (exists v, out r = Some v /\ vw_released v = false /\ vw_frames v = []) /\
      is_recording r = false
  | L25 | L27 | L28 | L29 _ =>
      exists v, out r = Some v /\ vw_released v = false
  | L32 =>
      (exists v, out r = Some v /\ vw_released v = false) /\
      is_recording r = false
  | L33 | Finished =>
      (exists v, out r = Some v /\ vw_released v = true) /\
      is_recording r = false
  end.

(** A [recording_stopped] in the queue names the file of a worker whose
    [run] has returned. *)
Definition stopped_is_finished (s : World) (sg : signal) : Prop :=
  match sg with
  | recording_started => True
  | recording_stopped path =>
      exists w r, recorders s !! w = Some r /\
                  temp_file_name r = path /\ at_line r = Finished
  end.

Definition world_wf (s : World) : Prop :=
  (forall w r, recorders s !! w = Some r -> recorder_wf r) /\
  (forall w, video_thread (self s) = Some w -> w < length (recorders s)) /\
  (forall w c, gui s = Waiting w c -> video_thread (self s) = Some w) /\
  Forall (stopped_is_finished s) (posted s).

(** ** The frames of a recording *)

(** The frames the capture handle [c] hands out on a series of reads, in
    order; a failed read hands out nothing. *)
Definition frames_read (c : VideoCapture) (el : list Env) : list Frame :=
  omap (fun e => cap_read c (device e)) el.

(** The calls of one turn of the loop: the read, and the write when the
    read succeeded. *)
Definition iteration_calls (w : nat) (c : VideoCapture) (e : Env) : list action :=
  match cap_read c (device e) with
  | Some f => [CapRead (Some w) true; EncoderWrite w f]
  | None => [CapRead (Some w) false]
  end.

(** Calls inside the loop: they post nothing and touch no file. *)
Definition loop_call (a : action) : Prop :=
  match a with CapRead _ _ | EncoderWrite _ _ => True | _ => False end.


(** ** Reading a decimal field back *)

Definition digit_value (c : ascii) : nat := Ascii.nat_of_ascii c - 48.

Fixpoint decimal_value_go (s : string) (acc : nat) : nat :=
  match s with
  | EmptyString => acc
  | String c s' => decimal_value_go s' (10 * acc + digit_value c)
  end.

(** [int(s)] for a string of decimal digits. *)
Definition decimal_value (s : string) : nat := decimal_value_go s 0.

(** ** One click at a time *)

(** A click on the record button that waits for the previous one to be
    over: no signal is left in the queue, and the worker referred to, if
    any, has passed line 24. *)
Definition patient_click (s : World) : Prop :=
  posted s = [] /\
  forall w r, video_thread (self s) = Some w -> recorders s !! w = Some r ->
    at_line r <> L21 /\ at_line r <> L24.

(** A run in which every click on the record button is patient. *)
Fixpoint patient_run (l : list (actor * Env)) (s : World) : Prop :=
  match l with
  | [] => True
  | (a, e) :: l' =>
      (a = VideoClicked -> patient_click s) /\
      forall s', step a e s = Some s' -> patient_run l' s'
  end.

(** Checks that a concrete run is patient, evaluating it step by step. *)
Ltac patient_run_by_evaluation :=
  repeat (cbn [patient_run]; split;
    [ first
        [ by intros [=]
        | intros _; split; [reflexivity|];
          let w := fresh "w" in
          let r := fresh "r" in
          let Hv := fresh "Hv" in
          let Hr := fresh "Hr" in
          intros w r Hv Hr; vm_compute in Hv;
          first [ discriminate Hv
                | injection Hv as <-; vm_compute in Hr;
                  injection Hr as <-; split; discriminate ] ]
    | let s' := fresh "s" in
      let Hs' := fresh "Hs" in
      intros s' Hs'; vm_compute in Hs'; injection Hs' as <- ]);
  try exact I.

(** The worker has not been told to stop: it is still to set its flag, or
    loops with the flag set, or has finished. *)
Definition flag_started (r : VideoRecorder) : Prop :=
  match at_line r with
  | L21 | L24 | Finished => True
  | L25 | L27 | L28 | L29 _ => is_recording r = true
  | _ => False
  end.

Definition stopped_posted (s : World) : Prop :=
  exists p, recording_stopped p ∈ posted s.

Definition one_session (s : World) : Prop :=
  (forall w r, recorders s !! w = Some r -> at_line r <> Finished ->
     video_thread (self s) = Some w) /\
  (gui s = EventLoop ->
   forall w r, video_thread (self s) = Some w -> recorders s !! w = Some r ->
     flag_started r) /\
  (gui s <> Aborted ->
   forall w r, video_thread (self s) = Some w -> recorders s !! w = Some r ->
     at_line r = Finished -> stopped_posted s) /\
  (stopped_posted s ->
   forall w r, recorders s !! w = Some r -> at_line r = Finished).

(** ** The button text and the flag *)

(** No change of the flag waits to be notified: the signal queue is empty,
    and the worker referred to, if any, is not between setting its flag and
    emitting [started] (line 25), and its flag is only clear because it has
    still to set it (lines 21-24), not because [stop()] has cleared it. *)
Definition notified (s : World) : Prop :=
  posted s = [] /\
  forall w r, video_thread (self s) = Some w -> recorders s !! w = Some r ->
    at_line r <> L25 /\
    (is_recording r = false -> at_line r = L21 \/ at_line r = L24).

(** How the button text, the signal queue and the position of the worker
    referred to go together when clicks come one at a time: the text is the
    one of the last signal dispatched, and the signals still in the queue
    are the ones the worker has emitted since. *)
Definition label_synced (s : World) : Prop :=
  match video_thread (self s) with
  | None => posted s = [] /\ video_btn (self s) = "Record Video"
  | Some w =>
      forall r, recorders s !! w = Some r ->
        match at_line r with
        | NotStarted => False
        | L21 | L24 | L25 =>
            posted s = [] /\ video_btn (self s) = "Record Video"
        | L27 | L28 | L29 _ | L32 | L33 =>
            (posted s = [recording_started] /\
             video_btn (self s) = "Record Video") \/
            (posted s = [] /\ video_btn (self s) = "Stop Recording")
        | Finished =>
            (posted s = [recording_started;
                         recording_stopped (temp_file_name r)] /\
             video_btn (self s) = "Record Video") \/
            (posted s = [recording_stopped (temp_file_name r)] /\
             video_btn (self s) = "Stop Recording")
        end
  end.
(** * Properties *)

(** ** Framing: what a batch of calls leaves alone *)

Section Framing.

Lemma perform_all_self l s : self (perform_all l s) = self s.
Proof. revert s; induction l as [|a l IH]; intros s; simpl; [done|]. by rewrite IH. Qed.

Lemma perform_all_gui l s : gui (perform_all l s) = gui s.
Proof. revert s; induction l as [|a l IH]; intros s; simpl; [done|]. by rewrite IH. Qed.

Lemma perform_all_recorders l s : recorders (perform_all l s) = recorders s.
Proof. revert s; induction l as [|a l IH]; intros s; simpl; [done|]. by rewrite IH. Qed.

Lemma perform_all_wall l s : wall (perform_all l s) = wall s.
Proof. revert s; induction l as [|a l IH]; intros s; simpl; [done|]. by rewrite IH. Qed.

Lemma perform_all_trace l s : trace (perform_all l s) = trace s ++ l.
Proof.
  revert s; induction l as [|a l IH]; intros s; simpl.
  - by rewrite app_nil_r.
  - rewrite IH. simpl. by rewrite <- app_assoc.
Qed.

Lemma perform_all_posted l s :
  posted (perform_all l s) = foldl (fun q a => post_effect a q) (posted s) l.
Proof. revert s; induction l as [|a l IH]; intros s; simpl; [done|]. by rewrite IH. Qed.

Lemma perform_all_fs l s :
  fs (perform_all l s) = foldl (fun m a => fs_effect a m) (fs s) l.
Proof. revert s; induction l as [|a l IH]; intros s; simpl; [done|]. by rewrite IH. Qed.

Lemma exec_cons a e l s :
  exec ((a, e) :: l) s = s' ← step a e s; exec l s'.
Proof. reflexivity. Qed.

Lemma exec_app l1 l2 s :
  exec (l1 ++ l2) s = s' ← exec l1 s; exec l2 s'.
Proof.
  revert s; induction l1 as [|[a e] l1 IH]; intros s; simpl; [done|].
  destruct (step a e s) as [s1|]; simpl; [apply IH | done].
Qed.

Lemma reachable_exec l s s' :
  reachable s -> exec l s = Some s' -> reachable s'.
Proof.
  revert s; induction l as [|[a e] l IH]; intros s Hs H; simpl in H.
  - by inversion H; subst.
  - destruct (step a e s) as [s1|] eqn:E; simpl in H; [|done].
    eapply IH; [|exact H]. by eapply reach_step.
Qed.

(** The timer and the posted signals are served in the event loop and
    after [closeEvent] has returned. *)
Lemma step_timer_inv e s s' :
  step TimerTimeout e s = Some s' ->
  (gui s = EventLoop \/ gui s = Closed) /\ s' = update_frame e s.
Proof.
  unfold step. destruct (gui s); try done; intros E; inversion E; eauto.
Qed.

Lemma step_dispatch_inv e s s' :
  step Dispatch e s = Some s' ->
  (gui s = EventLoop \/ gui s = Closed) /\ dispatch e s = Some s'.
Proof. unfold step. destruct (gui s); try done; eauto. Qed.

(** One line of worker [w], seen from the world. *)
Lemma worker_line_step w e s r r' acts :
  gui s <> Aborted ->
  recorders s !! w = Some r ->
  run w e (cap (self s)) r = Some (r', acts) ->
  exists s',
    step (WorkerLine w) e s = Some s' /\
    self s' = self s /\ gui s' = gui s /\ wall s' = wall s /\
    recorders s' = <[w := r']> (recorders s) /\
    recorders s' !! w = Some r' /\
    trace s' = trace s ++ acts /\
    posted s' = foldl (fun q a => post_effect a q) (posted s) acts /\
    fs s' = foldl (fun m a => fs_effect a m) (fs s) acts.
Proof.
  intros Hg Hr Hrun.
  exists (perform_all acts (with_recorders (<[w := r']> (recorders s)) s)).
  split.
  { unfold step, worker_line. destruct (gui s); try done;
      rewrite Hr; simpl; rewrite Hrun; done. }
  rewrite perform_all_self, perform_all_gui, perform_all_wall,
    perform_all_recorders, perform_all_trace, perform_all_posted,
    perform_all_fs. simpl.
  repeat split; try done.
  apply list_lookup_insert_eq. by eapply lookup_lt_Some.
Qed.

Lemma step_worker_inv w e s s' :
  step (WorkerLine w) e s = Some s' ->
  exists r r' acts,
    recorders s !! w = Some r /\
    run w e (cap (self s)) r = Some (r', acts) /\
    s' = perform_all acts (with_recorders (<[w := r']> (recorders s)) s).
Proof.
  unfold step, worker_line. intros H.
  assert (Hw : (recorders s !! w ≫= fun r =>
             run w e (cap (self s)) r ≫= fun '(r', acts) =>
             Some (perform_all acts
               (with_recorders (<[w := r']> (recorders s)) s))) = Some s').
  { destruct (gui s); done. }
  destruct (recorders s !! w) as [r|]; simpl in Hw; [|done].
  destruct (run w e (cap (self s)) r) as [[r' acts]|] eqn:E; simpl in Hw; [|done].
  exists r, r', acts. by inversion Hw.
Qed.

Lemma step_worker_frame w e s s' :
  step (WorkerLine w) e s = Some s' ->
  self s' = self s /\ gui s' = gui s /\ wall s' = wall s.
Proof.
  intros H. apply step_worker_inv in H as (r & r' & acts & _ & _ & ->).
  by rewrite perform_all_self, perform_all_gui, perform_all_wall.
Qed.

Lemma exec_workers_frame w el s s' :
  exec (worker_lines w el) s = Some s' ->
  self s' = self s /\ gui s' = gui s /\ wall s' = wall s.
Proof.
  revert s; induction el as [|e el IH]; intros s H; simpl in H.
  - by inversion H.
  - destruct (step (WorkerLine w) e s) as [s1|] eqn:E; simpl in H; [|done].
    apply step_worker_frame in E as (E1 & E2 & E3).
    apply IH in H as (H1 & H2 & H3). split_and!; congruence.
Qed.

(** Lines that a worker executes in a row act on the world as [run_lines]
    acts on its recorder. *)
Lemma exec_run_lines w el : forall s r r' acts,
  gui s <> Aborted ->
  recorders s !! w = Some r ->
  run_lines w (cap (self s)) el r = Some (r', acts) ->
  exists s',
    exec (worker_lines w el) s = Some s' /\
    self s' = self s /\ gui s' = gui s /\ wall s' = wall s /\
    recorders s' = <[w := r']> (recorders s) /\
    trace s' = trace s ++ acts /\
    posted s' = foldl (fun q a => post_effect a q) (posted s) acts /\
    fs s' = foldl (fun m a => fs_effect a m) (fs s) acts.
Proof.
  induction el as [|e el IH]; intros s r r' acts Hg Hr Hrun; simpl in Hrun.
  - inversion Hrun; subst. exists s. rewrite app_nil_r.
    split_and!; try done. symmetry. by apply list_insert_id.
  - destruct (run w e (cap (self s)) r) as [[r1 a1]|] eqn:E1;
      simpl in Hrun; [|done].
    destruct (worker_line_step w e s r r1 a1 Hg Hr E1)
      as (s1 & Hs1 & Hself & Hgui & Hwall & Hrs & Hr1 & Htr & Hpo & Hfs).
    rewrite <- Hself in Hrun.
    destruct (run_lines w (cap (self s1)) el r1) as [[r2 a2]|] eqn:E2;
      simpl in Hrun; [|done].
    inversion Hrun; subst r' acts.
    destruct (IH s1 r1 r2 a2) as
      (s2 & Hs2 & Hself2 & Hgui2 & Hwall2 & Hrs2 & Htr2 & Hpo2 & Hfs2);
      try done.
    { by rewrite Hgui. }
    exists s2. split.
    { change (worker_lines w (e :: el))
        with ((WorkerLine w, e) :: worker_lines w el).
      rewrite exec_cons, Hs1. exact Hs2. }
    split_and!; try congruence.
    + by rewrite Hrs2, Hrs, list_insert_insert_eq.
    + by rewrite Htr2, Htr, app_assoc.
    + by rewrite Hpo2, Hpo, foldl_app.
    + by rewrite Hfs2, Hfs, foldl_app.
Qed.

End Framing.
(** ** Decimal fields *)

Section TextFacts.

#[local] Arguments Text.digit_char : simpl never.
#[local] Arguments is_digit : simpl never.
#[local] Arguments Nat.div : simpl never.
#[local] Arguments Nat.modulo : simpl never.
#[local] Arguments Nat.pow : simpl never.

Lemma length_append (a b : string) :
  String.length (a +:+ b) = String.length a + String.length b.
Proof. induction a as [|c a IH]; simpl; [done|]. by rewrite IH. Qed.

Lemma all_digits_append (a b : string) :
  all_digits (a +:+ b) = all_digits a && all_digits b.
Proof.
  induction a as [|c a IH]; simpl; [done|].
  rewrite IH. by rewrite andb_assoc.
Qed.

Lemma digit_char_is_digit n : is_digit (Text.digit_char n) = true.
Proof.
  unfold is_digit, Text.digit_char.
  assert (Hlt : n mod 10 < 10) by (apply Nat.mod_upper_bound; lia).
  assert (E : Ascii.nat_of_ascii (Ascii.ascii_of_nat (48 + n mod 10))
              = 48 + n mod 10).
  { apply Ascii.nat_ascii_embedding. lia. }
  rewrite E. revert Hlt. generalize (n mod 10). intros m Hm.
  rewrite andb_true_iff, !Nat.leb_le. lia.
Qed.

Lemma decimal_go_digits fuel n acc :
  all_digits acc = true -> all_digits (Text.decimal_go fuel n acc) = true.
Proof.
  revert n acc; induction fuel as [|fuel IH]; intros n acc Hacc.
  - exact Hacc.
  - cbn [Text.decimal_go].
    assert (all_digits (String (Text.digit_char n) acc) = true).
    { cbn [all_digits]. rewrite digit_char_is_digit. exact Hacc. }
    destruct (Nat.eqb (n / 10) 0); [assumption|]. apply IH. assumption.
Qed.

Lemma decimal_go_length k fuel n acc :
  1 <= k -> k <= fuel -> n < 10 ^ k ->
  String.length acc < String.length (Text.decimal_go fuel n acc) /\
  String.length (Text.decimal_go fuel n acc) <= k + String.length acc.
Proof.
  revert fuel n acc; induction k as [|k IH]; intros fuel n acc Hk Hf Hn; [lia|].
  destruct fuel as [|fuel]; [lia|]. cbn [Text.decimal_go].
  destruct (Nat.eqb (n / 10) 0) eqn:E.
  - cbn [String.length]. lia.
  - apply Nat.eqb_neq in E.
    rewrite Nat.pow_succ_r' in Hn.
    assert (Hk' : 1 <= k).
    { destruct k; [|lia]. rewrite Nat.pow_0_r in Hn.
      exfalso. apply E. apply Nat.div_small. lia. }
    assert (Hn' : n / 10 < 10 ^ k).
    { apply Nat.Div0.div_lt_upper_bound. lia. }
    destruct (IH fuel (n / 10) (String (Text.digit_char n) acc))
      as [H1 H2]; [lia|lia|assumption|].
    cbn [String.length] in H1, H2. lia.
Qed.

Lemma pow10_gt n : n < 10 ^ S n.
Proof.
  induction n as [|n IH]; [rewrite Nat.pow_1_r; lia|].
  rewrite Nat.pow_succ_r'. lia.
Qed.

Lemma zeros_digits k : digits k (Text.zeros k).
Proof.
  induction k as [|k [IH1 IH2]]; split; cbn [Text.zeros String.length all_digits].
  - reflexivity.
  - reflexivity.
  - by rewrite IH1.
  - rewrite IH2. reflexivity.
Qed.

Lemma zfill_digits w n : 1 <= w -> n < 10 ^ w -> digits w (Text.zfill w n).
Proof.
  intros Hw Hn. unfold Text.zfill, Text.decimal.
  assert (Hn' : n < 10 ^ S n) by apply pow10_gt.
  set (d := Text.decimal_go (S n) n "").
  assert (Hlen : 1 <= String.length d <= w).
  { destruct (le_lt_dec w (S n)).
    - destruct (decimal_go_length w (S n) n "") as [H1 H2]; try assumption.
      cbn [String.length] in H1, H2. fold d in H1, H2. lia.
    - destruct (decimal_go_length (S n) (S n) n "") as [H1 H2];
        try assumption; try lia.
      cbn [String.length] in H1, H2. fold d in H1, H2. lia. }
  destruct (zeros_digits (w - String.length d)) as [Z1 Z2].
  split.
  - rewrite length_append, Z1. lia.
  - rewrite all_digits_append, Z2. apply decimal_go_digits. reflexivity.
Qed.

Lemma strftime_stamp_shape t : calendar_range t -> stamp_shape (strftime_stamp t).
Proof.
  intros (Hy & Hm & Hd & Hh & Hmi & Hs).
  exists (Text.zfill 4 (year t)), (Text.zfill 2 (month t)),
    (Text.zfill 2 (day t)), (Text.zfill 2 (hour t)),
    (Text.zfill 2 (minute t)), (Text.zfill 2 (second t)).
  split; [reflexivity|].
  split_and!; apply zfill_digits; first [assumption | lia].
Qed.

End TextFacts.
(** ** The photo and stop handlers *)

Lemma path_join_relative dir name :
  Text.truthy dir = true -> Text.starts_with_sep name = false ->
  Text.path_join dir name = inside dir name.
Proof.
  unfold Text.path_join, Text.truthy, inside. intros Hd Hn. rewrite Hn.
  destruct (bool_decide (dir = "")); [done|]. simpl.
  destruct (Text.ends_with_sep dir); done.
Qed.

Lemma save_image_cases (e : Env) (s : World) :
  let s' := save_image e s in
  self s' = self s /\ recorders s' = recorders s /\
  posted s' = posted s /\ gui s' = gui s /\
  exists tl,
    trace s' = trace s ++ tl /\
    match cap_read (cap (self s)) (device e) with
    | Some frame =>
        wall s' = wall_next e /\
        length (directory_prompts tl) = 1 /\
        if Text.truthy (chosen_dir e) then
          let path := inside (chosen_dir e) (capture_name (wall_next e)) in
          image_writes tl = [(path, frame)] /\
          fs s' = (if imwrite_ok e then <[path := ImageFile frame]> (fs s)
                   else fs s)
        else
          image_writes tl = [] /\ fs s' = fs s
    | None =>
        directory_prompts tl = [] /\ image_writes tl = [] /\ fs s' = fs s
    end.
Proof.
  unfold save_image, getExistingDirectory.
  destruct (cap_read (cap (self s)) (device e)) as [frame|]; simpl.
  - destruct (Text.truthy (chosen_dir e)) eqn:Hd; simpl.
    + repeat split; try done. eexists. split.
      { rewrite <- !app_assoc. reflexivity. }
      simpl. fold (capture_name (wall_next e)).
      rewrite path_join_relative by done. by destruct (imwrite_ok e).
    + repeat split; try done. eexists. split.
      { rewrite <- !app_assoc. reflexivity. }
      done.
  - repeat split; try done. by eexists.
Qed.

(** ** What one step can do to a recorder *)

Section StepCases.

Lemma start_video_recording_old s w r :
  recorders s !! w = Some r ->
  recorders (start_video_recording s) !! w = Some r.
Proof.
  intros Hr. unfold start_video_recording; simpl.
  pose proof (lookup_lt_Some _ _ _ Hr) as Hlt.
  rewrite list_lookup_alter_ne by lia.
  by rewrite lookup_app_l.
Qed.

Lemma stop_call_lookup w0 s w r :
  recorders s !! w = Some r ->
  recorders (stop_call w0 s) !! w = Some (if decide (w0 = w) then stop r else r).
Proof.
  intros Hr. unfold stop_call; simpl. destruct (decide (w0 = w)) as [->|Hne].
  - by rewrite list_lookup_alter_eq, Hr.
  - by rewrite list_lookup_alter_ne.
Qed.

Lemma on_recording_stopped_recorders path e s :
  recorders (world_of (on_recording_stopped path e s)) = recorders s.
Proof.
  unfold on_recording_stopped, getExistingDirectory, os_rename; simpl.
  destruct (Text.truthy (chosen_dir e)); [|done].
  destruct (rename_ok e && is_some (fs s !! path)); done.
Qed.

Lemma dispatch_recorders e s s' :
  dispatch e s = Some s' -> recorders s' = recorders s.
Proof.
  unfold dispatch. destruct (posted s) as [|[|path] q]; [done| |].
  - intros E; inversion E; done.
  - pose proof (on_recording_stopped_recorders path e (with_posted q s)) as H.
    destruct (on_recording_stopped path e (with_posted q s));
      intros E; inversion E; subst; simpl in *; done.
Qed.

Lemma update_frame_recorders e s : recorders (update_frame e s) = recorders s.
Proof.
  unfold update_frame. destruct (cap_read _ _); [|done]. simpl.
  destruct (picture_box_size (self s)); done.
Qed.

Lemma save_image_recorders e s : recorders (save_image e s) = recorders s.
Proof. by destruct (save_image_cases e s) as (_ & H & _). Qed.

(** A step leaves a recorder alone, clears its flag through [stop()], or
    is that recorder's own next line. *)
Lemma step_recorder_cases a e s s' w r :
  step a e s = Some s' ->
  recorders s !! w = Some r ->
  recorders s' !! w = Some r \/
  ((a = VideoClicked \/ a = GuiContinue) /\
   recorders s' !! w = Some (stop r)) \/
  exists r' acts,
    a = WorkerLine w /\ run w e (cap (self s)) r = Some (r', acts) /\
    recorders s' !! w = Some r'.
Proof.
  intros Hstep Hr.
  destruct a.
  - (* TimerTimeout *)
    left. apply step_timer_inv in Hstep as [_ ->].
    by rewrite update_frame_recorders.
  - left. unfold step in Hstep. destruct (gui s); try done.
    inversion Hstep; subst. by rewrite save_image_recorders.
  - (* VideoClicked *)
    unfold step in Hstep. destruct (gui s); try done.
    unfold toggle_video_recording in Hstep.
    destruct (video_thread (self s)) as [w0|] eqn:Hv.
    + destruct (recorders s !! w0) as [r0|]; simpl in Hstep; [|done].
      destruct (negb (is_recording r0)); inversion Hstep; subst.
      * left. by apply start_video_recording_old.
      * unfold stop_video_recording. rewrite Hv.
        unfold with_gui; cbn [recorders].
        rewrite (stop_call_lookup w0 s w r Hr).
        destruct (decide (w0 = w)); eauto.
    + inversion Hstep; subst. left. by apply start_video_recording_old.
  - (* Dispatch *)
    left. apply step_dispatch_inv in Hstep as [_ Hstep].
    apply dispatch_recorders in Hstep. by rewrite Hstep.
  - (* CloseRequested *)
    left. unfold step in Hstep. destruct (gui s); try done.
    inversion Hstep; subst. done.
  - (* GuiContinue *)
    unfold step in Hstep. destruct (gui s) as [| |w0 c| |]; try done.
    + inversion Hstep; subst. unfold closeEvent_stop.
      destruct (video_thread (self s)) as [w0|]; [|by left].
      unfold with_gui; cbn [recorders].
      rewrite (stop_call_lookup w0 s w r Hr).
      destruct (decide (w0 = w)); eauto.
    + unfold wait_returns in Hstep.
      destruct (recorders s !! w0) as [r0|]; simpl in Hstep; [|done].
      destruct (at_line r0); try done. inversion Hstep; subst. by left.
  - (* WorkerLine *)
    apply step_worker_inv in Hstep as (r0 & r0' & acts & Hr0 & Hrun & ->).
    rewrite perform_all_recorders. simpl.
    destruct (decide (w0 = w)) as [->|Hne].
    + right; right. rewrite Hr in Hr0. inversion Hr0; subst r0.
      exists r0', acts. split_and!; try done.
      apply list_lookup_insert_eq. by eapply lookup_lt_Some.
    + left. by rewrite list_lookup_insert_ne.
  - (* ClockTick *)
    left. unfold step in Hstep. destruct (gui s); try done;
      inversion Hstep; subst; done.
Qed.

End StepCases.
(** ** The worker loop *)

(** What a sink holds after a series of writes: the frames of its own size,
    when it is open. *)
Lemma foldl_vw_write v fl :
  vw_opened (foldl vw_write v fl) = vw_opened v /\
  vw_released (foldl vw_write v fl) = vw_released v /\
  vw_path (foldl vw_write v fl) = vw_path v /\
  vw_size (foldl vw_write v fl) = vw_size v /\
  vw_frames (foldl vw_write v fl)
    = vw_frames v ++ filter (fun f => vw_accepts v f = true) fl.
Proof.
  revert v; induction fl as [|f fl IH]; intros v; simpl.
  - by rewrite app_nil_r.
  - destruct (IH (vw_write v f)) as (-> & -> & -> & -> & ->). simpl.
    split_and!; try done.
    rewrite filter_cons.
    assert (Hsame : filter (fun f0 => vw_accepts (vw_write v f) f0 = true) fl
                    = filter (fun f0 => vw_accepts v f0 = true) fl)
      by reflexivity.
    rewrite Hsame.
    destruct (vw_accepts v f); simpl; [|done].
    by rewrite <- app_assoc.
Qed.

Lemma filter_accepts_opened v (fl : list Frame) :
  vw_opened v = true ->
  filter (fun f => vw_accepts v f = true) fl
  = filter (fun f => frame_size f = vw_size v) fl.
Proof.
  intros Hop. apply list_filter_iff. intros f.
  unfold vw_accepts. rewrite Hop. simpl.
  by rewrite bool_decide_eq_true.
Qed.

Lemma vw_write_unopened v f : vw_opened v = false -> vw_write v f = v.
Proof.
  intros H. destruct v; simpl in H; subst. reflexivity.
Qed.

Lemma foldl_vw_write_unopened v fl :
  vw_opened v = false -> foldl vw_write v fl = v.
Proof.
  intros H. induction fl as [|f fl IH]; simpl; [done|].
  by rewrite vw_write_unopened.
Qed.

Lemma loop_calls_silent acts (q : list signal) (m : gmap string file) :
  Forall loop_call acts ->
  foldl (fun q a => post_effect a q) q acts = q /\
  foldl (fun m a => fs_effect a m) m acts = m.
Proof.
  induction 1 as [|a acts Ha _ [IH1 IH2]]; [done|]. simpl.
  destruct a; try done.
Qed.

Lemma iteration_calls_loop w c el :
  Forall loop_call (flat_map (iteration_calls w c) el).
Proof.
  induction el as [|e el IH]; [constructor|]. simpl.
  apply Forall_app. split; [|done]. unfold iteration_calls.
  destruct (cap_read c (device e)); repeat constructor.
Qed.

(** [n] turns of the loop, seen from the thread. *)
Lemma run_lines_iterations w c tmp el : forall v,
  run_lines w c (flat_map (fun e => [e; e; e]) el)
    (mk_VideoRecorder (Some v) true tmp L27)
  = Some (mk_VideoRecorder (Some (foldl vw_write v (frames_read c el)))
            true tmp L27,
          flat_map (iteration_calls w c) el).
Proof.
  induction el as [|e el IH]; intros v; [done|].
  change (flat_map (fun e => [e; e; e]) (e :: el))
    with (e :: e :: e :: flat_map (fun e => [e; e; e]) el).
  unfold frames_read, iteration_calls. cbn [omap flat_map].
  fold (frames_read c el). fold (iteration_calls w c).
  destruct (cap_read c (device e)) as [f|] eqn:Eread.
  - specialize (IH (vw_write v f)).
    cbn [run_lines]. unfold run at 1 2 3; simpl. rewrite Eread. simpl.
    unfold goto, set_out in *; simpl in *. rewrite IH. reflexivity.
  - specialize (IH v).
    cbn [run_lines]. unfold run at 1 2 3; simpl. rewrite Eread. simpl.
    unfold goto, set_out in *; simpl in *. rewrite IH. reflexivity.
Qed.

Lemma frames_read_length c el : length (frames_read c el) <= length el.
Proof.
  induction el as [|e el IH]; [done|].
  change (frames_read c (e :: el))
    with (match cap_read c (device e) with
          | Some f => f :: frames_read c el
          | None => frames_read c el
          end).
  destruct (cap_read c (device e)); simpl; lia.
Qed.

(** No line of [run] leaves the loop, or clears the flag, while the flag
    is set. *)
Lemma run_keeps_active w e c r r' acts :
  run w e c r = Some (r', acts) ->
  is_recording r = true -> in_loop (at_line r) ->
  is_recording r' = true /\ in_loop (at_line r').
Proof.
  unfold run. destruct r as [o b tmp l]; simpl.
  destruct l as [| | | | | |[f|]| | |]; simpl; intros E Hf Hl; try done;
    try (destruct o as [v|]; simpl in E; [|done]);
    inversion E; subst; simpl; done.
Qed.
(** ** What the slots leave alone *)

Lemma update_frame_cap e s :
  cap (self (update_frame e s)) = cap (self s) /\
  gui (update_frame e s) = gui s.
Proof.
  unfold update_frame. destruct (cap_read _ _); [|done]. simpl.
  destruct (picture_box_size (self s)); done.
Qed.

Lemma on_recording_stopped_cap path e s :
  cap (self (world_of (on_recording_stopped path e s))) = cap (self s) /\
  gui (world_of (on_recording_stopped path e s)) = gui s.
Proof.
  unfold on_recording_stopped, getExistingDirectory, os_rename; simpl.
  destruct (Text.truthy (chosen_dir e)); [|done].
  destruct (rename_ok e && is_some (fs s !! path)); done.
Qed.

Lemma update_frame_label e s :
  video_btn (self (update_frame e s)) = video_btn (self s).
Proof.
  unfold update_frame. destruct (cap_read _ _); [|done]. simpl.
  destruct (picture_box_size (self s)); done.
Qed.

Lemma step_keeps_label a e s s' :
  step a e s = Some s' -> a <> Dispatch ->
  video_btn (self s') = video_btn (self s).
Proof.
  intros Hstep Hne. destruct a; try done.
  - apply step_timer_inv in Hstep as [_ ->]. apply update_frame_label.
  - unfold step in Hstep. destruct (gui s); try done.
    inversion Hstep; subst.
    by destruct (save_image_cases e s) as (-> & _).
  - unfold step in Hstep. destruct (gui s); try done.
    unfold toggle_video_recording, stop_video_recording in Hstep.
    destruct (video_thread (self s)) as [w0|] eqn:Hv.
    + destruct (recorders s !! w0) as [r0|]; simpl in Hstep; [|done].
      destruct (negb (is_recording r0)); inversion Hstep; subst; done.
    + inversion Hstep; subst; done.
  - unfold step in Hstep. destruct (gui s); try done.
    inversion Hstep; subst. done.
  - unfold step in Hstep. destruct (gui s) as [| |w0 c| |]; try done.
    + inversion Hstep; subst. unfold closeEvent_stop.
      destruct (video_thread (self s)); done.
    + unfold wait_returns in Hstep.
      destruct (recorders s !! w0) as [r0|]; simpl in Hstep; [|done].
      destruct (at_line r0); try done. inversion Hstep; subst. done.
  - by apply step_worker_frame in Hstep as (-> & _).
  - unfold step in Hstep. destruct (gui s); try done;
      inversion Hstep; subst; done.
Qed.

Lemma on_recording_stopped_label path e s :
  video_btn (self (world_of (on_recording_stopped path e s))) = "Record Video".
Proof.
  unfold on_recording_stopped, getExistingDirectory, os_rename; simpl.
  destruct (Text.truthy (chosen_dir e)); [|done].
  destruct (rename_ok e && is_some (fs s !! path)); done.
Qed.

Lemma dispatch_sets_label e s s' :
  step Dispatch e s = Some s' ->
  exists sg q,
    posted s = sg :: q /\
    video_btn (self s') =
      match sg with
      | recording_started => "Stop Recording"
      | recording_stopped _ => "Record Video"
      end.
Proof.
  intros E. apply step_dispatch_inv in E as [_ E]. revert E. unfold dispatch.
  destruct (posted s) as [|[|path] q]; [done| |]; intros E.
  - inversion E; subst. by exists recording_started, q.
  - exists (recording_stopped path), q. split; [done|].
    pose proof (on_recording_stopped_label path e (with_posted q s)) as H.
    destruct (on_recording_stopped path e (with_posted q s));
      inversion E; subst; exact H.
Qed.

Lemma start_video_recording_recorders s :
  recorders (start_video_recording s)
  = recorders s ++ [start (VideoRecorder_init (wall s))].
Proof.
  unfold start_video_recording; simpl.
  rewrite <- (Nat.add_0_r (length (recorders s))).
  by rewrite alter_app_r.
Qed.

(** ** Invariants of every run *)

Section Invariants.

Lemma run_recorder_wf w e c r r' acts :
  recorder_wf r -> run w e c r = Some (r', acts) -> recorder_wf r'.
Proof.
  unfold recorder_wf, run. destruct r as [o b tmp l]; simpl.
  destruct l as [| | | | | |[f|]| | |]; simpl; intros H E; try done.
  - destruct H as [-> ->]. inversion E; subst; simpl.
    split; [|done]. eexists. split; [reflexivity|]. done.
  - destruct H as [(v & -> & Hrel & _) ->]. inversion E; subst; simpl. eauto.
  - inversion E; subst; simpl. done.
  - destruct H as (v & -> & Hrel). inversion E; subst. destruct b; simpl; eauto.
  - inversion E; subst; simpl. done.
  - destruct H as (v & -> & Hrel). simpl in E. inversion E; subst; simpl. eauto.
  - inversion E; subst; simpl. done.
  - destruct H as [(v & -> & Hrel) ->]. simpl in E. inversion E; subst; simpl.
    split; [|done]. eexists. split; [reflexivity|]. done.
  - inversion E; subst; simpl. done.
Qed.

Lemma stop_recorder_wf r : recorder_wf r -> recorder_wf (stop r).
Proof.
  unfold recorder_wf. destruct r as [o b tmp l]; simpl.
  destruct l as [| | | | | |ret| | |]; simpl; try done; intros H;
    try (destruct H as [H _]; split; done).
Qed.

(** A recorder of the next world was there before, or is the one a click
    on the record button has just created and started. *)
Lemma step_recorder_origin a e s s' w r' :
  step a e s = Some s' ->
  recorders s' !! w = Some r' ->
  is_Some (recorders s !! w) \/
  (a = VideoClicked /\ w = length (recorders s) /\
   r' = start (VideoRecorder_init (wall s))).
Proof.
  intros Hstep Hr'.
  destruct (decide (w < length (recorders s))) as [Hlt|Hge].
  { left. by apply lookup_lt_is_Some. }
  right.
  assert (Hnew : forall s0, recorders s' = recorders (start_video_recording s0) ->
            s0 = s -> w = length (recorders s) /\
            r' = start (VideoRecorder_init (wall s))).
  { intros s0 Hrs ->. rewrite Hrs in Hr'.
    unfold start_video_recording in Hr'; simpl in Hr'.
    pose proof (lookup_lt_Some _ _ _ Hr') as Hlt.
    rewrite length_alter, length_app in Hlt. simpl in Hlt.
    assert (w = length (recorders s)) as -> by lia.
    split; [done|].
    rewrite list_lookup_alter_eq, lookup_app_r, Nat.sub_diag in Hr' by done.
    by inversion Hr'. }
  assert (Hsame : length (recorders s') = length (recorders s) -> False).
  { intros Hlen. apply Hge. rewrite <- Hlen. by eapply lookup_lt_Some. }
  destruct a.
  - exfalso. apply Hsame. apply step_timer_inv in Hstep as [_ ->].
    by rewrite update_frame_recorders.
  - exfalso. apply Hsame. unfold step in Hstep. destruct (gui s); try done.
    inversion Hstep; subst. by rewrite save_image_recorders.
  - split; [done|]. unfold step in Hstep. destruct (gui s); try done.
    unfold toggle_video_recording in Hstep.
    destruct (video_thread (self s)) as [w0|] eqn:Hv.
    + destruct (recorders s !! w0) as [r0|]; simpl in Hstep; [|done].
      destruct (negb (is_recording r0)); inversion Hstep; subst.
      * by apply (Hnew s).
      * exfalso. apply Hsame. unfold stop_video_recording. rewrite Hv.
        simpl. by rewrite length_alter.
    + inversion Hstep; subst. by apply (Hnew s).
  - exfalso. apply Hsame. apply step_dispatch_inv in Hstep as [_ Hstep].
    apply dispatch_recorders in Hstep. by rewrite Hstep.
  - exfalso. apply Hsame. unfold step in Hstep. destruct (gui s); try done.
    inversion Hstep; subst. done.
  - exfalso. apply Hsame.
    unfold step in Hstep. destruct (gui s) as [| |w0 c| |]; try done.
    + inversion Hstep; subst. unfold closeEvent_stop.
      destruct (video_thread (self s)); [|done]. simpl. by rewrite length_alter.
    + unfold wait_returns in Hstep.
      destruct (recorders s !! w0) as [r0|]; simpl in Hstep; [|done].
      destruct (at_line r0); try done. by inversion Hstep; subst.
  - exfalso. apply Hsame.
    apply step_worker_inv in Hstep as (r0 & r0' & acts & _ & _ & ->).
    rewrite perform_all_recorders. simpl. by rewrite length_insert.
  - exfalso. apply Hsame. unfold step in Hstep.
    destruct (gui s); try done; by inversion Hstep; subst.
Qed.

Lemma reachable_recorder_wf s :
  reachable s -> forall w r, recorders s !! w = Some r -> recorder_wf r.
Proof.
  induction 1 as [|s a e s' Hs IH Hstep]; intros w r' Hr'; [done|].
  destruct (step_recorder_origin a e s s' w r' Hstep Hr')
    as [[r Hr]|(_ & _ & ->)].
  - destruct (step_recorder_cases a e s s' w r Hstep Hr)
      as [H|[[_ H]|(r0 & acts & _ & Hrun & H)]];
      rewrite Hr' in H; inversion H; subst r'.
    + by eapply IH.
    + apply stop_recorder_wf. by eapply IH.
    + eapply run_recorder_wf; [|exact Hrun]. by eapply IH.
  - done.
Qed.

Lemma update_frame_thread e s :
  video_thread (self (update_frame e s)) = video_thread (self s) /\
  posted (update_frame e s) = posted s.
Proof.
  unfold update_frame. destruct (cap_read _ _); [|done]. simpl.
  destruct (picture_box_size (self s)); done.
Qed.

Lemma on_recording_stopped_thread path e s :
  posted (world_of (on_recording_stopped path e s)) = posted s /\
  match on_recording_stopped path e s with
  | Returned s' => video_thread (self s') = None
  | Raised s' => video_thread (self s') = video_thread (self s)
  end.
Proof.
  unfold on_recording_stopped, getExistingDirectory, os_rename; simpl.
  destruct (Text.truthy (chosen_dir e)); [|done].
  destruct (rename_ok e && is_some (fs s !! path)); done.
Qed.

(** How a step moves the controller's reference: it keeps it, clears it, or
    points it at the recorder it has just appended; and a GUI thread that
    waits, waits for the worker the reference names. *)
Lemma step_reference a e s s' :
  step a e s = Some s' ->
  length (recorders s) <= length (recorders s') /\
  (video_thread (self s') = video_thread (self s) \/
   video_thread (self s') = None \/
   (video_thread (self s') = Some (length (recorders s)) /\
    length (recorders s) < length (recorders s'))) /\
  (forall w c, gui s' = Waiting w c ->
     (gui s = Waiting w c /\ video_thread (self s') = video_thread (self s)) \/
     video_thread (self s') = Some w).
Proof.
  intros Hstep. destruct a.
  - apply step_timer_inv in Hstep as [G ->].
    destruct (update_frame_thread e s) as [Hv _].
    destruct (update_frame_cap e s) as [_ Hg].
    rewrite update_frame_recorders, Hv, Hg. split_and!; [done|by left|].
    intros w c Hw. destruct G as [G|G]; rewrite G in Hw; done.
  - unfold step in Hstep. destruct (gui s) eqn:G; try done.
    inversion Hstep; subst.
    destruct (save_image_cases e s) as (-> & -> & _ & -> & _).
    rewrite G. split_and!; [done|by left|done].
  - unfold step in Hstep. destruct (gui s) eqn:G; try done.
    unfold toggle_video_recording in Hstep.
    assert (Hstart : length (recorders s)
                       <= length (recorders (start_video_recording s)) /\
              (video_thread (self (start_video_recording s))
                 = video_thread (self s) \/
               video_thread (self (start_video_recording s)) = None \/
               video_thread (self (start_video_recording s))
                 = Some (length (recorders s)) /\
               length (recorders s)
                 < length (recorders (start_video_recording s))) /\
              (forall w c, gui (start_video_recording s) = Waiting w c ->
                 (gui s = Waiting w c /\
                  video_thread (self (start_video_recording s))
                    = video_thread (self s)) \/
                 video_thread (self (start_video_recording s)) = Some w)).
    { unfold start_video_recording; simpl.
      rewrite length_alter, length_app; simpl. rewrite G.
      split_and!; [lia| right; right; split; [done|lia] | done]. }
    destruct (video_thread (self s)) as [w0|] eqn:Hv.
    + destruct (recorders s !! w0) as [r0|]; simpl in Hstep; [|done].
      destruct (negb (is_recording r0)); inversion Hstep; subst;
        [rewrite G in Hstart; exact Hstart|].
      unfold stop_video_recording. rewrite Hv. simpl. rewrite length_alter.
      split_and!; [done|by left|]. intros w c Hw. inversion Hw; subst.
      by right.
    + inversion Hstep; subst. rewrite G in Hstart. exact Hstart.
  - apply step_dispatch_inv in Hstep as [G Hstep].
    assert (Hnw : forall w c, gui s <> Waiting w c).
    { intros w c Hw. destruct G as [G|G]; rewrite G in Hw; done. }
    pose proof (dispatch_recorders e s s' Hstep) as Hrs. rewrite Hrs.
    split; [done|]. unfold dispatch in Hstep.
    destruct (posted s) as [|[|path] q]; [done| |].
    + inversion Hstep; subst; simpl. split; [by left|].
      intros w c Hw. by destruct (Hnw w c).
    + destruct (on_recording_stopped_thread path e (with_posted q s)) as [_ Hv].
      destruct (on_recording_stopped_cap path e (with_posted q s)) as [_ Hg].
      destruct (on_recording_stopped path e (with_posted q s));
        inversion Hstep; subst; simpl in *.
      * rewrite Hv, Hg. split; [right; by left|].
        intros w c Hw. by destruct (Hnw w c).
      * rewrite Hv. split; [by left|done].
  - unfold step in Hstep. destruct (gui s); try done.
    inversion Hstep; subst. simpl. split_and!; [done|by left|done].
  - unfold step in Hstep. destruct (gui s) as [| |w0 c0| |] eqn:G; try done.
    + inversion Hstep; subst. unfold closeEvent_stop.
      destruct (video_thread (self s)) as [w0|] eqn:Hv; simpl.
      * rewrite length_alter, Hv. split_and!; [done|by left|].
        intros w c Hw. inversion Hw; subst. by right.
      * rewrite Hv. split_and!; [done|by left|done].
    + unfold wait_returns in Hstep.
      destruct (recorders s !! w0) as [r0|]; simpl in Hstep; [|done].
      destruct (at_line r0); try done. inversion Hstep; subst. simpl.
      split_and!; [done|by left|]. destruct c0; done.
  - pose proof Hstep as Hstep'.
    apply step_worker_frame in Hstep' as (Hself & Hgui & _).
    apply step_worker_inv in Hstep as (r0 & r0' & acts & _ & _ & ->).
    rewrite perform_all_recorders, perform_all_self, perform_all_gui. simpl.
    rewrite length_insert. split_and!; [done|by left|]. intros w' c Hw. by left.
  - unfold step in Hstep.
    destruct (gui s) eqn:G; try done; inversion Hstep; subst; simpl;
      rewrite G; (split_and!; [done|by left|]); intros w' c' Hw; by left.
Qed.

Lemma reachable_reference s :
  reachable s ->
  (forall w, video_thread (self s) = Some w -> w < length (recorders s)) /\
  (forall w c, gui s = Waiting w c -> video_thread (self s) = Some w).
Proof.
  induction 1 as [|s a e s' Hs [IH1 IH2] Hstep]; [done|].
  destruct (step_reference a e s s' Hstep) as (Hlen & Hv & Hw).
  split.
  - intros w Hw'. destruct Hv as [Hv|[Hv|[Hv Hlt]]]; rewrite Hv in Hw'.
    + apply IH1 in Hw'. lia.
    + done.
    + inversion Hw'; subst. done.
  - intros w c Hg. destruct (Hw w c Hg) as [[Hg' Hv']|Hv']; [|done].
    rewrite Hv'. by eapply IH2.
Qed.

(** What a line of [run] posts to the GUI thread. *)
Lemma run_emits w e c r r' acts (q : list signal) :
  run w e c r = Some (r', acts) ->
  foldl (fun q a => post_effect a q) q acts =
    q ++ match at_line r with
         | L25 => [recording_started]
         | L33 => [recording_stopped (temp_file_name r)]
         | _ => []
         end /\
  (at_line r = L33 ->
   at_line r' = Finished /\ temp_file_name r' = temp_file_name r).
Proof.
  unfold run. destruct r as [o b tmp l]; simpl.
  destruct l as [| | | | | |[f|]| | |]; simpl; intros E; try done;
    try (destruct o as [v|]; simpl in E; [|done]);
    inversion E; subst; simpl; rewrite ?app_nil_r; done.
Qed.

Lemma step_posted a e s s' :
  step a e s = Some s' ->
  posted s' = posted s \/
  (a = Dispatch /\ exists sg, posted s = sg :: posted s') \/
  exists w r r' acts,
    a = WorkerLine w /\ recorders s !! w = Some r /\
    run w e (cap (self s)) r = Some (r', acts) /\
    recorders s' !! w = Some r' /\
    posted s' = foldl (fun q a => post_effect a q) (posted s) acts.
Proof.
  intros Hstep. destruct a.
  - left. apply step_timer_inv in Hstep as [_ ->].
    by destruct (update_frame_thread e s) as [_ ->].
  - left. unfold step in Hstep. destruct (gui s); try done.
    inversion Hstep; subst. by destruct (save_image_cases e s) as (_ & _ & -> & _).
  - left. unfold step in Hstep. destruct (gui s); try done.
    unfold toggle_video_recording, stop_video_recording in Hstep.
    destruct (video_thread (self s)) as [w0|] eqn:Hv.
    + destruct (recorders s !! w0) as [r0|]; simpl in Hstep; [|done].
      destruct (negb (is_recording r0)); inversion Hstep; subst; done.
    + inversion Hstep; subst; done.
  - right; left. split; [done|].
    apply step_dispatch_inv in Hstep as [_ Hstep]. unfold dispatch in Hstep.
    destruct (posted s) as [|[|path] q]; [done| |].
    + inversion Hstep; subst; simpl. by eexists.
    + destruct (on_recording_stopped_thread path e (with_posted q s)) as [Hp _].
      simpl in Hp. exists (recording_stopped path).
      destruct (on_recording_stopped path e (with_posted q s));
        inversion Hstep; subst; simpl in *; done.
  - left. unfold step in Hstep. destruct (gui s); try done.
    inversion Hstep; subst. done.
  - left. unfold step in Hstep. destruct (gui s) as [| |w0 c0| |]; try done.
    + inversion Hstep; subst. unfold closeEvent_stop.
      destruct (video_thread (self s)); done.
    + unfold wait_returns in Hstep.
      destruct (recorders s !! w0) as [r0|]; simpl in Hstep; [|done].
      destruct (at_line r0); try done. by inversion Hstep; subst.
  - right; right.
    apply step_worker_inv in Hstep as (r0 & r0' & acts & Hr0 & Hrun & ->).
    exists w, r0, r0', acts. rewrite perform_all_posted, perform_all_recorders.
    simpl. split_and!; try done.
    apply list_lookup_insert_eq. by eapply lookup_lt_Some.
  - left. unfold step in Hstep.
    destruct (gui s); try done; by inversion Hstep; subst.
Qed.

Lemma stopped_is_finished_step a e s s' sg :
  step a e s = Some s' ->
  stopped_is_finished s sg -> stopped_is_finished s' sg.
Proof.
  intros Hstep. destruct sg as [|path]; [done|].
  intros (w & r & Hr & Htmp & Hfin).
  destruct (step_recorder_cases a e s s' w r Hstep Hr)
    as [H|[[_ H]|(r0 & acts & _ & Hrun & H)]].
  - by exists w, r.
  - by exists w, (stop r).
  - unfold run in Hrun. rewrite Hfin in Hrun. done.
Qed.

Lemma reachable_posted s :
  reachable s -> Forall (stopped_is_finished s) (posted s).
Proof.
  induction 1 as [|s a e s' Hs IH Hstep]; [by constructor|].
  assert (IH' : Forall (stopped_is_finished s') (posted s)).
  { eapply Forall_impl; [exact IH|]. intros sg.
    by apply (stopped_is_finished_step a e). }
  destruct (step_posted a e s s' Hstep)
    as [->|[(_ & sg & Hp)|(w & r & r' & acts & _ & Hr & Hrun & Hr' & ->)]].
  - done.
  - rewrite Hp in IH'. by inversion IH'.
  - destruct (run_emits w e _ r r' acts (posted s) Hrun) as [-> Hfin].
    apply Forall_app. split; [done|].
    destruct (at_line r) eqn:Hl; try by repeat constructor.
    destruct (Hfin eq_refl) as [Hf Ht].
    repeat constructor. by exists w, r'.
Qed.

Lemma reachable_world_wf s : reachable s -> world_wf s.
Proof.
  intros Hs. destruct (reachable_reference s Hs) as [H1 H2].
  split_and!; try done.
  - by apply reachable_recorder_wf.
  - by apply reachable_posted.
Qed.

End Invariants.
(** ** One click at a time *)

(** The five shapes of a step, seen from the controller's reference, the
    recorders and the signal queue. *)
Lemma step_shapes a e s s' :
  reachable s ->
  step a e s = Some s' ->
  (recorders s' = recorders s /\
   video_thread (self s') = video_thread (self s) /\
   posted s' = posted s /\
   video_btn (self s') = video_btn (self s) /\
   (gui s' = gui s \/
    (gui s = EventLoop /\ gui s' = Close141) \/
    (gui s = Close141 /\ video_thread (self s) = None /\ gui s' = Closed) \/
    (exists w c r, gui s = Waiting w c /\ recorders s !! w = Some r /\
                   at_line r = Finished /\
                   gui s' = if c then Closed else EventLoop))) \/
  (a = VideoClicked /\ gui s = EventLoop /\ gui s' = EventLoop /\
   (video_thread (self s) = None \/
    exists w r, video_thread (self s) = Some w /\
                recorders s !! w = Some r /\ is_recording r = false) /\
   recorders s' = recorders s ++ [start (VideoRecorder_init (wall s))] /\
   video_thread (self s') = Some (length (recorders s)) /\
   posted s' = posted s /\
   video_btn (self s') = video_btn (self s)) \/
  (exists w c r,
     video_thread (self s) = Some w /\ recorders s !! w = Some r /\
     (gui s = EventLoop /\ c = false /\ is_recording r = true \/
      gui s = Close141 /\ c = true) /\
     gui s' = Waiting w c /\
     recorders s' = alter stop w (recorders s) /\
     video_thread (self s') = Some w /\ posted s' = posted s /\
     video_btn (self s') = video_btn (self s)) \/
  (a = Dispatch /\ (gui s = EventLoop \/ gui s = Closed) /\
   recorders s' = recorders s /\
   exists sg, posted s = sg :: posted s' /\
     (sg = recording_started /\ gui s' = gui s /\
      video_thread (self s') = video_thread (self s) /\
      video_btn (self s') = "Stop Recording" \/
      exists p, sg = recording_stopped p /\
        video_btn (self s') = "Record Video" /\
        (gui s' = gui s /\ video_thread (self s') = None \/
         gui s' = Aborted /\ video_thread (self s') = video_thread (self s)))) \/
  (exists w r r' acts,
     a = WorkerLine w /\ recorders s !! w = Some r /\
     run w e (cap (self s)) r = Some (r', acts) /\
     recorders s' = <[w := r']> (recorders s) /\
     self s' = self s /\ gui s' = gui s /\
     posted s' = foldl (fun q a => post_effect a q) (posted s) acts).
Proof.
  intros Hreach Hstep. destruct (reachable_reference s Hreach) as [Href _].
  assert (Hlab : a <> Dispatch -> video_btn (self s') = video_btn (self s))
    by (by apply (step_keeps_label a e)).
  destruct a.
  - left. specialize (Hlab ltac:(done)).
    apply step_timer_inv in Hstep as [G ->].
    destruct (update_frame_thread e s) as [Hv Hp].
    destruct (update_frame_cap e s) as [_ Hg].
    rewrite update_frame_recorders, Hv, Hp, Hg. split_and!; try done. by left.
  - left. specialize (Hlab ltac:(done)).
    unfold step in Hstep. destruct (gui s) eqn:G; try done.
    inversion Hstep; subst.
    destruct (save_image_cases e s) as (-> & -> & -> & -> & _).
    split_and!; try done. by left.
  - specialize (Hlab ltac:(done)).
    unfold step in Hstep. destruct (gui s) eqn:G; try done.
    unfold toggle_video_recording in Hstep.
    destruct (video_thread (self s)) as [w0|] eqn:Hv.
    + destruct (recorders s !! w0) as [r0|] eqn:Hr0; simpl in Hstep; [|done].
      destruct (is_recording r0) eqn:Hf; simpl in Hstep;
        inversion Hstep; subst.
      * right; right; left. exists w0, false, r0.
        unfold stop_video_recording in *. rewrite Hv in *. simpl in *.
        rewrite Hv. split_and!; try done. left. done.
      * right; left. rewrite start_video_recording_recorders.
        split_and!; try done. right. by exists w0, r0.
    + inversion Hstep; subst. right; left.
      rewrite start_video_recording_recorders. split_and!; try done. by left.
  - right; right; right; left. clear Hlab.
    destruct (dispatch_sets_label e s s' Hstep) as (sg0 & q0 & Hp0 & Hb0).
    apply step_dispatch_inv in Hstep as [G Hstep].
    pose proof (dispatch_recorders e s s' Hstep) as Hrs.
    split_and!; try done. unfold dispatch in Hstep.
    destruct (posted s) as [|[|path] q]; [done| |]; inversion Hp0; subst sg0 q0.
    + inversion Hstep; subst; simpl. exists recording_started.
      split; [done|]. left. done.
    + destruct (on_recording_stopped_thread path e (with_posted q s)) as [Hp Hv].
      destruct (on_recording_stopped_cap path e (with_posted q s)) as [_ Hg].
      simpl in Hp, Hg. exists (recording_stopped path).
      destruct (on_recording_stopped path e (with_posted q s)) as [s0|s0];
        inversion Hstep; subst; simpl in *.
      * split; [done|]. right. exists path. split; [done|]. split; [done|].
        left. done.
      * split; [done|]. right. exists path. split; [done|]. split; [done|].
        right. done.
  - left. specialize (Hlab ltac:(done)).
    unfold step in Hstep. destruct (gui s) eqn:G; try done.
    inversion Hstep; subst. simpl. split_and!; try done. right; left. done.
  - specialize (Hlab ltac:(done)).
    unfold step in Hstep. destruct (gui s) as [| |w0 c0| |] eqn:G; try done.
    + inversion Hstep; subst. unfold closeEvent_stop in *.
      destruct (video_thread (self s)) as [w0|] eqn:Hv.
      * right; right; left.
        destruct (lookup_lt_is_Some_2 (recorders s) w0 (Href w0 eq_refl))
          as [r0 Hr0].
        exists w0, true, r0. simpl in *. rewrite Hv.
        split_and!; try done. right. done.
      * left. simpl in *. split_and!; try done. right; right; left. done.
    + unfold wait_returns in Hstep.
      destruct (recorders s !! w0) as [r0|] eqn:Hr0; simpl in Hstep; [|done].
      destruct (at_line r0) eqn:Hl; try done. inversion Hstep; subst. simpl.
      left. split_and!; try done. right; right; right. by exists w0, c0, r0.
  - right; right; right; right.
    pose proof Hstep as Hstep'.
    apply step_worker_frame in Hstep' as (Hself & Hgui & _).
    apply step_worker_inv in Hstep as (r0 & r0' & acts & Hr0 & Hrun & ->).
    exists w, r0, r0', acts.
    rewrite perform_all_recorders, perform_all_posted. simpl.
    split_and!; try done.
  - left. specialize (Hlab ltac:(done)). unfold step in Hstep.
    destruct (gui s) eqn:G; try done; inversion Hstep; subst; simpl;
      split_and!; try done; by left.
Qed.

Lemma finished_or_not (l : line) : l = Finished \/ l <> Finished.
Proof. destruct l; (by left) || (by right). Qed.

Lemma run_not_finished w e c r r' acts :
  run w e c r = Some (r', acts) -> at_line r <> Finished.
Proof. unfold run. intros H Hl. rewrite Hl in H. done. Qed.

Lemma run_flag_started w e c r r' acts :
  flag_started r -> run w e c r = Some (r', acts) -> flag_started r'.
Proof.
  unfold flag_started, run. destruct r as [o b tmp l]; simpl.
  destruct l as [| | | | | |[f|]| | |]; simpl; intros H E; try done;
    try (destruct o as [v|]; simpl in E; [|done]);
    inversion E; subst; simpl; done.
Qed.

Lemma run_to_finished w e c r r' acts :
  run w e c r = Some (r', acts) -> at_line r' = Finished -> at_line r = L33.
Proof.
  unfold run. destruct r as [o b tmp l]; simpl.
  destruct l as [| | | | | |[f|]| | |]; simpl; intros E; try done;
    try (destruct o as [v|]; simpl in E; [|done]);
    inversion E; subst; simpl; try done. by destruct b.
Qed.

Lemma alter_stop_lookup (l : list VideoRecorder) w w' r' :
  alter stop w l !! w' = Some r' ->
  exists r, l !! w' = Some r /\ at_line r' = at_line r /\
            (r' = r \/ (w' = w /\ r' = stop r)).
Proof.
  intros H. pose proof (lookup_lt_Some _ _ _ H) as Hlt.
  rewrite length_alter in Hlt.
  destruct (lookup_lt_is_Some_2 l w' Hlt) as [r Hr]. exists r.
  destruct (decide (w = w')) as [->|Hne].
  - rewrite list_lookup_alter_eq, Hr in H. inversion H; subst. eauto.
  - rewrite list_lookup_alter_ne, Hr in H by done. inversion H; subst. eauto.
Qed.

(** A patient click never finds a reference to a worker whose flag is
    clear. *)
Lemma patient_click_flag s w0 r0 :
  one_session s -> gui s = EventLoop -> patient_click s ->
  video_thread (self s) = Some w0 -> recorders s !! w0 = Some r0 ->
  is_recording r0 = true.
Proof.
  intros (_ & P3 & P4 & _) Hg [Hempty Hline] Hv0 Hr0.
  specialize (P3 Hg w0 r0 Hv0 Hr0).
  destruct (Hline w0 r0 Hv0 Hr0) as [H21 H24].
  unfold flag_started in P3.
  destruct (at_line r0) eqn:Hl; try done.
  assert (Hna : gui s <> Aborted) by (by rewrite Hg).
  destruct (P4 Hna w0 r0 Hv0 Hr0 Hl) as [p Hin].
  rewrite Hempty in Hin. by apply elem_of_nil in Hin.
Qed.

Lemma one_session_step a e s s' :
  reachable s -> one_session s ->
  step a e s = Some s' ->
  (a = VideoClicked -> patient_click s) ->
  one_session s'.
Proof.
  intros Hreach (P1 & P3 & P4 & P5) Hstep Hpat.
  destruct (reachable_reference s Hreach) as [_ Hwait].
  assert (Hna : gui s <> Aborted).
  { intros G. unfold step in Hstep. rewrite G in Hstep. done. }
  specialize (P4 Hna).
  destruct (step_shapes a e s s' Hreach Hstep)
    as [(Hrs & Hv & Hp & _ & Hg)
       |[(-> & Hg & Hg' & Hwho & Hrs & Hv & Hp & _)
        |[(w & c & r & Hv & Hr & Hwhy & Hg' & Hrs & Hv' & Hp & _)
         |[(-> & Hg & Hrs & sg & Hp & Hsg)
          |(w & r & r' & acts & -> & Hr & Hrun & Hrs & Hself & Hg' & Hp)]]]].
  - (* a quiet step *)
    unfold one_session, stopped_posted. rewrite Hrs, Hv, Hp.
    split_and!; try done. intros G'.
    destruct Hg as [Hg|[[_ Hg]|[(_ & _ & Hg)|(w & c & r & Hg & Hr & Hl & Hg2)]]];
      try congruence.
    + apply P3. congruence.
    + intros w' r' Hv' Hr'. rewrite (Hwait w c Hg) in Hv'.
      inversion Hv'; subst w'. rewrite Hr in Hr'. inversion Hr'; subst r'.
      unfold flag_started. by rewrite Hl.
  - (* a new recorder *)
    destruct (Hpat eq_refl) as [Hempty Hline].
    assert (Hall : forall w r, recorders s !! w = Some r -> at_line r = Finished).
    { destruct Hwho as [Hnone|(w0 & r0 & Hv0 & Hr0 & Hf0)].
      - intros w r Hr. destruct (finished_or_not (at_line r)) as [|Hne];
          [done|]. specialize (P1 w r Hr Hne). congruence.
      - exfalso. specialize (P3 Hg w0 r0 Hv0 Hr0).
        destruct (Hline w0 r0 Hv0 Hr0) as [H21 H24].
        unfold flag_started in P3.
        destruct (at_line r0) eqn:Hl; try done; try congruence.
        destruct (P4 w0 r0 Hv0 Hr0 Hl) as [p Hin].
        rewrite Hempty in Hin. by apply elem_of_nil in Hin. }
    unfold one_session, stopped_posted. rewrite Hrs, Hv, Hp, Hempty.
    split_and!.
    + intros w r Hr Hne.
      destruct (decide (w < length (recorders s))) as [Hlt|Hge].
      * rewrite lookup_app_l in Hr by done. by specialize (Hall w r Hr).
      * pose proof (lookup_lt_Some _ _ _ Hr) as Hlt.
        rewrite length_app in Hlt. simpl in Hlt. f_equal. lia.
    + intros _ w r Hw Hr. inversion Hw; subst w.
      rewrite lookup_app_r, Nat.sub_diag in Hr by done.
      inversion Hr; subst r. done.
    + intros _ w r Hw Hr Hl. inversion Hw; subst w.
      rewrite lookup_app_r, Nat.sub_diag in Hr by done.
      inversion Hr; subst r. done.
    + intros [p Hin]. by apply elem_of_nil in Hin.
  - (* stop() *)
    unfold one_session, stopped_posted. rewrite Hrs, Hv', Hp, Hg'.
    split_and!; try done.
    + intros w' r' Hr' Hne.
      destruct (alter_stop_lookup _ _ _ _ Hr') as (r0 & Hr0 & Hl & _).
      rewrite <- Hv. apply (P1 w' r0 Hr0). congruence.
    + intros _ w' r' Hw' Hr' Hl'.
      destruct (alter_stop_lookup _ _ _ _ Hr') as (r0 & Hr0 & Hl & _).
      apply (P4 w' r0); congruence.
    + intros Hsp w' r' Hr'.
      destruct (alter_stop_lookup _ _ _ _ Hr') as (r0 & Hr0 & Hl & _).
      rewrite Hl. by apply (P5 Hsp w' r0).
  - (* a dispatch *)
    unfold one_session, stopped_posted. rewrite Hrs.
    assert (Hsub : (exists p, recording_stopped p ∈ posted s') -> stopped_posted s).
    { intros [p Hin]. exists p. rewrite Hp. by right. }
    destruct Hsg as [(-> & Hg' & Hv & _)|(p & -> & _ & Hcase)].
    + rewrite Hv. split_and!; try done.
      * intros G'. apply P3. congruence.
      * intros _ w r Hw Hr Hl. destruct (P4 w r Hw Hr Hl) as [p Hin].
        exists p. rewrite Hp in Hin. apply elem_of_cons in Hin as [Hin|Hin]; done.
      * intros Hsp. by apply P5, Hsub.
    + assert (Hall : forall w r, recorders s !! w = Some r -> at_line r = Finished).
      { apply P5. exists p. rewrite Hp. by left. }
      destruct Hcase as [[Hg' Hv]|[Hg' Hv]]; rewrite Hv;
        split_and!; try done; try congruence;
        intros w r Hr Hne; by specialize (Hall w r Hr).
  - (* a line of a worker *)
    pose proof (run_not_finished _ _ _ _ _ _ Hrun) as Hnf.
    destruct (run_emits w e _ r r' acts (posted s) Hrun) as [Hem Hfin].
    rewrite Hem in Hp.
    unfold one_session, stopped_posted. rewrite Hrs, Hself, Hg', Hp.
    assert (Hlt : w < length (recorders s)) by (by eapply lookup_lt_Some).
    split_and!.
    + intros w' r0 Hr0 Hne. destruct (decide (w = w')) as [<-|Hw].
      * by apply (P1 w r).
      * rewrite list_lookup_insert_ne in Hr0 by done. by apply (P1 w' r0).
    + intros G w' r0 Hw' Hr0. destruct (decide (w = w')) as [<-|Hw].
      * rewrite list_lookup_insert_eq in Hr0 by done. inversion Hr0; subst r0.
        eapply run_flag_started; [|exact Hrun]. by apply (P3 G w r).
      * rewrite list_lookup_insert_ne in Hr0 by done. by apply (P3 G w' r0).
    + intros _ w' r0 Hw' Hr0 Hl. destruct (decide (w = w')) as [<-|Hw].
      * rewrite list_lookup_insert_eq in Hr0 by done. inversion Hr0; subst r0.
        pose proof (run_to_finished _ _ _ _ _ _ Hrun Hl) as Hl33.
        rewrite Hl33. eexists. apply elem_of_app. right. by left.
      * rewrite list_lookup_insert_ne in Hr0 by done.
        destruct (P4 w' r0 Hw' Hr0 Hl) as [p Hin].
        exists p. apply elem_of_app. by left.
    + intros [p Hin] w' r0 Hr0. apply elem_of_app in Hin as [Hin|Hin].
      * exfalso. apply Hnf. apply (P5 (ex_intro _ p Hin) w r Hr).
      * destruct (at_line r) eqn:Hl;
          try (by apply elem_of_nil in Hin);
          try (apply list_elem_of_singleton in Hin; done).
        destruct (Hfin eq_refl) as [Hf' _].
        destruct (decide (w = w')) as [<-|Hw].
        -- rewrite list_lookup_insert_eq in Hr0 by done. by inversion Hr0; subst.
        -- rewrite list_lookup_insert_ne in Hr0 by done.
           destruct (finished_or_not (at_line r0)) as [|Hne]; [done|].
           pose proof (P1 w' r0 Hr0 Hne) as H1.
           assert (Hl' : at_line r <> Finished) by congruence.
           pose proof (P1 w r Hr Hl') as H2. congruence.
Qed.

Lemma one_session_boot dev_ok width height box now :
  one_session (boot dev_ok width height box now).
Proof.
  unfold one_session, stopped_posted; simpl. split_and!; try done.
Qed.

Lemma patient_run_one_session l s s' :
  reachable s -> one_session s -> patient_run l s ->
  exec l s = Some s' -> one_session s'.
Proof.
  revert s. induction l as [|[a e] l IH]; intros s Hreach Hone Hpat Hexec.
  - simpl in Hexec. by inversion Hexec; subst.
  - rewrite exec_cons in Hexec. destruct Hpat as [Hclick Hrest].
    destruct (step a e s) as [s1|] eqn:Hstep; simpl in Hexec; [|done].
    apply (IH s1); [by eapply reach_step| |by apply Hrest|done].
    by eapply one_session_step.
Qed.

Lemma filter_none {A} (P : A -> bool) (l : list A) :
  (forall i x, l !! i = Some x -> P x = false) ->
  filter (fun x => P x = true) l = [].
Proof.
  induction l as [|x l IH]; intros H; [done|].
  rewrite filter_cons. pose proof (H 0 x eq_refl) as Hx.
  destruct (decide (P x = true)) as [E|_]; [congruence|].
  apply IH. intros i y Hy. by apply (H (S i)).
Qed.

Lemma filter_at_most_one {A} (P : A -> bool) (l : list A) :
  (forall i j x y, l !! i = Some x -> l !! j = Some y ->
     P x = true -> P y = true -> i = j) ->
  length (filter (fun x => P x = true) l) <= 1.
Proof.
  induction l as [|x l IH]; intros H; [simpl; lia|].
  rewrite filter_cons. destruct (decide (P x = true)) as [E|_].
  - rewrite filter_none; [simpl; lia|].
    intros i y Hy. destruct (P y) eqn:Ey; [|done].
    by specialize (H 0 (S i) x y eq_refl Hy E Ey).
  - apply IH. intros i j a b Ha Hb Pa Pb.
    by specialize (H (S i) (S j) a b Ha Hb Pa Pb) as [= ->].
Qed.

Lemma live_not_finished r : session_live r = true -> at_line r <> Finished.
Proof. unfold session_live. by destruct (at_line r). Qed.

(** ** The button text along a run *)

Lemma exec_not_aborted l s s' :
  exec l s = Some s' -> gui s' <> Aborted -> gui s <> Aborted.
Proof.
  destruct l as [|[a e] l]; simpl; intros Hex Hna.
  - by inversion Hex; subst.
  - intros G. unfold step in Hex. rewrite G in Hex. done.
Qed.

Lemma label_synced_step a e s s' :
  reachable s -> one_session s -> label_synced s ->
  step a e s = Some s' ->
  (a = VideoClicked -> patient_click s) ->
  gui s' <> Aborted ->
  label_synced s'.
Proof.
  intros Hreach Hone J Hstep Hpat Hna'.
  destruct (reachable_reference s Hreach) as [Href _].
  destruct (step_shapes a e s s' Hreach Hstep)
    as [(Hrs & Hv & Hp & Hb & _)
       |[(-> & Hg & Hg' & Hwho & Hrs & Hv & Hp & Hb)
        |[(w & c & r & Hv & Hr & _ & _ & Hrs & Hv' & Hp & Hb)
         |[(-> & _ & Hrs & sg & Hp & Hsg)
          |(w & r & r' & acts & -> & Hr & Hrun & Hrs & Hself & _ & Hp)]]]].
  - unfold label_synced in *. by rewrite Hrs, Hv, Hp, Hb.
  - destruct Hwho as [Hnone|(w0 & r0 & Hv0 & Hr0 & Hf0)].
    2: { pose proof (patient_click_flag s w0 r0 Hone Hg (Hpat eq_refl) Hv0 Hr0).
         congruence. }
    unfold label_synced in *. rewrite Hnone in J. destruct J as [Jp Jb].
    rewrite Hv. intros r Hr.
    rewrite Hrs, lookup_app_r, Nat.sub_diag in Hr by done.
    inversion Hr; subst r. simpl. by rewrite Hp, Hb.
  - unfold label_synced in *. rewrite Hv in J. rewrite Hv'. intros r1 Hr1.
    rewrite Hrs, list_lookup_alter_eq, Hr in Hr1. inversion Hr1; subst r1.
    specialize (J r Hr). rewrite Hp, Hb. exact J.
  - symmetry in Hp.
    destruct Hsg as [(-> & _ & Hv & Hb)|(p & -> & Hb & Hcase)].
    + unfold label_synced in *. rewrite Hv, Hb.
      destruct (video_thread (self s)) as [w|] eqn:Hvt.
      * intros r Hr. rewrite Hrs in Hr. specialize (J r Hr).
        destruct (at_line r); try done;
          repeat match goal with
          | H : _ \/ _ |- _ => destruct H
          | H : _ /\ _ |- _ => destruct H
          end;
          match goal with
          | H : posted s = _ |- _ => rewrite H in Hp; inversion Hp; subst
          end; eauto.
      * destruct J as [Jp _]. rewrite Jp in Hp. done.
    + destruct Hcase as [[_ Hv]|[Hg' _]]; [|done].
      unfold label_synced in *. rewrite Hv, Hb.
      destruct (video_thread (self s)) as [w|] eqn:Hvt.
      * destruct (lookup_lt_is_Some_2 _ w (Href w eq_refl)) as [r Hr].
        specialize (J r Hr).
        destruct (at_line r); try done;
          repeat match goal with
          | H : _ \/ _ |- _ => destruct H
          | H : _ /\ _ |- _ => destruct H
          end;
          match goal with
          | H : posted s = _ |- _ => rewrite H in Hp; inversion Hp; subst
          end; eauto.
      * destruct J as [Jp _]. rewrite Jp in Hp. done.
  - destruct Hone as (P1 & _).
    pose proof (run_not_finished _ _ _ _ _ _ Hrun) as Hnf.
    pose proof (P1 w r Hr Hnf) as Hvt.
    destruct (run_emits w e _ r r' acts (posted s) Hrun) as [Hem _].
    rewrite Hem in Hp.
    unfold label_synced in *. rewrite Hself, Hvt. rewrite Hvt in J.
    specialize (J r Hr). intros r1 Hr1.
    rewrite Hrs, list_lookup_insert_eq in Hr1 by (by eapply lookup_lt_Some).
    inversion Hr1; subst r1. rewrite Hp. clear Hp Hem Hrs Hr1.
    unfold run in Hrun. destruct r as [o b tmp l].
    cbn [at_line out is_recording temp_file_name] in *.
    destruct l as [| | | | | |[f|]| | |]; try done;
      try (destruct o as [v|]; simpl in Hrun; [|done]);
      inversion Hrun; subst; cbn [at_line goto set_out temp_file_name];
      try (destruct b; cbn [at_line]);
      repeat match goal with
      | H : _ \/ _ |- _ => destruct H
      | H : _ /\ _ |- _ => destruct H
      end;
      match goal with
      | H : posted s = _ |- _ => rewrite H
      end; rewrite ?app_nil_r; simpl; eauto.
Qed.

Lemma patient_run_invariants l : forall s s',
  reachable s -> one_session s -> (gui s <> Aborted -> label_synced s) ->
  patient_run l s -> exec l s = Some s' ->
  reachable s' /\ one_session s' /\ (gui s' <> Aborted -> label_synced s').
Proof.
  induction l as [|[a e] l IH]; intros s s' Hreach Hone J Hpat Hexec.
  - simpl in Hexec. by inversion Hexec; subst.
  - rewrite exec_cons in Hexec. destruct Hpat as [Hclick Hrest].
    destruct (step a e s) as [s1|] eqn:Hstep; simpl in Hexec; [|done].
    assert (Hna : gui s <> Aborted).
    { intros G. unfold step in Hstep. rewrite G in Hstep. done. }
    apply (IH s1); [by eapply reach_step| | |by apply Hrest|done].
    + by eapply one_session_step.
    + intros Hna1. eapply label_synced_step; eauto.
Qed.

Lemma label_synced_boot dev_ok width height box now :
  label_synced (boot dev_ok width height box now).
Proof. by unfold label_synced. Qed.

(** In a state where no change of the flag waits to be notified, the text
    of the button tells whether the flag of the worker referred to is
    set. *)
Lemma label_synced_tracks s :
  reachable s -> label_synced s -> notified s -> label_tracks_flag s.
Proof.
  intros Hreach J [Hempty Hnot].
  destruct (reachable_reference s Hreach) as [Href _].
  pose proof (reachable_recorder_wf s Hreach) as Hwf.
  unfold label_synced in J. unfold label_tracks_flag.
  destruct (video_thread (self s)) as [w|] eqn:Hvt.
  - destruct (lookup_lt_is_Some_2 _ w (Href w eq_refl)) as [r Hr].
    specialize (J r Hr). specialize (Hwf w r Hr).
    destruct (Hnot w r eq_refl Hr) as [H25 Hclear].
    unfold recorder_wf in Hwf.
    split.
    + intros Hb. exists w, r. split_and!; try done.
      destruct (is_recording r) eqn:Hf; [done|].
      destruct (Hclear eq_refl) as [Hl|Hl]; rewrite Hl in J;
        destruct J as [_ Jb]; rewrite Jb in Hb; done.
    + intros (w' & r' & Hw' & Hr' & Hf). inversion Hw'; subst w'.
      rewrite Hr in Hr'. inversion Hr'; subst r'.
      destruct (at_line r) eqn:Hl; try done;
        repeat match goal with
        | H : _ \/ _ |- _ => destruct H
        | H : _ /\ _ |- _ => destruct H
        end; try congruence.
  - destruct J as [_ Jb]. split.
    + intros Hb. rewrite Jb in Hb. done.
    + intros (w' & r' & Hw' & _). done.
Qed.

(** ** Cooperative stop *)

(** A [stop()] that arrives while the worker is reading or holds a frame
    changes nothing of the line being executed. *)
Lemma run_in_loop_ignores_stop w e c r :
  at_line r = L28 \/ (exists ret, at_line r = L29 ret) ->
  run w e c (stop r) = (fun '(r', a) => (stop r', a)) <$> run w e c r.
Proof.
  intros [H | [ret H]]; unfold run; simpl; rewrite H.
  - done.
  - destruct ret; [|done]. destruct (out r); done.
Qed.

(** A worker in the loop whose flag is cleared leaves through lines 32-33,
    after finishing the iteration it is in. *)
Lemma stopped_worker_exits (s : World) (w : nat) (r : VideoRecorder)
    (v : VideoWriter) (es : nat -> Env) :
  gui s <> Aborted ->
  recorders s !! w = Some r ->
  out r = Some v ->
  is_recording r = false ->
  in_loop (at_line r) ->
  let fl := in_flight (cap (self s)) (es 0) (at_line r) in
  let v' := foldl vw_write v fl in
  exists s',
    exec (schedule w es (lines_to_exit (at_line r))) s = Some s' /\
    recorders s' !! w =
      Some {| out := Some (vw_release v'); is_recording := false;
              temp_file_name := temp_file_name r; at_line := Finished |} /\
    length fl <= 1 /\
    (forall w', w' <> w -> recorders s' !! w' = recorders s !! w') /\
    trace s' = trace s ++ pending_read w (cap (self s)) (es 0) (at_line r)
                 ++ map (EncoderWrite w) fl
                 ++ [EncoderRelease w v';
                     Emit w (recording_stopped (temp_file_name r))] /\
    posted s' = posted s ++ [recording_stopped (temp_file_name r)] /\
    fs s' = (if vw_opened v
             then <[vw_path v := VideoFile (vw_frames v')]> (fs s)
             else fs s) /\
    self s' = self s /\ gui s' = gui s.
Proof.
  intros Hg Hr Hout Hflag Hloop. cbv zeta.
  pose proof (exec_run_lines w (map es (seq 0 (lines_to_exit (at_line r)))) s r)
    as Hlines.
  destruct r as [o b tmp l]; simpl in *; subst o b.
  destruct l as [| | | | | |ret| | |]; try done; simpl in *;
    [ | destruct (cap_read (cap (self s)) (device (es 0))) as [f|]
      | destruct ret as [f|] ]; simpl in *;
    (edestruct Hlines as (s' & Hex & Hself & Hgui & _ & Hrs & Htr & Hpo & Hfs);
       [exact Hg | exact Hr | reflexivity | ]);
    simpl in Htr, Hpo, Hfs;
    exists s'; (split; [exact Hex|]); split_and!;
    try exact Htr; try exact Hpo; try exact Hfs; try exact Hself;
    try exact Hgui; try lia;
    try (rewrite Hrs; apply list_lookup_insert_eq; by eapply lookup_lt_Some);
    try (intros w' Hne; rewrite Hrs; by rewrite list_lookup_insert_ne).
Qed.

(** C4. Stopping is cooperative.  [stop()] only clears the flag: the line the
    worker stands at, a read in progress and a frame already read are left
    alone.  From any point of the loop the worker then finishes its
    iteration (writing the frame in flight, if the read succeeded, which
    the sink appends when it is open and the frame has its size), sees the
    cleared flag at line 27, closes the encoder sink, which puts the video
    file on disk, and only then emits [recording_stopped] with the
    temporary file name. *)
Theorem cooperative_stop (s : World) (w : nat) (r : VideoRecorder)
    (v : VideoWriter) (es : nat -> Env) :
  gui s <> Aborted ->
  recorders s !! w = Some r ->
  out r = Some v ->
  in_loop (at_line r) ->
  let s0 := stop_call w s in
  let fl := in_flight (cap (self s)) (es 0) (at_line r) in
  let v' := foldl vw_write v fl in
  (recorders s0 !! w = Some (stop r) /\ at_line (stop r) = at_line r /\
   out (stop r) = out r /\
   (at_line r <> L27 ->
    forall e c, run w e c (stop r) = (fun '(r', a) => (stop r', a)) <$> run w e c r)) /\
  exists s' r',
    exec (schedule w es (lines_to_exit (at_line r))) s0 = Some s' /\
    recorders s' !! w = Some r' /\
    r' = {| out := Some (vw_release v'); is_recording := false;
            temp_file_name := temp_file_name r; at_line := Finished |} /\
    sink_closed r' = true /\
    sink_frames r' = vw_frames v ++ filter (fun f => vw_accepts v f = true) fl /\
    (vw_opened v = true -> Forall (fun f => frame_size f = vw_size v) fl ->
     sink_frames r' = vw_frames v ++ fl) /\
    length fl <= 1 /\
    (forall w', w' <> w -> recorders s' !! w' = recorders s !! w') /\
    trace s' = trace s ++ [StopCall w]
                 ++ pending_read w (cap (self s)) (es 0) (at_line r)
                 ++ map (EncoderWrite w) fl
                 ++ [EncoderRelease w v';
                     Emit w (recording_stopped (temp_file_name r))] /\
    posted s' = posted s ++ [recording_stopped (temp_file_name r)] /\
    fs s' = (if vw_opened v
             then <[vw_path v := VideoFile (sink_frames r')]> (fs s)
             else fs s).
Proof.
  intros Hg Hr Hout Hloop s0 fl v'.
  assert (Hr0 : recorders s0 !! w = Some (stop r)).
  { unfold s0, stop_call; simpl. rewrite list_lookup_alter_eq, Hr. done. }
  split.
  { repeat split; try done. intros Hne e c.
    apply run_in_loop_ignores_stop.
    destruct (at_line r); try done; eauto. }
  destruct (stopped_worker_exits s0 w (stop r) v es) as
    (s' & Hex & Hw & Hlen & Hoth & Htr & Hpo & Hfs & _); try done.
  destruct (foldl_vw_write v fl) as (_ & _ & _ & _ & Hfr).
  eexists s', _. split; [exact Hex|]. split; [exact Hw|].
  split; [reflexivity|]. split; [reflexivity|].
  split; [exact Hfr|].
  split.
  { intros Hop Hall.
    transitivity (vw_frames v ++ filter (fun f => vw_accepts v f = true) fl);
      [exact Hfr|].
    f_equal. rewrite filter_accepts_opened by done.
    clear -Hall. induction Hall as [|f fl0 Hf _ IH]; [done|].
    rewrite filter_cons, decide_True by done. by rewrite IH. }
  split; [exact Hlen|].
  split_and!.
  - intros w' Hne. rewrite (Hoth w' Hne). unfold s0, stop_call; simpl.
    by rewrite list_lookup_alter_ne.
  - rewrite Htr. unfold s0, stop_call; simpl. by rewrite <- !app_assoc.
  - exact Hpo.
  - exact Hfs.
Qed.

(** C4, on a concrete run: the worker holds a frame when [stop()] is
    called. *)
Lemma cooperative_stop_witness :
  gui Demo.frame_in_flight <> Aborted /\
  recorders Demo.frame_in_flight !! 0
    = Some {| out := Some Demo.sink0; is_recording := true;
              temp_file_name := "Recorder_20240517_090342.avi";
              at_line := L29 (Some Demo.frame) |} /\
  exists s' r',
    exec (schedule 0 (fun _ => Demo.env) 4) (stop_call 0 Demo.frame_in_flight)
      = Some s' /\
    recorders s' !! 0 = Some r' /\
    at_line r' = Finished /\
    sink_closed r' = true /\
    sink_frames r' = [Demo.frame] /\
    fs s' !! "Recorder_20240517_090342.avi" = Some (VideoFile [Demo.frame]).
Proof.
  assert (Hg : gui Demo.frame_in_flight <> Aborted) by (vm_compute; discriminate).
  assert (Hr : recorders Demo.frame_in_flight !! 0
               = Some {| out := Some Demo.sink0; is_recording := true;
                         temp_file_name := "Recorder_20240517_090342.avi";
                         at_line := L29 (Some Demo.frame) |})
    by (vm_compute; reflexivity).
  split; [exact Hg|]. split; [exact Hr|].
  destruct (cooperative_stop Demo.frame_in_flight 0 _ Demo.sink0
              (fun _ => Demo.env) Hg Hr eq_refl I)
    as (_ & s' & r' & Hex & Hw & Hr' & Hc & Hfr & _ & _ & _ & _ & _ & Hfs).
  exists s', r'. split; [exact Hex|]. split; [exact Hw|].
  split; [by rewrite Hr'|]. split; [exact Hc|]. split; [exact Hfr|].
  rewrite Hfs, Hfr. reflexivity.
Defined.
(** ** Failed reads *)

Lemma failed_iteration s w r e :
  gui s <> Aborted ->
  recorders s !! w = Some r ->
  at_line r = L27 -> is_recording r = true ->
  cap_read (cap (self s)) (device e) = None ->
  exists s',
    exec (iterations w [e]) s = Some s' /\
    self s' = self s /\ gui s' = gui s /\ wall s' = wall s /\
    recorders s' = recorders s /\ posted s' = posted s /\ fs s' = fs s /\
    trace s' = trace s ++ [CapRead (Some w) false].
Proof.
  intros Hg Hr Hl Hf Hread.
  destruct (exec_run_lines w [e; e; e] s r r [CapRead (Some w) false])
    as (s' & Hex & Hself & Hgui & Hwall & Hrs & Htr & Hpo & Hfs); try done.
  { destruct r as [o b tmp l]; simpl in *; subst l b.
    unfold run; simpl. rewrite Hread. reflexivity. }
  exists s'. split_and!; try done.
  rewrite Hrs. by apply list_insert_id.
Qed.

Lemma failed_iterations s w r el :
  gui s <> Aborted ->
  recorders s !! w = Some r ->
  at_line r = L27 -> is_recording r = true ->
  Forall (fun e => cap_read (cap (self s)) (device e) = None) el ->
  exists s',
    exec (iterations w el) s = Some s' /\
    self s' = self s /\ gui s' = gui s /\ wall s' = wall s /\
    recorders s' = recorders s /\ posted s' = posted s /\ fs s' = fs s /\
    trace s' = trace s ++ replicate (length el) (CapRead (Some w) false).
Proof.
  intros Hg Hr Hl Hf Hall. revert s Hg Hr Hall.
  induction el as [|e el IH]; intros s Hg Hr Hall.
  - exists s. simpl. rewrite app_nil_r. done.
  - inversion Hall as [|? ? He Hel]; subst.
    destruct (failed_iteration s w r e) as
      (s1 & Hex & Hself & Hgui & Hwall & Hrs & Hpo & Hfs & Htr); try done.
    destruct (IH s1) as
      (s2 & Hex2 & Hself2 & Hgui2 & Hwall2 & Hrs2 & Hpo2 & Hfs2 & Htr2).
    + by rewrite Hgui.
    + by rewrite Hrs.
    + by rewrite Hself.
    + exists s2. split.
      { change (iterations w (e :: el))
          with (iterations w [e] ++ iterations w el).
        rewrite exec_app, Hex. exact Hex2. }
      repeat split; try congruence.
      rewrite Htr2, Htr. simpl. by rewrite <- app_assoc.
Qed.

(** The preview tick on a failed read: only the read itself happened. *)
Lemma update_frame_failed e s :
  cap_read (cap (self s)) (device e) = None ->
  update_frame e s = perform (CapRead None false) s.
Proof. intros H. unfold update_frame. by rewrite H. Qed.

(** C6. A failed frame read is skipped by every caller.  Any number of
    consecutive failed reads leaves an Active worker exactly as it was (flag
    set, same line, nothing appended, nothing posted, no file touched); a
    following stop request still runs the worker through lines 32-33 and the
    blocked GUI thread resumes.  The preview tick changes nothing on a failed
    read and the next tick reads again. *)
Theorem failed_reads_are_skipped (s : World) (w : nat) (r : VideoRecorder)
    (v : VideoWriter) (el : list Env) (e : Env) :
  gui s = EventLoop ->
  video_thread (self s) = Some w ->
  recorders s !! w = Some r ->
  at_line r = L27 -> is_recording r = true -> out r = Some v ->
  Forall (fun e => cap_read (cap (self s)) (device e) = None) el ->
  (exists s1,
     exec (iterations w el) s = Some s1 /\
     recorders s1 = recorders s /\ self s1 = self s /\
     fs s1 = fs s /\ posted s1 = posted s /\
     trace s1 = trace s ++ replicate (length el) (CapRead (Some w) false) /\
     exists s2,
       exec ((VideoClicked, e) :: schedule w (fun _ => e) 3
               ++ [(GuiContinue, e)]) s1 = Some s2 /\
       gui s2 = EventLoop /\
       recorders s2 !! w =
         Some {| out := Some (vw_release v); is_recording := false;
                 temp_file_name := temp_file_name r; at_line := Finished |} /\
       posted s2 = posted s ++ [recording_stopped (temp_file_name r)]) /\
  (forall s0 e0,
     gui s0 = EventLoop ->
     cap_read (cap (self s0)) (device e0) = None ->
     exists s',
       step TimerTimeout e0 s0 = Some s' /\
       self s' = self s0 /\ gui s' = EventLoop /\
       recorders s' = recorders s0 /\ posted s' = posted s0 /\
       fs s' = fs s0 /\ trace s' = trace s0 ++ [CapRead None false] /\
       forall e1,
         step TimerTimeout e1 s' = Some (update_frame e1 s') /\
         (is_Some (cap_read (cap (self s')) (device e1)) ->
          is_Some (picture_box (self (update_frame e1 s'))))).
Proof.
  intros Hg Hvt Hr Hl Hf Hout Hall. split.
  - destruct (failed_iterations s w r el) as
      (s1 & Hex & Hself & Hgui & Hwall & Hrs & Hpo & Hfs & Htr); try done.
    { by rewrite Hg. }
    exists s1. repeat split; try done.
    (* the stop request *)
    set (s1' := with_gui (Waiting w false) (stop_call w s1)).
    assert (Hclick : step VideoClicked e s1 = Some s1').
    { unfold step, toggle_video_recording, stop_video_recording.
      rewrite Hgui, Hg, Hself, Hvt, Hrs, Hr. simpl. by rewrite Hf. }
    assert (Hr1 : recorders s1' !! w = Some (stop r)).
    { unfold s1', stop_call; simpl. by rewrite list_lookup_alter_eq, Hrs, Hr. }
    destruct (stopped_worker_exits s1' w (stop r) v (fun _ => e)) as
      (s2 & Hex2 & Hw2 & _ & _ & Htr2 & Hpo2 & _); try done.
    { simpl. by rewrite Hl. }
    assert (Hg2 : gui s2 = Waiting w false).
    { by destruct (exec_workers_frame _ _ _ _ Hex2) as (_ & -> & _). }
    change (at_line (stop r)) with (at_line r) in Hex2, Hw2.
    rewrite Hl in Hex2, Hw2.
    change (lines_to_exit L27) with 3 in Hex2. simpl in Hw2, Hpo2.
    exists (with_gui EventLoop (perform (WaitReturned w) s2)).
    split.
    { rewrite exec_cons, Hclick.
      change (exec (schedule w (fun _ => e) 3 ++ [(GuiContinue, e)]) s1' =
              Some (with_gui EventLoop (perform (WaitReturned w) s2))).
      rewrite exec_app, Hex2. simpl.
      unfold step, wait_returns. rewrite Hg2, Hw2. done. }
    repeat split; try done. simpl.
    rewrite Hpo2. unfold s1', stop_call; simpl. by rewrite Hpo.
  - intros s0 e0 Hg0 Hread. exists (update_frame e0 s0).
    rewrite (update_frame_failed _ _ Hread). simpl.
    split; [by unfold step; rewrite Hg0, update_frame_failed|].
    repeat split; try done.
    + unfold step; simpl. by rewrite Hg0.
    + intros [f Hf']. unfold update_frame. simpl in *. rewrite Hf'.
      simpl. destruct (picture_box_size (self s0)). simpl. eauto.
Qed.

(** C6, on a concrete run. *)
Lemma failed_reads_are_skipped_witness :
  gui Demo.recording = EventLoop /\
  Forall (fun e => cap_read (cap (self Demo.recording)) (device e) = None)
         [Demo.env_no_frame; Demo.env_no_frame] /\
  exists s1,
    exec (iterations 0 [Demo.env_no_frame; Demo.env_no_frame]) Demo.recording
      = Some s1 /\
    recorders s1 = recorders Demo.recording.
Proof.
  assert (Hall : Forall (fun e => cap_read (cap (self Demo.recording)) (device e) = None)
                   [Demo.env_no_frame; Demo.env_no_frame])
    by (repeat constructor).
  split; [vm_compute; reflexivity|]. split; [exact Hall|].
  destruct (failed_reads_are_skipped Demo.recording 0 Demo.recorder0 Demo.sink0
              [Demo.env_no_frame; Demo.env_no_frame] Demo.env
              eq_refl eq_refl eq_refl eq_refl eq_refl eq_refl Hall)
    as ((s1 & Hex & Hrs & _) & _).
  exists s1. split; [exact Hex | exact Hrs].
Defined.
(** ** Capturing a photo *)

(** The calls of [save_image], in order. *)
Lemma save_image_trace (e : Env) (s : World) :
  trace (save_image e s) = trace s ++
    match cap_read (cap (self s)) (device e) with
    | Some frame =>
        [CapRead None true;
         DirectoryPrompt "Select Directory" (chosen_dir e)] ++
        (if Text.truthy (chosen_dir e)
         then [ImWrite (inside (chosen_dir e) (capture_name (wall_next e)))
                 frame (imwrite_ok e)]
         else [])
    | None => [CapRead None false]
    end.
Proof.
  unfold save_image, getExistingDirectory.
  destruct (cap_read (cap (self s)) (device e)) as [frame|]; simpl; [|done].
  destruct (Text.truthy (chosen_dir e)) eqn:Hd; simpl.
  - fold (capture_name (wall_next e)).
    rewrite path_join_relative by done. by rewrite <- !app_assoc.
  - by rewrite <- !app_assoc.
Qed.

(** C5, as stated, fails when [cv.imwrite] fails: it returns [False], which
    line 96 ignores, and no file is written. *)
Lemma failed_write_leaves_no_photo : ~ photo_always_written.
Proof.
  intros H.
  destruct (H Demo.env_imwrite_fails Demo.fresh Demo.frame eq_refl eq_refl)
    as [stamp Hstamp].
  assert (Hfs : fs (save_image Demo.env_imwrite_fails Demo.fresh) = ∅)
    by reflexivity.
  rewrite Hfs in Hstamp. by rewrite lookup_empty in Hstamp.
Qed.

(** C5 (amended). [save_image] reads one frame.  When the read succeeds and
    the prompt returns a directory, [cv.imwrite] is called exactly once,
    with the frame just read and the path [capture_<stamp>.jpg] inside that
    directory, where the stamp is the wall clock when the prompt returned,
    of the shape YYYYMMDD_HHMMSS for a calendar date.  The image is on disk
    afterwards when that write succeeds; when it fails no file is written
    and nothing else happens.  When the prompt is canceled nothing is
    written.  When the read fails there is neither a prompt nor a write.
    The controller, the workers and the signal queue are untouched in all
    cases. *)
Theorem capture_photo (e : Env) (s : World) :
  let s' := save_image e s in
  (gui s = EventLoop -> step PhotoClicked e s = Some s') /\
  self s' = self s /\ recorders s' = recorders s /\
  posted s' = posted s /\ gui s' = gui s /\
  exists tl,
    trace s' = trace s ++ tl /\
    match cap_read (cap (self s)) (device e) with
    | Some frame =>
        length (directory_prompts tl) = 1 /\
        if Text.truthy (chosen_dir e) then
          exists stamp,
            let path := inside (chosen_dir e) ("capture_" +:+ stamp +:+ ".jpg") in
            stamp = strftime_stamp (wall s') /\
            wall s' = wall_next e /\
            (calendar_range (wall_next e) -> stamp_shape stamp) /\
            tl = [CapRead None true;
                  DirectoryPrompt "Select Directory" (chosen_dir e);
                  ImWrite path frame (imwrite_ok e)] /\
            image_writes tl = [(path, frame)] /\
            fs s' = (if imwrite_ok e then <[path := ImageFile frame]> (fs s)
                     else fs s)
        else
          tl = [CapRead None true;
                DirectoryPrompt "Select Directory" (chosen_dir e)] /\
          image_writes tl = [] /\ fs s' = fs s
    | None =>
        tl = [CapRead None false] /\
        directory_prompts tl = [] /\ image_writes tl = [] /\ fs s' = fs s
    end.
Proof.
  intros s'. split.
  { intros Hg. unfold step. by rewrite Hg. }
  destruct (save_image_cases e s) as (H1 & H2 & H3 & H4 & tl & Htl & Hcase).
  pose proof (save_image_trace e s) as Htr. fold s' in Htr, Htl.
  rewrite Htl in Htr. apply app_inv_head in Htr.
  repeat split; try done. exists tl. split; [done|].
  destruct (cap_read (cap (self s)) (device e)) as [frame|]; [|by split].
  destruct Hcase as (Hw & Hp & Hcase). split; [done|].
  destruct (Text.truthy (chosen_dir e)); [|by split].
  exists (strftime_stamp (wall_next e)). fold s' in Hw. rewrite Hw.
  split; [done|]. split; [done|].
  split; [by apply strftime_stamp_shape|].
  split; [exact Htr|]. exact Hcase.
Qed.

(** C5 (amended), on a concrete run: a photo taken right after start-up. *)
Lemma capture_photo_witness :
  step PhotoClicked Demo.env Demo.fresh = Some (save_image Demo.env Demo.fresh) /\
  trace (save_image Demo.env Demo.fresh)
    = [CapRead None true; DirectoryPrompt "Select Directory" "/tmp/out";
       ImWrite "/tmp/out/capture_20240517_090350.jpg" Demo.frame true] /\
  fs (save_image Demo.env Demo.fresh)
    = {["/tmp/out/capture_20240517_090350.jpg" := ImageFile Demo.frame]} /\
  fs (save_image Demo.env_imwrite_fails Demo.fresh) = ∅.
Proof.
  split; [exact (proj1 (capture_photo Demo.env Demo.fresh) eq_refl)|].
  split; [vm_compute; reflexivity|].
  split; vm_compute; reflexivity.
Defined.
(** ** The races around a worker that has not yet set its flag *)

(** The guard of [toggle_video_recording], as far as it goes: with a
    reference to a worker whose flag is set, a click stops and creates
    nothing. *)
Lemma toggle_guards_active_reference s w r :
  video_thread (self s) = Some w ->
  recorders s !! w = Some r -> is_recording r = true ->
  toggle_video_recording s = Some (stop_video_recording s) /\
  length (recorders (stop_video_recording s)) = length (recorders s).
Proof.
  intros Hv Hr Hf. unfold toggle_video_recording, stop_video_recording.
  rewrite Hv, Hr. simpl. rewrite Hf. simpl. split; [done|].
  by rewrite length_alter.
Qed.

(** C1. Two clicks on the record button before the first worker has reached
    line 24: the second click finds a reference whose flag is still unset
    and starts a second worker.  Both workers then record at once, and the
    controller only refers to the second. *)
Theorem double_click_two_sessions :
  (exists s1 r,
     step VideoClicked Demo.env Demo.fresh = Some s1 /\
     video_thread (self s1) = Some 0 /\
     recorders s1 = [r] /\ is_recording r = false /\ at_line r = L21 /\
     toggle_video_recording s1 = Some (start_video_recording s1)) /\
  exists s r0 r1,
    exec Demo.double_click Demo.fresh = Some s /\
    reachable s /\
    recorders s = [r0; r1] /\
    video_thread (self s) = Some 1 /\
    session_active r0 = true /\ session_active r1 = true /\
    sink_closed r0 = false /\ sink_closed r1 = false /\
    live_sessions s = 2 /\ active_sessions s = 2.
Proof.
  split.
  - eexists _, _. split; [vm_compute; reflexivity|].
    vm_compute. repeat split; reflexivity.
  - destruct (exec Demo.double_click Demo.fresh) as [s|] eqn:E;
      [|by vm_compute in E].
    assert (Hreach : reachable s).
    { eapply reachable_exec; [|exact E]. apply reach_boot. }
    vm_compute in E. inversion E as [Es]. clear E.
    eexists _, _, _. split; [reflexivity|]. split; [by rewrite Es|].
    vm_compute. repeat split; reflexivity.
Qed.
(** ** Shutdown *)

Lemma run_flag_pending w e c r r' acts :
  flag_pending r -> run w e c r = Some (r', acts) -> flag_pending r'.
Proof.
  unfold flag_pending, run, sink_closed. destruct r as [o b tmp l]; simpl.
  destruct l as [| | | | | |[f|]| | |]; simpl; intros [Hs H] E; try done;
    try (destruct o as [v|]; simpl in E; [|done]);
    inversion E; subst; simpl; done.
Qed.

(** A GUI thread blocked in [wait()] on a worker that is still to set its
    flag, or loops with the flag set, stays blocked whatever is scheduled. *)
Lemma lost_stop_blocks_forever w c l :
  forall s s',
    gui s = Waiting w c ->
    (exists r, recorders s !! w = Some r /\ flag_pending r) ->
    exec l s = Some s' ->
    gui s' = Waiting w c /\
    exists r', recorders s' !! w = Some r' /\ flag_pending r'.
Proof.
  induction l as [|[a e] l IH]; intros s s' Hg (r & Hr & Hp) Hex.
  - inversion Hex; subst. eauto.
  - rewrite exec_cons in Hex.
    destruct (step a e s) as [s1|] eqn:E; simpl in Hex; [|done].
    apply (IH s1 s'); [| |exact Hex].
    + destruct a; try (unfold step in E; rewrite Hg in E; done).
      * unfold step, wait_returns in E. rewrite Hg, Hr in E. simpl in E.
        destruct Hp as [_ Hp]. destruct (at_line r); done.
      * apply step_worker_frame in E as (_ & -> & _). done.
      * unfold step in E. rewrite Hg in E. by inversion E.
    + destruct a; try (unfold step in E; rewrite Hg in E; done).
      * unfold step, wait_returns in E. rewrite Hg, Hr in E. simpl in E.
        destruct Hp as [_ Hp]. destruct (at_line r); done.
      * apply step_worker_inv in E as (r0 & r0' & acts & Hr0 & Hrun & ->).
        rewrite perform_all_recorders. simpl.
        destruct (decide (w0 = w)) as [->|Hne].
        -- rewrite Hr in Hr0. inversion Hr0; subst r0.
           exists r0'. split; [|by eapply run_flag_pending].
           apply list_lookup_insert_eq. by eapply lookup_lt_Some.
        -- exists r. by rewrite list_lookup_insert_ne.
      * unfold step in E. rewrite Hg in E. inversion E; subst. simpl. eauto.
Qed.

(** C3. [closeEvent] releases the capture handle once, and stops and joins
    the worker the controller refers to.  Two runs where that is not enough.
    (1) After a double click the first worker is orphaned: [closeEvent]
    returns with that worker still recording, never signaled, its sink open.
    (2) A close request before the worker has executed line 24: [stop()]
    clears a flag that is not yet set, the worker sets it afterwards and
    loops on the released handle; [wait()] never returns and the sink is
    never closed. *)
Theorem shutdown_leaves_recording_behind :
  (exists s r0 r1,
     exec Demo.close_with_orphan Demo.fresh = Some s /\
     gui s = Closed /\ cap_releases (cap (self s)) = 1 /\
     recorders s = [r0; r1] /\
     at_line r1 = Finished /\ sink_closed r1 = true /\
     session_active r0 = true /\ sink_closed r0 = false /\
     stop_calls (trace s) = [1]) /\
  (exists s,
     exec Demo.close_before_flag Demo.fresh = Some s /\
     gui s = Waiting 0 true /\ cap_releases (cap (self s)) = 1 /\
     stop_calls (trace s) = [0] /\
     forall l s', exec l s = Some s' ->
       gui s' = Waiting 0 true /\
       exists r, recorders s' !! 0 = Some r /\
                 at_line r <> Finished /\ sink_closed r = false).
Proof.
  split.
  - eexists _, _, _. split; [vm_compute; reflexivity|].
    vm_compute. repeat split; reflexivity.
  - eexists. split; [vm_compute; reflexivity|].
    split; [reflexivity|]. split; [reflexivity|]. split; [reflexivity|].
    intros l s' Hex.
    eapply lost_stop_blocks_forever in Hex as (Hg & r & Hr & Hs & Hp).
    + split; [exact Hg|]. exists r. repeat split; try done.
      intros Hfin. rewrite Hfin in Hp. done.
    + reflexivity.
    + eexists. split; [reflexivity|]. vm_compute. done.
Qed.
(** ** After a recording has stopped *)

(** C7, as stated, fails when the move fails: the exception leaves the slot
    before line 130. *)
Lemma relocation_failure_keeps_reference : ~ reference_always_cleared.
Proof.
  intros H.
  specialize (H "Recorder_20240517_090342.avi" Demo.env_rename_fails
                (with_posted [] (Demo.after Demo.stop_one))).
  vm_compute in H. discriminate H.
Qed.

(** C7 (amended). [on_recording_stopped] sets the record text, prompts for
    a directory and returns with the worker reference cleared when the
    prompt is canceled or the move succeeds.  On cancel the file system is
    left as it was, so the temporary file stays where the encoder wrote it.
    On a successful move the file is found under the same name inside the
    chosen directory.  When [os.rename] raises, the slot is left at line 125
    with the reference and the file system unchanged. *)
Theorem on_recording_stopped_reference (path : string) (e : Env) (s : World) :
  let confirmed := Text.truthy (chosen_dir e) in
  let movable := rename_ok e && is_some (fs s !! path) in
  match on_recording_stopped path e s with
  | Returned s' =>
      (confirmed = false \/ movable = true) /\
      video_thread (self s') = None /\
      video_btn (self s') = "Record Video" /\
      (confirmed = false -> fs s' = fs s) /\
      (confirmed = true -> Text.starts_with_sep path = false ->
       fs s' !! inside (chosen_dir e) path = fs s !! path)
  | Raised s' =>
      confirmed = true /\ movable = false /\
      video_thread (self s') = video_thread (self s) /\
      video_btn (self s') = "Record Video" /\
      fs s' = fs s
  end.
Proof.
  unfold on_recording_stopped, getExistingDirectory, os_rename. simpl.
  destruct (Text.truthy (chosen_dir e)) eqn:Hd; simpl.
  - destruct (rename_ok e); simpl.
    + destruct (fs s !! path) as [x|] eqn:Hx; simpl.
      * repeat split; try done; [by right|]. intros _ Hrel.
        rewrite Hx. rewrite path_join_relative by done.
        apply lookup_insert_eq.
      * done.
    + done.
  - repeat split; try done. by left.
Qed.
(** ** Names and encoder parameters *)

(** C9, as stated, fails for the still image: the clock is read at line 94,
    after the directory prompt has returned, not when the photo button is
    pressed. *)
Lemma photo_stamp_is_read_after_prompt : ~ photo_stamped_at_click.
Proof.
  intros H.
  specialize (H Demo.env Demo.fresh Demo.frame eq_refl eq_refl).
  vm_compute in H. discriminate H.
Qed.

Lemma run_keeps_temp_file_name w e c r r' acts :
  run w e c r = Some (r', acts) -> temp_file_name r' = temp_file_name r.
Proof.
  unfold run. destruct r as [o b tmp l]; simpl.
  destruct l as [| | | | | |[f|]| | |]; simpl; intros E; try done;
    try (destruct o as [v|]; simpl in E; [|done]);
    inversion E; subst; simpl; done.
Qed.

(** C9 (amended). A still image is written as [capture_<stamp>.jpg] with
    the stamp of the wall clock when the directory prompt returned.  A
    recorder takes [Recorder_<stamp>.avi] from the wall clock when the
    controller creates it, keeps that name on every line of [run], opens the
    encoder on it with the XVID code, 30 frames per second and the width and
    height the capture handle reports at line 21-22, and a confirmed move
    keeps the name inside the chosen directory.  For a calendar date the
    stamp has the shape YYYYMMDD_HHMMSS. *)
Theorem output_naming :
  (forall e s frame,
     cap_read (cap (self s)) (device e) = Some frame ->
     Text.truthy (chosen_dir e) = true ->
     exists tl,
       trace (save_image e s) = trace s ++ tl /\
       image_writes tl =
         [(inside (chosen_dir e) (capture_name (wall_next e)), frame)]) /\
  (forall s,
     let s' := start_video_recording s in
     let w := length (recorders s) in
     video_thread (self s') = Some w /\
     exists r, recorders s' !! w = Some r /\
               temp_file_name r = recorder_name (wall s) /\
               at_line r = L21) /\
  (forall w e c r r' acts,
     run w e c r = Some (r', acts) ->
     temp_file_name r' = temp_file_name r /\
     (at_line r = L33 ->
      acts = [Emit w (recording_stopped (temp_file_name r))]) /\
     (at_line r = L21 ->
      exists v,
        out r' = Some v /\ acts = [EncoderOpen w v] /\
        vw_path v = temp_file_name r /\
        vw_fourcc v = VideoWriter_fourcc "X" "V" "I" "D" /\
        vw_fourcc v = 1145656920%N /\
        vw_fps v = 30 /\
        vw_size v = (cap_get_width c, cap_get_height c))) /\
  (forall t e s s',
     on_recording_stopped (recorder_name t) e s = Returned s' ->
     Text.truthy (chosen_dir e) = true ->
     is_Some (fs s !! recorder_name t) /\
     fs s' !! inside (chosen_dir e) (recorder_name t) = fs s !! recorder_name t) /\
  (forall t, calendar_range t ->
     stamp_shape (strftime_stamp t) /\
     String.length (capture_name t) = 27 /\
     String.length (recorder_name t) = 28).
Proof.
  split_and!.
  - intros e s frame Hread Hdir.
    destruct (save_image_cases e s) as (_ & _ & _ & _ & tl & Htl & Hcase).
    rewrite Hread, Hdir in Hcase. destruct Hcase as (_ & _ & Hw & _).
    exists tl. done.
  - intros s s' w. split; [reflexivity|].
    exists (start (VideoRecorder_init (wall s))).
    split; [|done].
    unfold s', start_video_recording; simpl.
    rewrite list_lookup_alter_eq.
    rewrite lookup_app_r by done. by rewrite Nat.sub_diag.
  - intros w e c r r' acts Hrun.
    split; [by eapply run_keeps_temp_file_name|].
    split; intros Hl; unfold run in Hrun; rewrite Hl in Hrun;
      inversion Hrun; subst; [done|].
    eexists. simpl. repeat split; reflexivity.
  - intros t e s s' Hret Hdir.
    unfold on_recording_stopped, getExistingDirectory, os_rename in Hret.
    simpl in Hret. rewrite Hdir in Hret.
    destruct (rename_ok e); simpl in Hret; [|done].
    destruct (fs s !! recorder_name t) as [x|] eqn:Hx; simpl in Hret; [|done].
    inversion Hret; subst; simpl. split; [by eexists|]. rewrite Hx.
    rewrite path_join_relative by done. apply lookup_insert_eq.
  - intros t Ht. pose proof (strftime_stamp_shape t Ht) as Hshape.
    split; [done|].
    destruct Hshape as (y & m & d & h & mi & sec & E & Hy & Hm & Hd & Hh & Hmi & Hs).
    unfold capture_name, recorder_name. rewrite E.
    rewrite !length_append.
    destruct Hy as [-> _], Hm as [-> _], Hd as [-> _], Hh as [-> _],
      Hmi as [-> _], Hs as [-> _]. done.
Qed.
(** ** An encoder that does not open *)

Lemma run_unopened w e c r r' acts :
  unopened r -> run w e c r = Some (r', acts) -> unopened r'.
Proof.
  unfold unopened, run. destruct r as [o b tmp l]; simpl.
  intros (H1 & H2 & v & -> & Hop & Hfr).
  destruct b; destruct l as [| | | | | |[f|]| | |]; simpl; intros E; try done;
    inversion E; subst; simpl;
    (split_and!; [done | done |
       eexists; split_and!;
         [reflexivity | simpl; unfold vw_accepts; rewrite ?Hop; done ..]]).
Qed.

Lemma stop_unopened r : unopened r -> unopened (stop r).
Proof. intros (H1 & H2 & v & H3 & H4). split_and!; try done. by exists v. Qed.

Lemma exec_unopened l : forall s s' w r,
  exec l s = Some s' -> recorders s !! w = Some r -> unopened r ->
  exists r', recorders s' !! w = Some r' /\ unopened r'.
Proof.
  induction l as [|[a e] l IH]; intros s s' w r Hex Hr Hu.
  - inversion Hex; subst. eauto.
  - rewrite exec_cons in Hex.
    destruct (step a e s) as [s1|] eqn:E; simpl in Hex; [|done].
    destruct (step_recorder_cases a e s s1 w r E Hr)
      as [H|[[_ H]|(r' & acts & _ & Hrun & H)]].
    + by eapply IH.
    + eapply IH; [exact Hex|exact H|]. by apply stop_unopened.
    + eapply IH; [exact Hex|exact H|]. by eapply run_unopened.
Qed.

(** C2, as stated, fails: with an encoder that did not open the worker still
    sets its flag, [started] is posted and the button shows the stop text. *)
Lemma encoder_failure_still_goes_active :
  exists s r v,
    exec Demo.open_fails Demo.fresh = Some s /\
    recorders s = [r] /\ out r = Some v /\ vw_opened v = false /\
    ~ fails_fast s 0 /\
    exists s',
      exec [(WorkerLine 0, Demo.env); (WorkerLine 0, Demo.env);
            (Dispatch, Demo.env)] s = Some s' /\
      video_btn (self s') = "Stop Recording".
Proof.
  eexists _, _, _. split; [vm_compute; reflexivity|].
  split; [reflexivity|]. split; [reflexivity|]. split; [reflexivity|].
  split.
  - intros H.
    specialize (H [(WorkerLine 0, Demo.env)] _ _ eq_refl eq_refl).
    vm_compute in H. discriminate H.
  - eexists. split; [vm_compute; reflexivity|]. reflexivity.
Qed.

(** Stopping a worker that loops on a sink that did not open: click,
    lines 27-33, return from [wait()], then the dispatch of [stopped]. *)
Lemma unopened_stop_phase s e1 e2 w v tmp :
  gui s = EventLoop -> video_thread (self s) = Some w ->
  recorders s !! w = Some (mk_VideoRecorder (Some v) true tmp L27) ->
  vw_opened v = false -> posted s = [] ->
  exists s5 s6,
    exec ((VideoClicked, e1) :: schedule w (fun _ => e1) 3
            ++ [(GuiContinue, e1)]) s = Some s5 /\
    gui s5 = EventLoop /\ video_thread (self s5) = Some w /\
    recorders s5 !! w
      = Some (mk_VideoRecorder (Some (vw_release v)) false tmp Finished) /\
    posted s5 = [recording_stopped tmp] /\ fs s5 = fs s /\
    step Dispatch e2 s5 = Some s6 /\
    video_btn (self s6) = "Record Video" /\
    (Text.truthy (chosen_dir e2) = true -> fs s !! tmp = None ->
     gui s6 = Aborted /\ video_thread (self s6) = Some w /\ fs s6 = fs s) /\
    (Text.truthy (chosen_dir e2) = false ->
     gui s6 = EventLoop /\ video_thread (self s6) = None /\ fs s6 = fs s).
Proof.
  intros Hg Hv Hr Hop Hp.
  assert (Hclick : step VideoClicked e1 s = Some (stop_video_recording s)).
  { unfold step, toggle_video_recording. by rewrite Hg, Hv, Hr. }
  assert (Hs1 : gui (stop_video_recording s) = Waiting w false /\
                self (stop_video_recording s) = self s /\
                posted (stop_video_recording s) = [] /\
                fs (stop_video_recording s) = fs s /\
                recorders (stop_video_recording s) = alter stop w (recorders s)).
  { unfold stop_video_recording. rewrite Hv. simpl. by rewrite Hp. }
  destruct Hs1 as (Hg1 & Hself1 & Hp1 & Hfs1 & Hrs1).
  set (s1 := stop_video_recording s) in *. clearbody s1.
  assert (Hr1 : recorders s1 !! w = Some (mk_VideoRecorder (Some v) false tmp L27)).
  { by rewrite Hrs1, list_lookup_alter_eq, Hr. }
  assert (Hna : gui s1 <> Aborted) by (by rewrite Hg1).
  destruct (stopped_worker_exits s1 w _ v (fun _ => e1) Hna Hr1 eq_refl eq_refl I)
    as (s2 & Hex2 & Hr2 & _ & _ & _ & Hpo2 & Hfs2 & Hself2 & Hgui2).
  cbn [at_line temp_file_name lines_to_exit in_flight foldl] in Hex2, Hr2, Hpo2, Hfs2.
  rewrite Hp1 in Hpo2. rewrite Hop, Hfs1 in Hfs2.
  set (s3 := with_gui EventLoop (perform (WaitReturned w) s2)).
  assert (Hwait : step GuiContinue e1 s2 = Some s3).
  { unfold step, wait_returns. by rewrite Hgui2, Hg1, Hr2. }
  assert (Hg3 : gui s3 = EventLoop) by reflexivity.
  assert (Hp3 : posted s3 = [recording_stopped tmp]) by exact Hpo2.
  assert (Hfs3 : fs s3 = fs s) by exact Hfs2.
  assert (Hr3 : recorders s3 !! w
                = Some (mk_VideoRecorder (Some (vw_release v)) false tmp Finished))
    by exact Hr2.
  assert (Hv3 : video_thread (self s3) = Some w).
  { unfold s3; simpl. by rewrite Hself2, Hself1. }
  assert (Hex : exec ((VideoClicked, e1) :: schedule w (fun _ => e1) 3
                        ++ [(GuiContinue, e1)]) s = Some s3).
  { rewrite exec_cons, Hclick. cbn [mbind option_bind].
    rewrite exec_app, Hex2. cbn [mbind option_bind exec]. by rewrite Hwait. }
  clearbody s3.
  assert (Hd6 : exists s6,
            step Dispatch e2 s3 = Some s6 /\
            video_btn (self s6) = "Record Video" /\
            (Text.truthy (chosen_dir e2) = true -> fs s !! tmp = None ->
             gui s6 = Aborted /\ video_thread (self s6) = Some w /\
             fs s6 = fs s) /\
            (Text.truthy (chosen_dir e2) = false ->
             gui s6 = EventLoop /\ video_thread (self s6) = None /\
             fs s6 = fs s)).
  { unfold step, dispatch. rewrite Hg3, Hp3.
    unfold on_recording_stopped, getExistingDirectory, os_rename. simpl.
    rewrite Hfs3.
    destruct (Text.truthy (chosen_dir e2)) eqn:Hd;
      [destruct (rename_ok e2 && is_some (fs s !! tmp)) eqn:Hmov|];
      eexists; (split; [reflexivity|]); simpl; (split; [reflexivity|]).
    - split; [|done]. intros _ Hnone.
      rewrite Hnone, andb_false_r in Hmov. done.
    - split; [|done]. intros _ _. by rewrite Hv3, Hfs3.
    - split; [done|]. intros _. by rewrite Hg3, Hfs3. }
  destruct Hd6 as (s6 & Hd6 & Hb6 & Hrais & Hcanc).
  exists s3, s6. split_and!; done.
Qed.

(** C2 (amended). When the encoder sink does not open at line 23 nothing is
    checked and nothing is reported: no signal is posted and no file is
    created by that line.  Left to run, the worker sets its flag, emits
    [recording_started], whose dispatch puts the stop text on the button,
    and enters the loop, where it stays turn after turn: no line of [run]
    leaves the loop or clears the flag while the flag is set.  Every write
    to the sink that did not open is dropped, so no frame is ever appended,
    whatever is scheduled afterwards, and no file is created.  A click then
    stops the worker the usual way: it leaves through lines 32-33, posts
    [recording_stopped] with the temporary file name and [wait()] returns.
    When that signal is dispatched and a directory is confirmed, with no
    file of that name around, [os.rename] raises and the reference is
    kept; when the prompt is canceled the reference is cleared. *)
Theorem encoder_open_failure_is_not_detected (s : World) (w : nat)
    (r : VideoRecorder) (e : Env) (es : nat -> Env) :
  gui s <> Aborted ->
  recorders s !! w = Some r ->
  at_line r = L21 ->
  encoder_ok e = false ->
  exists s1 v,
    step (WorkerLine w) e s = Some s1 /\
    recorders s1 !! w = Some (goto L24 (set_out v r)) /\
    vw_opened v = false /\ vw_released v = false /\ vw_frames v = [] /\
    fs s1 = fs s /\ posted s1 = posted s /\
    (exists s3,
       exec (schedule w es 2) s1 = Some s3 /\
       recorders s3 !! w =
         Some {| out := Some v; is_recording := true;
                 temp_file_name := temp_file_name r; at_line := L27 |} /\
       posted s3 = posted s ++ [recording_started] /\
       fs s3 = fs s /\
       (forall el, exists s4,
          exec (iterations w el) s3 = Some s4 /\
          recorders s4 = recorders s3 /\ posted s4 = posted s3 /\
          fs s4 = fs s) /\
       (gui s = EventLoop -> video_thread (self s) = Some w ->
        posted s = [] ->
        forall e0 e1 e2, exists s4 s5 s6,
          step Dispatch e0 s3 = Some s4 /\
          video_btn (self s4) = "Stop Recording" /\
          recorders s4 = recorders s3 /\
          exec ((VideoClicked, e1) :: schedule w (fun _ => e1) 3
                  ++ [(GuiContinue, e1)]) s4 = Some s5 /\
          gui s5 = EventLoop /\
          recorders s5 !! w =
            Some {| out := Some (vw_release v); is_recording := false;
                    temp_file_name := temp_file_name r;
                    at_line := Finished |} /\
          posted s5 = [recording_stopped (temp_file_name r)] /\
          fs s5 = fs s /\
          step Dispatch e2 s5 = Some s6 /\
          video_btn (self s6) = "Record Video" /\
          (Text.truthy (chosen_dir e2) = true ->
           fs s !! temp_file_name r = None ->
           gui s6 = Aborted /\ video_thread (self s6) = Some w /\
           fs s6 = fs s) /\
          (Text.truthy (chosen_dir e2) = false ->
           gui s6 = EventLoop /\ video_thread (self s6) = None /\
           fs s6 = fs s))) /\
    (forall e' c r2 r2' acts,
       run w e' c r2 = Some (r2', acts) ->
       is_recording r2 = true -> in_loop (at_line r2) ->
       is_recording r2' = true /\ in_loop (at_line r2')) /\
    (forall l s', exec l s1 = Some s' ->
       exists r', recorders s' !! w = Some r' /\ sink_frames r' = []).
Proof.
  intros Hg Hr Hl Hok.
  set (v := VideoWriter_new (temp_file_name r)
              (VideoWriter_fourcc "X" "V" "I" "D") 30
              (cap_get_width (cap (self s)), cap_get_height (cap (self s)))
              false).
  destruct (worker_line_step w e s r (goto L24 (set_out v r)) [EncoderOpen w v])
    as (s1 & Hstep & Hself & Hgui & _ & _ & Hr1 & _ & Hpo & Hfs); try done.
  { unfold run. by rewrite Hl, Hok. }
  simpl in Hpo, Hfs.
  exists s1, v. split_and!; try done.
  - set (r3 := {| out := Some v; is_recording := true;
                  temp_file_name := temp_file_name r; at_line := L27 |}).
    destruct (exec_run_lines w (map es (seq 0 2)) s1 (goto L24 (set_out v r))
                r3 [Emit w recording_started])
      as (s3 & Hex & Hself3 & Hgui3 & _ & Hrs & _ & Hpo3 & Hfs3); try done.
    { by rewrite Hgui. }
    simpl in Hpo3, Hfs3.
    assert (Hr3 : recorders s3 !! w = Some r3).
    { rewrite Hrs. apply list_lookup_insert_eq. by eapply lookup_lt_Some. }
    exists s3. split_and!; try done.
    + by rewrite Hpo3, Hpo.
    + by rewrite Hfs3.
    + intros el.
      assert (Hna : gui s3 <> Aborted) by (by rewrite Hgui3, Hgui).
      destruct (exec_run_lines w _ s3 _ _ _ Hna Hr3
                  (run_lines_iterations w (cap (self s3)) (temp_file_name r) el v))
        as (s4 & Hex4 & _ & _ & _ & Hrs4 & _ & Hpo4 & Hfs4).
      destruct (loop_calls_silent _ (posted s3) (fs s3)
                  (iteration_calls_loop w (cap (self s3)) el)) as [Hq Hm].
      rewrite foldl_vw_write_unopened in Hrs4 by done.
      exists s4. split_and!; try done.
      * rewrite Hrs4. by apply list_insert_id.
      * by rewrite Hpo4, Hq.
      * by rewrite Hfs4, Hm, Hfs3.
    + intros Hev Hvt Hp0 e0 e1 e2.
      assert (Hg3 : gui s3 = EventLoop) by (by rewrite Hgui3, Hgui).
      assert (Hp3 : posted s3 = [recording_started]).
      { by rewrite Hpo3, Hpo, Hp0. }
      set (s4 := on_recording_started (with_posted [] s3)).
      assert (Hd4 : step Dispatch e0 s3 = Some s4).
      { unfold step, dispatch. by rewrite Hg3, Hp3. }
      destruct (unopened_stop_phase s4 e1 e2 w v (temp_file_name r))
        as (s5 & s6 & Hex5 & Hg5 & _ & Hr5 & Hp5 & Hfs5 & Hd6 & Hb6 & Hrais & Hcanc);
        try done.
      { unfold s4; simpl. by rewrite Hself3, Hself. }
      assert (Hfs4 : fs s4 = fs s) by (unfold s4; simpl; by rewrite Hfs3).
      rewrite Hfs4 in Hfs5, Hrais, Hcanc.
      exists s4, s5, s6. split_and!; try done.
  - intros e' c r2 r2' acts. apply run_keeps_active.
  - intros l s' Hex.
    destruct (exec_unopened l s1 s' w _ Hex Hr1) as (r' & Hr' & Hu).
    { split_and!; try done. by exists v. }
    exists r'. split; [done|].
    destruct Hu as (_ & _ & v' & Hv & _ & Hfr). unfold sink_frames. by rewrite Hv.
Qed.

(** C2 (amended), on a concrete run. *)
Lemma encoder_open_failure_is_not_detected_witness :
  gui (Demo.after [(VideoClicked, Demo.env)]) <> Aborted /\
  recorders (Demo.after [(VideoClicked, Demo.env)]) !! 0
    = Some (start (VideoRecorder_init Demo.t0)) /\
  encoder_ok Demo.env_encoder_fails = false /\
  exists s1 v,
    step (WorkerLine 0) Demo.env_encoder_fails
      (Demo.after [(VideoClicked, Demo.env)]) = Some s1 /\
    vw_opened v = false /\
    (exists s3 s4 s5 s6,
       exec (schedule 0 (fun _ => Demo.env) 2) s1 = Some s3 /\
       step Dispatch Demo.env s3 = Some s4 /\
       video_btn (self s4) = "Stop Recording" /\
       exec ((VideoClicked, Demo.env) :: schedule 0 (fun _ => Demo.env) 3
               ++ [(GuiContinue, Demo.env)]) s4 = Some s5 /\
       step Dispatch Demo.env s5 = Some s6 /\
       gui s6 = Aborted /\ fs s6 = ∅) /\
    forall l s',
      exec l s1 = Some s' ->
      exists r', recorders s' !! 0 = Some r' /\ sink_frames r' = [].
Proof.
  assert (Hg : gui (Demo.after [(VideoClicked, Demo.env)]) <> Aborted)
    by (vm_compute; discriminate).
  assert (Hr : recorders (Demo.after [(VideoClicked, Demo.env)]) !! 0
               = Some (start (VideoRecorder_init Demo.t0)))
    by (vm_compute; reflexivity).
  split; [exact Hg|]. split; [exact Hr|]. split; [reflexivity|].
  destruct (encoder_open_failure_is_not_detected
              (Demo.after [(VideoClicked, Demo.env)]) 0
              (start (VideoRecorder_init Demo.t0)) Demo.env_encoder_fails
              (fun _ => Demo.env) Hg Hr eq_refl eq_refl)
    as (s1 & v & Hstep & _ & Hop & _ & _ & _ & _ &
        (s3 & Hex3 & _ & _ & _ & _ & Hstop) & _ & Hnever).
  destruct (Hstop eq_refl eq_refl eq_refl Demo.env Demo.env Demo.env)
    as (s4 & s5 & s6 & Hd4 & Hb4 & _ & Hex5 & _ & _ & _ & _ & Hd6 & _ & Hrais & _).
  destruct (Hrais eq_refl eq_refl) as (Hg6 & _ & Hfs6).
  exists s1, v. split; [exact Hstep|]. split; [exact Hop|].
  split; [|exact Hnever].
  exists s3, s4, s5, s6. split_and!; assumption.
Defined.
(** ** The record button and the flag *)

Section Label.

(** What a line of [run] can do to the sink and to the position. *)
Lemma run_appends_only_at_L29 w e c r r' acts :
  run w e c r = Some (r', acts) ->
  (length (sink_frames r) < length (sink_frames r') ->
   exists f, at_line r = L29 (Some f)) /\
  (at_line r' = L28 -> at_line r = L27 /\ is_recording r = true) /\
  (forall f, at_line r' = L29 (Some f) -> at_line r = L28).
Proof.
  unfold run, sink_frames. destruct r as [o b tmp l]; simpl.
  destruct l as [| | | | | |[f|]| | |]; simpl; intros E; try done;
    try (destruct o as [v|]; simpl in E; [|done]);
    inversion E; subst; simpl; split_and!; try done; eauto;
    try (destruct b; done); try lia.
Qed.

End Label.

(** C8, as stated, fails in two ways.  Between line 24 and the dispatch of
    [started] the flag of the worker the controller refers to is set while
    the button still shows the record text.  And after two clicks in a row
    the button follows the signals of the first worker while the controller
    refers to the second: with nothing left to notify, the button shows the
    stop text and the flag of the worker referred to is clear. *)
Lemma label_lags_behind_flag :
  (exists s, exec Demo.start_one Demo.fresh = Some s /\
             reachable s /\ ~ label_tracks_flag s) /\
  (exists s, exec Demo.impatient_click Demo.fresh = Some s /\
             reachable s /\ gui s = EventLoop /\ notified s /\
             ~ label_tracks_flag s).
Proof.
  split.
  - eexists. split; [vm_compute; reflexivity|]. split.
    { eapply (reachable_exec Demo.start_one Demo.fresh);
        [apply reach_boot | vm_compute; reflexivity]. }
    intros [_ H].
    lapply H; [intros Hb; vm_compute in Hb; discriminate Hb|].
    eexists 0, _. repeat split; reflexivity.
  - eexists. split; [vm_compute; reflexivity|]. split.
    { eapply (reachable_exec Demo.impatient_click Demo.fresh);
        [apply reach_boot | vm_compute; reflexivity]. }
    split; [reflexivity|]. split.
    { split; [reflexivity|]. intros w r Hv Hr.
      vm_compute in Hv. injection Hv as <-.
      vm_compute in Hr. injection Hr as <-.
      split; [discriminate|]. intros _. by left. }
    intros [H _]. destruct (H eq_refl) as (w & r & Hv & Hr & Hf).
    vm_compute in Hv. injection Hv as <-.
    vm_compute in Hr. injection Hr as <-. discriminate Hf.
Qed.

(** C8 (amended). The flag decides whether frames are appended: a sink only
    grows on line 30 of its own worker, which is only reached through a read
    at line 28, which is only reached from a loop test at line 27 that saw
    the flag set.  The button text follows the flag through the two signals.
    The worker emits [recording_started] on the line after it has set the
    flag, [recording_stopped] after it has left the loop on a clear flag
    and released the sink, and nothing else; no step but the dispatch of a
    posted signal changes the text, dispatching [recording_started] sets the
    stop text, dispatching [recording_stopped] sets the record text, and a
    dispatch changes no flag.  So when clicks on the record button come one
    at a time and no exception has escaped a slot, the button shows the stop
    text exactly when the flag of the worker referred to is set, in every
    state in which no change of the flag waits to be notified. *)
Theorem label_follows_notifications :
  (forall a e s s',
     step a e s = Some s' ->
     (a <> Dispatch -> video_btn (self s') = video_btn (self s)) /\
     (a = Dispatch ->
        recorders s' = recorders s /\
        exists sg q,
          posted s = sg :: q /\
          video_btn (self s') =
            match sg with
            | recording_started => "Stop Recording"
            | recording_stopped _ => "Record Video"
            end) /\
     (forall w r r',
        recorders s !! w = Some r -> recorders s' !! w = Some r' ->
        (length (sink_frames r) < length (sink_frames r') ->
         exists f, a = WorkerLine w /\ at_line r = L29 (Some f)) /\
        (at_line r' = L28 -> at_line r <> L28 ->
         a = WorkerLine w /\ at_line r = L27 /\ is_recording r = true) /\
        (forall f, at_line r' = L29 (Some f) -> at_line r <> L29 (Some f) ->
         a = WorkerLine w /\ at_line r = L28))) /\
  (forall w e c r r' acts,
     run w e c r = Some (r', acts) ->
     (at_line r = L24 -> is_recording r' = true /\ at_line r' = L25) /\
     (at_line r = L25 -> at_line r' = L27) /\
     (at_line r' = L32 -> at_line r = L27 /\ is_recording r = false) /\
     (at_line r = L33 -> at_line r' = Finished /\ sink_closed r' = sink_closed r) /\
     (at_line r' = L33 -> at_line r = L32 /\ sink_closed r' = true) /\
     foldl (fun q a => post_effect a q) [] acts =
       match at_line r with
       | L25 => [recording_started]
       | L33 => [recording_stopped (temp_file_name r)]
       | _ => []
       end) /\
  (forall dev_ok width height box now l s,
     exec l (boot dev_ok width height box now) = Some s ->
     patient_run l (boot dev_ok width height box now) ->
     gui s <> Aborted ->
     notified s ->
     label_tracks_flag s).
Proof.
  split_and!.
  - intros a e s s' Hstep. split_and!.
    + by apply (step_keeps_label a e).
    + intros ->. split; [|by eapply dispatch_sets_label].
      apply step_dispatch_inv in Hstep as [_ Hstep].
      exact (dispatch_recorders e s s' Hstep).
    + intros w r r' Hr Hr'.
      destruct (step_recorder_cases a e s s' w r Hstep Hr)
        as [H|[[_ H]|(r0 & acts & -> & Hrun & H)]];
        rewrite Hr' in H; inversion H; subst r'.
      * split_and!; [lia | done | intros f; done].
      * split_and!; [unfold sink_frames; simpl; lia | done | intros f; done].
      * destruct (run_appends_only_at_L29 _ _ _ _ _ _ Hrun) as (H1 & H2 & H3).
        split_and!.
        -- intros Hne. destruct (H1 Hne) as [f Hf]. eauto.
        -- intros Hl _. by destruct (H2 Hl).
        -- intros f Hl _. split; [done|]. by eapply H3.
  - intros w e c r r' acts Hrun.
    destruct (run_emits w e c r r' acts [] Hrun) as [Hem _].
    split_and!; [| | | | |exact Hem];
      unfold run, sink_closed in *; destruct r as [o b tmp l];
      cbn [at_line out is_recording temp_file_name] in *;
      destruct l as [| | | | | |[f|]| | |]; try done;
      try (destruct o as [v|]; simpl in Hrun; [|done]);
      inversion Hrun; subst; simpl; try done;
      try (destruct b; done).
  - intros dev_ok width height box now l s Hexec Hpat Hna Hnot.
    destruct (patient_run_invariants l _ s (reach_boot _ _ _ _ _)
                (one_session_boot _ _ _ _ _)
                (fun _ => label_synced_boot _ _ _ _ _) Hpat Hexec)
      as (Hreach & _ & J).
    apply label_synced_tracks; auto.
Qed.

(** C8 (amended), on a concrete run: a recording in progress, [started]
    dispatched. *)
Lemma label_follows_notifications_witness :
  patient_run (Demo.start_one ++ [(Dispatch, Demo.env)]) Demo.fresh /\
  notified Demo.recording /\
  label_tracks_flag Demo.recording /\
  video_btn (self Demo.recording) = "Stop Recording".
Proof.
  assert (Hpat : patient_run (Demo.start_one ++ [(Dispatch, Demo.env)])
                   Demo.fresh).
  { unfold Demo.start_one, Demo.fresh. cbn [app]. patient_run_by_evaluation. }
  assert (Hnot : notified Demo.recording).
  { split; [reflexivity|]. intros w r Hv Hr.
    vm_compute in Hv. injection Hv as <-.
    vm_compute in Hr. injection Hr as <-. split; [discriminate|].
    intros Hf. discriminate Hf. }
  split; [exact Hpat|]. split; [exact Hnot|]. split; [|reflexivity].
  refine (proj2 (proj2 label_follows_notifications) true 2 1 (720, 560)
            Demo.t0 (Demo.start_one ++ [(Dispatch, Demo.env)])
            Demo.recording _ Hpat _ Hnot).
  - vm_compute. reflexivity.
  - vm_compute. discriminate.
Defined.
(** ** The capture handle at shutdown *)

Section Release.

(** Only the close request touches the handle, and the GUI thread never
    leaves [closeEvent] once it has entered it, unless an exception
    escapes a slot. *)
Lemma step_gui_cap a e s s' :
  step a e s = Some s' ->
  (a = CloseRequested /\ gui s = EventLoop /\ gui s' = Close141 /\
   cap (self s') = cap_release (cap (self s))) \/
  (a <> CloseRequested /\ cap (self s') = cap (self s) /\
   (shutting_down (gui s') = shutting_down (gui s) \/ gui s' = Aborted)).
Proof.
  intros Hstep. destruct a.
  - right. apply step_timer_inv in Hstep as [_ ->].
    destruct (update_frame_cap e s) as [-> ->]. split_and!; try done; left; rewrite ?G; done.
  - right. unfold step in Hstep. destruct (gui s) eqn:G; try done.
    inversion Hstep; subst.
    destruct (save_image_cases e s) as (-> & _ & _ & -> & _).
    split_and!; try done; left; rewrite ?G; done.
  - right. unfold step in Hstep. destruct (gui s) eqn:G; try done.
    unfold toggle_video_recording, stop_video_recording in Hstep.
    destruct (video_thread (self s)) as [w0|] eqn:Hv.
    + destruct (recorders s !! w0) as [r0|]; simpl in Hstep; [|done].
      destruct (negb (is_recording r0)); inversion Hstep; subst; simpl;
        rewrite ?G; (split_and!; try done; left; rewrite ?G; done).
    + inversion Hstep; subst; simpl. rewrite G. split_and!; try done; left; rewrite ?G; done.
  - right. apply step_dispatch_inv in Hstep as [G Hstep].
    unfold dispatch in Hstep.
    destruct (posted s) as [|[|path] q]; [done| |].
    + inversion Hstep; subst; simpl. split_and!; try done; left; rewrite ?G; done.
    + destruct (on_recording_stopped_cap path e (with_posted q s)) as [Hc Hg].
      destruct (on_recording_stopped path e (with_posted q s));
        inversion Hstep; subst; simpl in *; rewrite ?Hg;
        (split_and!; try done); [by left | by right].
  - left. unfold step in Hstep. destruct (gui s); try done.
    inversion Hstep; subst. done.
  - right. unfold step in Hstep. destruct (gui s) as [| |w0 c| |]; try done.
    + inversion Hstep; subst. unfold closeEvent_stop.
      destruct (video_thread (self s)); (split_and!; try done; left; rewrite ?G; done).
    + unfold wait_returns in Hstep.
      destruct (recorders s !! w0) as [r0|]; simpl in Hstep; [|done].
      destruct (at_line r0); try done. inversion Hstep; subst.
      destruct c; (split_and!; try done; left; rewrite ?G; done).
  - right. apply step_worker_frame in Hstep as (-> & -> & _).
    split_and!; try done; left; rewrite ?G; done.
  - right. unfold step in Hstep. destruct (gui s) eqn:G; try done;
      inversion Hstep; subst; simpl; rewrite ?G;
      (split_and!; try done; left; rewrite ?G; done).
Qed.

(** The handle is released exactly when [closeEvent] has begun, and
    exactly once. *)
Lemma released_once s :
  reachable s ->
  gui s <> Aborted ->
  cap_releases (cap (self s)) = (if shutting_down (gui s) then 1 else 0) /\
  (shutting_down (gui s) = true -> cap_opened (cap (self s)) = false).
Proof.
  induction 1 as [|s a e s' Hs IH Hstep]; intros Hna;
    [split; simpl; [reflexivity | discriminate]|].
  assert (Hna0 : gui s <> Aborted).
  { intros G. unfold step in Hstep. rewrite G in Hstep. done. }
  destruct (IH Hna0) as [IH1 IH2].
  destruct (step_gui_cap a e s s' Hstep)
    as [(_ & Hg & Hg' & Hc)|(_ & Hc & [Hsd|Hsd])]; [| |done].
  - rewrite Hg', Hc. rewrite Hg in IH1. simpl in *. by rewrite IH1.
  - rewrite Hc, Hsd. done.
Qed.

(** Calls made by one step while the handle is released and [closeEvent]
    has begun: none is a successful read, none a release. *)
Lemma on_recording_stopped_trace path e s :
  exists tl,
    trace (world_of (on_recording_stopped path e s)) = trace s ++ tl /\
    Forall no_frame_delivered tl.
Proof.
  unfold on_recording_stopped, getExistingDirectory, os_rename; simpl.
  destruct (Text.truthy (chosen_dir e));
    [destruct (rename_ok e && is_some (fs s !! path))|];
    simpl; rewrite <- ?app_assoc; simpl;
    eexists; (split; [reflexivity|]); by repeat constructor.
Qed.

Lemma step_trace_released a e s s' :
  step a e s = Some s' ->
  shutting_down (gui s) = true ->
  cap_opened (cap (self s)) = false ->
  exists tl, trace s' = trace s ++ tl /\ Forall no_frame_delivered tl.
Proof.
  intros Hstep Hsd Hcl. destruct a;
    try (unfold step in Hstep; destruct (gui s); done).
  - apply step_timer_inv in Hstep as [_ ->].
    unfold update_frame, cap_read. rewrite Hcl. simpl.
    eexists. split; [reflexivity|]. by repeat constructor.
  - apply step_dispatch_inv in Hstep as [_ Hstep]. unfold dispatch in Hstep.
    destruct (posted s) as [|[|path] q]; [done| |].
    + inversion Hstep; subst; simpl.
      eexists. split; [reflexivity|]. by repeat constructor.
    + destruct (on_recording_stopped_trace path e (with_posted q s))
        as (tl & Htl & Hq).
      destruct (on_recording_stopped path e (with_posted q s));
        inversion Hstep; subst; simpl in *; eauto.
  - unfold step in Hstep. destruct (gui s) as [| |w0 c| |]; try done.
    + inversion Hstep; subst. unfold closeEvent_stop.
      destruct (video_thread (self s)); simpl.
      * eexists. split; [reflexivity|]. by repeat constructor.
      * exists []. by rewrite app_nil_r.
    + unfold wait_returns in Hstep.
      destruct (recorders s !! w0) as [r0|]; simpl in Hstep; [|done].
      destruct (at_line r0); try done. inversion Hstep; subst. simpl.
      eexists. split; [reflexivity|]. by repeat constructor.
  - apply step_worker_inv in Hstep as (r & r' & acts & Hr & Hrun & ->).
    rewrite perform_all_trace. simpl. exists acts. split; [done|].
    unfold run, cap_read in Hrun. rewrite Hcl in Hrun.
    destruct (at_line r) as [| | | | | |[f|]| | |]; try done;
      try (destruct (out r); simpl in Hrun; [|done]);
      inversion Hrun; subst; by repeat constructor.
  - unfold step in Hstep. destruct (gui s); try done;
      inversion Hstep; subst; exists []; by rewrite app_nil_r.
Qed.

Lemma exec_trace_released l : forall s s',
  exec l s = Some s' ->
  shutting_down (gui s) = true ->
  cap_opened (cap (self s)) = false ->
  (shutting_down (gui s') = true \/ gui s' = Aborted) /\
  cap (self s') = cap (self s) /\
  exists tl, trace s' = trace s ++ tl /\ Forall no_frame_delivered tl.
Proof.
  induction l as [|[a e] l IH]; intros s s' Hex Hsd Hcl.
  - inversion Hex; subst. split_and!; try done; [by left|].
    exists []. by rewrite app_nil_r.
  - rewrite exec_cons in Hex.
    destruct (step a e s) as [s1|] eqn:E; simpl in Hex; [|done].
    destruct (step_trace_released a e s s1 E Hsd Hcl) as (tl1 & Ht1 & Hq1).
    destruct (step_gui_cap a e s s1 E)
      as [(_ & Hg & _)|(_ & Hc & [Hsd1|Hab])].
    { rewrite Hg in Hsd. done. }
    + destruct (IH s1 s' Hex) as (Hsd' & Hc' & tl2 & Ht2 & Hq2).
      { by rewrite Hsd1. }
      { by rewrite Hc. }
      split_and!; try congruence.
      exists (tl1 ++ tl2). split.
      * by rewrite Ht2, Ht1, app_assoc.
      * by apply Forall_app.
    + assert (s' = s1) as ->.
      { destruct l as [|[a' e'] l']; [by inversion Hex|].
        rewrite exec_cons in Hex. unfold step in Hex. rewrite Hab in Hex.
        done. }
      split_and!; [by right|done|by exists tl1].
Qed.

End Release.

Lemma exec_loops_on_released w v l : forall s s',
  loops_on_released w v s ->
  Forall (fun ae : actor * Env => ae.1 <> GuiContinue) l ->
  exec l s = Some s' ->
  loops_on_released w v s'.
Proof.
  induction l as [|[a e] l IH]; intros s s' HK Hall Hex.
  - by inversion Hex; subst.
  - rewrite exec_cons in Hex.
    destruct (step a e s) as [s1|] eqn:E; simpl in Hex; [|done].
    inversion Hall as [|? ? Ha Hl]; subst. simpl in Ha.
    apply (IH s1 s'); [|done|done].
    destruct HK as (Hg & Hcl & Hv & r & Hr & Hf & Ho & Hline).
    destruct a; try done; try (unfold step in E; rewrite Hg in E; done).
    + apply step_worker_inv in E as (r0 & r0' & acts & Hr0 & Hrun & ->).
      unfold loops_on_released.
      rewrite perform_all_gui, perform_all_self, perform_all_recorders. simpl.
      split_and!; try done.
      destruct (decide (w0 = w)) as [-> | Hne].
      * rewrite Hr in Hr0. inversion Hr0; subst r0.
        exists r0'. split.
        { apply list_lookup_insert_eq. by eapply lookup_lt_Some. }
        unfold run, cap_read in Hrun. rewrite Hcl, Hf in Hrun.
        destruct Hline as [Hl'|[Hl'|Hl']]; rewrite Hl' in Hrun;
          inversion Hrun; subst; simpl; eauto.
      * exists r. by rewrite list_lookup_insert_ne.
    + unfold step in E. rewrite Hg in E. inversion E; subst.
      unfold loops_on_released; simpl. split_and!; try done. eauto.
Qed.

(** C10. [closeEvent] releases the capture handle first (line 140) and only
    then signals and joins the worker (lines 141-143).  The release is the
    only one of the whole run.  Every read made after it fails.  A worker
    that still loops with its flag set goes on reading from the released
    handle: each turn of its loop makes one read, which fails whatever the
    device has to offer, and appends nothing; it keeps its flag and its
    sink until the GUI thread goes on to line 142 and clears the flag. *)
Theorem release_precedes_stop (s : World) (e : Env) :
  reachable s ->
  gui s = EventLoop ->
  exists s1,
    step CloseRequested e s = Some s1 /\
    cap_releases (cap (self s)) = 0 /\
    cap_releases (cap (self s1)) = 1 /\
    cap_opened (cap (self s1)) = false /\
    gui s1 = Close141 /\ recorders s1 = recorders s /\
    trace s1 = trace s ++ [CapRelease] /\
    (forall l s2, exec l s1 = Some s2 ->
       cap_releases (cap (self s2)) = 1 /\
       cap_opened (cap (self s2)) = false /\
       exists tl, trace s2 = trace s1 ++ tl /\ Forall no_frame_delivered tl) /\
    (forall w r v,
       video_thread (self s) = Some w ->
       recorders s !! w = Some r ->
       at_line r = L27 -> is_recording r = true -> out r = Some v ->
       (forall el, exists s2,
          exec (iterations w el) s1 = Some s2 /\
          trace s2 = trace s1 ++ replicate (length el) (CapRead (Some w) false) /\
          recorders s2 = recorders s /\ gui s2 = Close141 /\
          fs s2 = fs s /\ posted s2 = posted s) /\
       forall l s2,
         Forall (fun ae : actor * Env => ae.1 <> GuiContinue) l ->
         exec l s1 = Some s2 ->
         (exists r2, recorders s2 !! w = Some r2 /\ is_recording r2 = true /\
                     out r2 = Some v /\ in_loop (at_line r2)) /\
         exists s3 r3,
           step GuiContinue e s2 = Some s3 /\
           gui s3 = Waiting w true /\
           trace s3 = trace s2 ++ [StopCall w] /\
           recorders s3 !! w = Some r3 /\ is_recording r3 = false /\
           out r3 = Some v).
Proof.
  intros Hreach Hg.
  destruct (released_once s Hreach) as [Hrel _]; [by rewrite Hg|].
  rewrite Hg in Hrel. simpl in Hrel.
  exists (closeEvent_release s).
  assert (Hstep : step CloseRequested e s = Some (closeEvent_release s)).
  { unfold step. by rewrite Hg. }
  split; [exact Hstep|]. split; [exact Hrel|].
  split; [simpl; by rewrite Hrel|].
  split; [reflexivity|]. split; [reflexivity|]. split; [reflexivity|].
  split; [reflexivity|]. split.
  - intros l s2 Hex.
    destruct (exec_trace_released l _ _ Hex) as (_ & Hc & tl & Htl & Hq);
      try reflexivity.
    rewrite Hc. simpl. rewrite Hrel. eauto.
  - intros w r v Hv Hr Hl Hf Ho. split.
    { intros el.
      destruct (failed_iterations (closeEvent_release s) w r el)
        as (s2 & Hex & _ & Hgui & _ & Hrs & Hpo & Hfs & Htr); try done.
      { apply Forall_forall. intros e0 _. reflexivity. }
      exists s2. split_and!; done. }
    intros l s2 Hall Hex.
    assert (HK : loops_on_released w v (closeEvent_release s)).
    { unfold loops_on_released; simpl. split_and!; try done.
      exists r. split_and!; try done. by left. }
    destruct (exec_loops_on_released w v l _ _ HK Hall Hex)
      as (Hg2 & Hcl2 & Hv2 & r2 & Hr2 & Hf2 & Ho2 & Hl2).
    split.
    + exists r2. split_and!; try done.
      destruct Hl2 as [-> | [-> | ->]]; done.
    + exists (closeEvent_stop s2), (stop r2).
      unfold step. rewrite Hg2. unfold closeEvent_stop. rewrite Hv2.
      split_and!; try done.
      unfold with_gui; cbn [recorders].
      rewrite (stop_call_lookup w s2 w r2 Hr2). by rewrite decide_True.
Qed.

(** C10, on a concrete run: the window is closed during a recording, and
    the device still has frames to offer. *)
Lemma release_precedes_stop_witness :
  reachable Demo.recording /\ gui Demo.recording = EventLoop /\
  device Demo.env = Some Demo.frame /\
  exists s1 s2,
    step CloseRequested Demo.env Demo.recording = Some s1 /\
    cap_releases (cap (self s1)) = 1 /\
    trace s1 = trace Demo.recording ++ [CapRelease] /\
    exec (iterations 0 [Demo.env; Demo.env]) s1 = Some s2 /\
    trace s2 = trace s1 ++ [CapRead (Some 0) false; CapRead (Some 0) false] /\
    recorders s2 = [Demo.recorder0].
Proof.
  assert (Hreach : reachable Demo.recording).
  { eapply (reachable_exec (Demo.start_one ++ [(Dispatch, Demo.env)]) Demo.fresh);
      [apply reach_boot | vm_compute; reflexivity]. }
  split; [exact Hreach|]. split; [reflexivity|]. split; [reflexivity|].
  destruct (release_precedes_stop Demo.recording Demo.env Hreach eq_refl)
    as (s1 & Hstep & _ & Hone & _ & _ & _ & Htr & _ & Hworker).
  destruct (Hworker 0 Demo.recorder0 Demo.sink0 eq_refl eq_refl eq_refl
              eq_refl eq_refl) as [Hreads _].
  destruct (Hreads [Demo.env; Demo.env])
    as (s2 & Hex & Htr2 & Hrs2 & _).
  exists s1, s2. split_and!; assumption.
Defined.
(** ** What the invariants give *)

Lemma reachable_temp_file_name s :
  reachable s ->
  forall w r, recorders s !! w = Some r ->
    exists t, temp_file_name r = recorder_name t.
Proof.
  induction 1 as [|s a e s' Hs IH Hstep]; intros w r' Hr'; [done|].
  destruct (step_recorder_origin a e s s' w r' Hstep Hr')
    as [[r Hr]|(_ & _ & ->)].
  - destruct (IH w r Hr) as [t Ht]. exists t.
    destruct (step_recorder_cases a e s s' w r Hstep Hr)
      as [H|[[_ H]|(r0 & acts & _ & Hrun & H)]];
      rewrite Hr' in H; inversion H; subst r'; try done.
    by rewrite (run_keeps_temp_file_name _ _ _ _ _ _ Hrun).
  - by exists (wall s).
Qed.

Lemma finished_recorder s w r :
  reachable s -> recorders s !! w = Some r -> at_line r = Finished ->
  is_recording r = false /\ sink_closed r = true.
Proof.
  intros Hs Hr Hl. pose proof (reachable_recorder_wf s Hs w r Hr) as Hwf.
  unfold recorder_wf in Hwf. rewrite Hl in Hwf.
  destruct Hwf as [(v & Hv & Hrel) Hf]. unfold sink_closed. by rewrite Hv.
Qed.

(** X1. In every reachable state the position of a worker in [run] fixes
    what its sink and its flag can be: every recorder the controller has
    created is started; it has no sink exactly before line 23 has run; its
    flag is only ever set while it is between line 25 and the end of the
    loop; its sink is released exactly when it has passed line 32. *)
Theorem flag_and_sink_follow_the_line (s : World) (w : nat) (r : VideoRecorder) :
  reachable s ->
  recorders s !! w = Some r ->
  at_line r <> NotStarted /\
  (out r = None <-> at_line r = L21) /\
  (is_recording r = true -> session_active r = true) /\
  (sink_closed r = true <-> at_line r = L33 \/ at_line r = Finished) /\
  (at_line r = Finished -> is_recording r = false).
Proof.
  intros Hs Hr. pose proof (reachable_recorder_wf s Hs w r Hr) as Hwf.
  unfold recorder_wf in Hwf. unfold session_active, sink_closed.
  destruct r as [o b tmp l]; simpl in *.
  destruct l as [| | | | | |ret| | |]; try done;
    rewrite ?andb_true_r, ?andb_false_r;
    repeat match goal with
    | Hc : _ /\ _ |- _ => destruct Hc
    | Hc : exists _, _ |- _ => destruct Hc
    end; subst; simpl; split_and!;
    try done; try congruence;
    try (split; [intros; congruence | intros [?|?]; congruence]);
    try (split; intros; congruence);
    (split; [intros _; by eauto | done]).
Qed.

Lemma flag_and_sink_follow_the_line_witness :
  reachable Demo.recording /\
  recorders Demo.recording !! 0 = Some Demo.recorder0 /\
  (sink_closed Demo.recorder0 = true <->
   at_line Demo.recorder0 = L33 \/ at_line Demo.recorder0 = Finished).
Proof.
  assert (Hreach : reachable Demo.recording).
  { eapply (reachable_exec (Demo.start_one ++ [(Dispatch, Demo.env)]) Demo.fresh);
      [apply reach_boot | vm_compute; reflexivity]. }
  assert (Hr : recorders Demo.recording !! 0 = Some Demo.recorder0)
    by (vm_compute; reflexivity).
  split; [exact Hreach|]. split; [exact Hr|].
  exact (proj1 (proj2 (proj2 (proj2
    (flag_and_sink_follow_the_line Demo.recording 0 Demo.recorder0 Hreach Hr))))).
Defined.

(** X2. A worker is never stuck inside [run]: in every reachable state in
    which no exception has escaped a slot, a worker whose [run] has not
    returned can execute its next line, with whatever the environment
    answers.  In particular [self.out] is set whenever lines 30 and 32 use
    it. *)
Theorem worker_never_stuck (s : World) (w : nat) (r : VideoRecorder) (e : Env) :
  reachable s ->
  gui s <> Aborted ->
  recorders s !! w = Some r ->
  at_line r <> Finished ->
  exists s' r',
    step (WorkerLine w) e s = Some s' /\
    recorders s' !! w = Some r' /\ at_line r' <> at_line r.
Proof.
  intros Hs Hg Hr Hfin.
  pose proof (reachable_recorder_wf s Hs w r Hr) as Hwf.
  assert (Hrun : exists r' acts,
            run w e (cap (self s)) r = Some (r', acts) /\ at_line r' <> at_line r).
  { unfold recorder_wf in Hwf. unfold run.
    destruct r as [o b tmp l]; simpl in *.
    destruct l as [| | | | | |[f|]| | |]; try done;
      repeat match goal with
      | Hc : _ /\ _ |- _ => destruct Hc
      | Hc : exists _, _ |- _ => destruct Hc
      end; subst; simpl; try (destruct b); eexists _, _; split; try reflexivity;
      simpl; done. }
  destruct Hrun as (r' & acts & Hrun & Hne).
  destruct (worker_line_step w e s r r' acts Hg Hr Hrun)
    as (s' & Hstep & _ & _ & _ & _ & Hr' & _).
  by exists s', r'.
Qed.

Lemma worker_never_stuck_witness :
  reachable Demo.recording /\
  gui Demo.recording <> Aborted /\
  recorders Demo.recording !! 0 = Some Demo.recorder0 /\
  exists s' r',
    step (WorkerLine 0) Demo.env_no_frame Demo.recording = Some s' /\
    recorders s' !! 0 = Some r' /\ at_line r' <> at_line Demo.recorder0.
Proof.
  assert (Hreach : reachable Demo.recording).
  { eapply (reachable_exec (Demo.start_one ++ [(Dispatch, Demo.env)]) Demo.fresh);
      [apply reach_boot | vm_compute; reflexivity]. }
  assert (Hg : gui Demo.recording <> Aborted) by (vm_compute; discriminate).
  assert (Hr : recorders Demo.recording !! 0 = Some Demo.recorder0)
    by (vm_compute; reflexivity).
  split; [exact Hreach|]. split; [exact Hg|]. split; [exact Hr|].
  apply (worker_never_stuck Demo.recording 0 Demo.recorder0 Demo.env_no_frame
           Hreach Hg Hr).
  discriminate.
Defined.

(** X3. The controller never holds a dangling reference: in every reachable
    state [video_thread], when set, names a recorder that exists, and a GUI
    thread blocked in [wait()] waits for that very recorder.  So a click on
    the record button is always served when the GUI thread is in the event
    loop: it either starts a new recorder or stops the one referred to. *)
Theorem record_button_always_served (s : World) (e : Env) :
  reachable s ->
  (forall w, video_thread (self s) = Some w -> is_Some (recorders s !! w)) /\
  (forall w c, gui s = Waiting w c -> video_thread (self s) = Some w) /\
  (gui s = EventLoop ->
   exists s',
     step VideoClicked e s = Some s' /\
     (s' = start_video_recording s \/ s' = stop_video_recording s)).
Proof.
  intros Hs. destruct (reachable_reference s Hs) as [H1 H2].
  split_and!; try done.
  - intros w Hw. apply lookup_lt_is_Some. by apply H1.
  - intros Hg. unfold step. rewrite Hg. unfold toggle_video_recording.
    destruct (video_thread (self s)) as [w|] eqn:Hv; [|eauto].
    destruct (lookup_lt_is_Some_2 (recorders s) w (H1 w eq_refl)) as [r Hr].
    rewrite Hr. simpl. destruct (negb (is_recording r)); eauto.
Qed.

Lemma record_button_always_served_witness :
  reachable Demo.recording /\
  exists s',
    step VideoClicked Demo.env Demo.recording = Some s' /\
    (s' = start_video_recording Demo.recording \/
     s' = stop_video_recording Demo.recording).
Proof.
  assert (Hreach : reachable Demo.recording).
  { eapply (reachable_exec (Demo.start_one ++ [(Dispatch, Demo.env)]) Demo.fresh);
      [apply reach_boot | vm_compute; reflexivity]. }
  split; [exact Hreach|].
  apply (record_button_always_served Demo.recording Demo.env Hreach).
  vm_compute; reflexivity.
Defined.

(** X4. [QThread.wait()] only returns to a caller whose worker has closed
    its file: in every reachable state, when the blocked GUI thread resumes
    (in [stop_video_recording] or in [closeEvent]), the worker it waited for
    has returned from [run], its flag is cleared and its encoder sink is
    released; the controller still refers to it. *)
Theorem wait_returns_after_sink_closed (s s' : World) (w : nat) (c : bool)
    (e : Env) :
  reachable s ->
  gui s = Waiting w c ->
  step GuiContinue e s = Some s' ->
  gui s' = (if c then Closed else EventLoop) /\
  video_thread (self s') = Some w /\
  exists r, recorders s' !! w = Some r /\
            at_line r = Finished /\ is_recording r = false /\
            sink_closed r = true.
Proof.
  intros Hs Hg Hstep. destruct (reachable_reference s Hs) as [_ Hw].
  unfold step, wait_returns in Hstep. rewrite Hg in Hstep.
  destruct (recorders s !! w) as [r|] eqn:Hr; simpl in Hstep; [|done].
  destruct (at_line r) eqn:Hl; try done. inversion Hstep; subst; simpl.
  split_and!; try done; [by eapply Hw|].
  exists r. split; [done|]. split; [done|].
  by apply (finished_recorder s w r).
Qed.

Lemma wait_returns_after_sink_closed_witness :
  reachable (Demo.after (removelast Demo.stop_one)) /\
  gui (Demo.after (removelast Demo.stop_one)) = Waiting 0 false /\
  step GuiContinue Demo.env (Demo.after (removelast Demo.stop_one))
    = Some (Demo.after Demo.stop_one) /\
  video_thread (self (Demo.after Demo.stop_one)) = Some 0.
Proof.
  assert (Hreach : reachable (Demo.after (removelast Demo.stop_one))).
  { eapply (reachable_exec (removelast Demo.stop_one) Demo.fresh);
      [apply reach_boot | vm_compute; reflexivity]. }
  assert (Hg : gui (Demo.after (removelast Demo.stop_one)) = Waiting 0 false)
    by (vm_compute; reflexivity).
  assert (Hstep : step GuiContinue Demo.env (Demo.after (removelast Demo.stop_one))
                  = Some (Demo.after Demo.stop_one)) by (vm_compute; reflexivity).
  split; [exact Hreach|]. split; [exact Hg|]. split; [exact Hstep|].
  exact (proj1 (proj2 (wait_returns_after_sink_closed _ _ 0 false Demo.env
                         Hreach Hg Hstep))).
Defined.

(** X5. The file is closed before it is moved, when clicks come one at a
    time.  After any run from start-up in which every click on the record
    button is patient, a [recording_stopped] signal at the head of the
    queue carries the [Recorder_<stamp>.avi] name of a worker that has
    returned from [run] with its encoder sink released, and every other
    worker has returned and released its sink as well: no worker is
    writing to any file when [on_recording_stopped] moves that one. *)
Theorem stopped_signal_names_closed_file dev_ok width height box now
    (l : list (actor * Env)) (s : World) (path : string) (q : list signal) :
  exec l (boot dev_ok width height box now) = Some s ->
  patient_run l (boot dev_ok width height box now) ->
  posted s = recording_stopped path :: q ->
  (exists t, path = recorder_name t) /\
  (exists w r, recorders s !! w = Some r /\
               temp_file_name r = path /\
               at_line r = Finished /\ sink_closed r = true) /\
  (forall w r, recorders s !! w = Some r ->
     at_line r = Finished /\ is_recording r = false /\ sink_closed r = true).
Proof.
  intros Hexec Hpat Hp.
  destruct (patient_run_invariants l _ s (reach_boot _ _ _ _ _)
              (one_session_boot _ _ _ _ _)
              (fun _ => label_synced_boot _ _ _ _ _) Hpat Hexec)
    as (Hs & (_ & _ & _ & P5) & _).
  assert (Hsp : stopped_posted s).
  { exists path. rewrite Hp. by left. }
  pose proof (reachable_posted s Hs) as Hall.
  rewrite Hp in Hall. inversion Hall as [|? ? Hhd _]; subst.
  simpl in Hhd. destruct Hhd as (w & r & Hr & Ht & Hl).
  split_and!.
  - destruct (reachable_temp_file_name s Hs w r Hr) as [t Ht'].
    exists t. congruence.
  - exists w, r. split_and!; try done. by apply (finished_recorder s w r).
  - intros w' r' Hr'.
    assert (Hfin : at_line r' = Finished).
    { by apply (P5 Hsp w' r'). }
    split; [done|]. by apply (finished_recorder s w' r').
Qed.

Lemma stopped_signal_names_closed_file_witness :
  patient_run Demo.stop_one Demo.fresh /\
  posted (Demo.after Demo.stop_one)
    = [recording_stopped "Recorder_20240517_090342.avi"] /\
  (exists t, "Recorder_20240517_090342.avi" = recorder_name t) /\
  forall w r, recorders (Demo.after Demo.stop_one) !! w = Some r ->
    at_line r = Finished /\ is_recording r = false /\ sink_closed r = true.
Proof.
  assert (Hpat : patient_run Demo.stop_one Demo.fresh).
  { unfold Demo.stop_one, Demo.start_one, Demo.fresh. cbn [app].
    patient_run_by_evaluation. }
  assert (Hp : posted (Demo.after Demo.stop_one)
               = [recording_stopped "Recorder_20240517_090342.avi"])
    by (vm_compute; reflexivity).
  assert (Hex : exec Demo.stop_one (boot true 2 1 (720, 560) Demo.t0)
                = Some (Demo.after Demo.stop_one))
    by (vm_compute; reflexivity).
  split; [exact Hpat|]. split; [exact Hp|].
  destruct (stopped_signal_names_closed_file true 2 1 (720, 560) Demo.t0
              Demo.stop_one (Demo.after Demo.stop_one) _ [] Hex Hpat Hp)
    as (Hname & _ & Hall).
  split; [exact Hname | exact Hall].
Defined.
(** ** The frames of a recording *)

(** X6. While a worker records, the frames the capture handle delivers to
    it reach the encoder in the order they were read.  After any number of
    turns of the loop the sink holds the frames it held before followed by
    the frames read that have the size the sink was opened with, once each
    and in read order; a failed read appends nothing, and the sink drops a
    frame of another size.  Every frame read is passed to [write] exactly
    once.  The worker is back at the loop test with its flag set; nothing
    is posted and no file is touched meanwhile. *)
Theorem every_frame_read_is_appended_once (s : World) (w : nat)
    (r : VideoRecorder) (v : VideoWriter) (el : list Env) :
  gui s <> Aborted ->
  recorders s !! w = Some r ->
  at_line r = L27 -> is_recording r = true ->
  out r = Some v -> vw_opened v = true ->
  let read := frames_read (cap (self s)) el in
  exists s' v',
    exec (iterations w el) s = Some s' /\
    recorders s' !! w =
      Some {| out := Some v'; is_recording := true;
              temp_file_name := temp_file_name r; at_line := L27 |} /\
    vw_frames v' =
      vw_frames v ++ filter (fun f => frame_size f = vw_size v) read /\
    (Forall (fun f => frame_size f = vw_size v) read ->
     vw_frames v' = vw_frames v ++ read) /\
    vw_opened v' = true /\ vw_released v' = vw_released v /\
    vw_size v' = vw_size v /\
    length read <= length el /\
    (forall w', w' <> w -> recorders s' !! w' = recorders s !! w') /\
    self s' = self s /\ posted s' = posted s /\ fs s' = fs s /\
    trace s' = trace s ++ flat_map (iteration_calls w (cap (self s))) el.
Proof.
  intros Hg Hr Hl Hf Ho Hop read.
  destruct r as [o b tmp l]; simpl in *; subst o b l.
  destruct (exec_run_lines w _ s _ _ _ Hg Hr
              (run_lines_iterations w (cap (self s)) tmp el v))
    as (s' & Hex & Hself & _ & _ & Hrs & Htr & Hpo & Hfs).
  destruct (loop_calls_silent _ (posted s) (fs s)
              (iteration_calls_loop w (cap (self s)) el)) as [Hq Hm].
  destruct (foldl_vw_write v read) as (Hop' & Hrel' & _ & Hsz' & Hfr').
  rewrite filter_accepts_opened in Hfr' by done.
  exists s', (foldl vw_write v read).
  split_and!; try done; try congruence.
  - rewrite Hrs. apply list_lookup_insert_eq. by eapply lookup_lt_Some.
  - intros Hall. rewrite Hfr'. f_equal.
    clear -Hall. induction Hall as [|f fl Hf _ IH]; [done|].
    rewrite filter_cons, decide_True by done. by rewrite IH.
  - apply frames_read_length.
  - intros w' Hne. rewrite Hrs. by rewrite list_lookup_insert_ne.
Qed.

Lemma every_frame_read_is_appended_once_witness :
  gui Demo.recording <> Aborted /\
  recorders Demo.recording !! 0 = Some Demo.recorder0 /\
  frames_read (cap (self Demo.recording))
    [Demo.env; Demo.env_no_frame; Demo.env_wide; Demo.env]
    = [Demo.frame; Demo.frame_wide; Demo.frame] /\
  exists s' v',
    exec (iterations 0 [Demo.env; Demo.env_no_frame; Demo.env_wide; Demo.env])
      Demo.recording = Some s' /\
    recorders s' !! 0 =
      Some {| out := Some v'; is_recording := true;
              temp_file_name := temp_file_name Demo.recorder0;
              at_line := L27 |} /\
    vw_frames v' = [Demo.frame; Demo.frame].
Proof.
  assert (Hg : gui Demo.recording <> Aborted) by (vm_compute; discriminate).
  assert (Hr : recorders Demo.recording !! 0 = Some Demo.recorder0)
    by (vm_compute; reflexivity).
  split; [exact Hg|]. split; [exact Hr|]. split; [reflexivity|].
  destruct (every_frame_read_is_appended_once Demo.recording 0 Demo.recorder0
              Demo.sink0 [Demo.env; Demo.env_no_frame; Demo.env_wide; Demo.env]
              Hg Hr eq_refl eq_refl eq_refl eq_refl)
    as (s' & v' & Hex & Hr' & Hfr & _).
  exists s', v'. split; [exact Hex|]. split; [exact Hr'|]. exact Hfr.
Defined.
(** ** A whole recording *)





(** ** Recorders over time *)

Lemma run_sink_prefix w e c r r' acts :
  recorder_wf r -> run w e c r = Some (r', acts) ->
  temp_file_name r' = temp_file_name r /\
  sink_frames r `prefix_of` sink_frames r'.
Proof.
  intros Hwf Hrun. split; [by eapply run_keeps_temp_file_name|].
  unfold recorder_wf in Hwf. unfold run in Hrun. unfold sink_frames.
  destruct r as [o b tmp l]; simpl in *.
  destruct l as [| | | | | |[f|]| | |]; try done;
    try (destruct o as [v|]; simpl in Hrun; [|done]);
    inversion Hrun; subst; simpl; try reflexivity.
  - destruct Hwf as [-> _]. reflexivity.
  - destruct (vw_accepts v f); [by apply prefix_app_r|reflexivity].
Qed.

Lemma stop_finished r :
  recorder_wf r -> at_line r = Finished -> stop r = r.
Proof.
  unfold recorder_wf. destruct r as [o b tmp l]; simpl. intros H ->.
  destruct H as [_ ->]. done.
Qed.

(** X8. What is recorded stays recorded.  Along any execution from a
    reachable state a recorder is never removed from the store and keeps its
    file name; the frames its sink holds only grow at the end, so no frame
    once appended is dropped or reordered; and a recorder whose [run] has
    returned is never changed again. *)
Theorem recorded_frames_are_kept (l : list (actor * Env)) :
  forall (s s' : World) (w : nat) (r : VideoRecorder),
    reachable s ->
    exec l s = Some s' ->
    recorders s !! w = Some r ->
    exists r',
      recorders s' !! w = Some r' /\
      temp_file_name r' = temp_file_name r /\
      sink_frames r `prefix_of` sink_frames r' /\
      (at_line r = Finished -> r' = r).
Proof.
  induction l as [|[a e] l IH]; intros s s' w r Hs Hex Hr.
  - inversion Hex; subst. exists r. by split_and!.
  - rewrite exec_cons in Hex.
    destruct (step a e s) as [s1|] eqn:E; simpl in Hex; [|done].
    pose proof (reachable_recorder_wf s Hs w r Hr) as Hwf.
    assert (Hs1 : reachable s1) by (by eapply reach_step).
    assert (Hone : exists r1,
              recorders s1 !! w = Some r1 /\
              temp_file_name r1 = temp_file_name r /\
              sink_frames r `prefix_of` sink_frames r1 /\
              (at_line r = Finished -> r1 = r)).
    { destruct (step_recorder_cases a e s s1 w r E Hr)
        as [H|[[_ H]|(r0 & acts & _ & Hrun & H)]].
      - exists r. by split_and!.
      - exists (stop r). split_and!; try done. by apply stop_finished.
      - exists r0. destruct (run_sink_prefix _ _ _ _ _ _ Hwf Hrun) as [Ht Hp].
        split_and!; try done. intros Hfin. unfold run in Hrun.
        rewrite Hfin in Hrun. done. }
    destruct Hone as (r1 & Hr1 & Ht1 & Hp1 & Hf1).
    destruct (IH s1 s' w r1 Hs1 Hex Hr1) as (r' & Hr' & Ht' & Hp' & Hf').
    exists r'. split_and!; try done; try congruence.
    + by etrans.
    + intros Hfin. specialize (Hf1 Hfin). subst r1. by apply Hf'.
Qed.

Lemma recorded_frames_are_kept_witness :
  reachable Demo.recording /\
  exec [(WorkerLine 0, Demo.env); (WorkerLine 0, Demo.env);
        (WorkerLine 0, Demo.env); (TimerTimeout, Demo.env)] Demo.recording
    = Some (Demo.after (Demo.start_one ++
              [(Dispatch, Demo.env); (WorkerLine 0, Demo.env);
               (WorkerLine 0, Demo.env); (WorkerLine 0, Demo.env);
               (TimerTimeout, Demo.env)])) /\
  recorders Demo.recording !! 0 = Some Demo.recorder0 /\
  exists r',
    temp_file_name r' = temp_file_name Demo.recorder0 /\
    sink_frames Demo.recorder0 `prefix_of` sink_frames r'.
Proof.
  assert (Hreach : reachable Demo.recording).
  { eapply (reachable_exec (Demo.start_one ++ [(Dispatch, Demo.env)]) Demo.fresh);
      [apply reach_boot | vm_compute; reflexivity]. }
  assert (Hr : recorders Demo.recording !! 0 = Some Demo.recorder0)
    by (vm_compute; reflexivity).
  assert (Hex : exec [(WorkerLine 0, Demo.env); (WorkerLine 0, Demo.env);
                      (WorkerLine 0, Demo.env); (TimerTimeout, Demo.env)]
                  Demo.recording
    = Some (Demo.after (Demo.start_one ++
              [(Dispatch, Demo.env); (WorkerLine 0, Demo.env);
               (WorkerLine 0, Demo.env); (WorkerLine 0, Demo.env);
               (TimerTimeout, Demo.env)]))) by (vm_compute; reflexivity).
  split; [exact Hreach|]. split; [exact Hex|]. split; [exact Hr|].
  destruct (recorded_frames_are_kept _ _ _ 0 Demo.recorder0 Hreach Hex Hr)
    as (r' & _ & Ht & Hp & _).
  exists r'. split; [exact Ht | exact Hp].
Defined.
(** ** File names tell the seconds apart *)

Section Names.

#[local] Arguments Text.digit_char : simpl never.
#[local] Arguments digit_value : simpl never.
#[local] Arguments Nat.div : simpl never.
#[local] Arguments Nat.modulo : simpl never.
#[local] Arguments Nat.pow : simpl never.

Lemma decimal_value_go_acc s : forall acc,
  decimal_value_go s acc = acc * 10 ^ String.length s + decimal_value_go s 0.
Proof.
  induction s as [|c s IH]; intros acc.
  - cbn [decimal_value_go String.length]. rewrite Nat.pow_0_r. lia.
  - cbn [decimal_value_go String.length].
    rewrite (IH (10 * acc + digit_value c)), (IH (10 * 0 + digit_value c)).
    rewrite Nat.pow_succ_r'. nia.
Qed.

Lemma digit_value_char n : digit_value (Text.digit_char n) = n mod 10.
Proof.
  unfold digit_value, Text.digit_char.
  assert (Hlt : n mod 10 < 10) by (apply Nat.mod_upper_bound; lia).
  assert (E : Ascii.nat_of_ascii (Ascii.ascii_of_nat (48 + n mod 10))
              = 48 + n mod 10).
  { apply Ascii.nat_ascii_embedding. lia. }
  rewrite E. lia.
Qed.

Lemma decimal_value_decimal_go k : forall fuel n acc,
  1 <= k -> k <= fuel -> n < 10 ^ k ->
  decimal_value (Text.decimal_go fuel n acc)
  = n * 10 ^ String.length acc + decimal_value acc.
Proof.
  induction k as [|k IH]; intros fuel n acc Hk Hf Hn; [lia|].
  destruct fuel as [|fuel]; [lia|]. cbn [Text.decimal_go].
  assert (Hone : decimal_value (String (Text.digit_char n) acc)
                 = n mod 10 * 10 ^ String.length acc + decimal_value acc).
  { unfold decimal_value. cbn [decimal_value_go].
    rewrite decimal_value_go_acc, digit_value_char. lia. }
  pose proof (Nat.div_mod_eq n 10) as Hdm.
  destruct (Nat.eqb (n / 10) 0) eqn:E.
  - apply Nat.eqb_eq in E. rewrite Hone. rewrite E in Hdm. nia.
  - apply Nat.eqb_neq in E. rewrite Nat.pow_succ_r' in Hn.
    assert (Hk' : 1 <= k).
    { destruct k; [|lia]. rewrite Nat.pow_0_r in Hn.
      exfalso. apply E. apply Nat.div_small. lia. }
    assert (Hn' : n / 10 < 10 ^ k).
    { apply Nat.Div0.div_lt_upper_bound. lia. }
    rewrite (IH fuel (n / 10) _ Hk') by (lia || assumption).
    rewrite Hone. cbn [String.length]. rewrite Nat.pow_succ_r'. nia.
Qed.

Lemma decimal_value_zeros k d :
  decimal_value (Text.zeros k +:+ d) = decimal_value d.
Proof.
  induction k as [|k IH]; [reflexivity|].
  unfold decimal_value in *. cbn [Text.zeros String.append decimal_value_go].
  change (digit_value "0") with 0. exact IH.
Qed.

(** A zero-padded field reads back as the number it was written from. *)
Lemma decimal_value_zfill w n : decimal_value (Text.zfill w n) = n.
Proof.
  unfold Text.zfill, Text.decimal. rewrite decimal_value_zeros.
  rewrite (decimal_value_decimal_go (S n)); [|lia|lia|apply pow10_gt].
  unfold decimal_value. cbn [decimal_value_go String.length].
  rewrite Nat.pow_0_r. lia.
Qed.

Lemma append_inj_length a : forall a' b b',
  String.length a = String.length a' ->
  a +:+ b = a' +:+ b' -> a = a' /\ b = b'.
Proof.
  induction a as [|c a IH]; intros [|c' a'] b b' Hlen H; try done.
  cbn [String.append] in H. inversion H; subst.
  destruct (IH a' b b') as [-> ->]; [by inversion Hlen|done|done].
Qed.

Lemma strftime_stamp_inj t1 t2 :
  calendar_range t1 -> calendar_range t2 ->
  strftime_stamp t1 = strftime_stamp t2 -> t1 = t2.
Proof.
  intros (Hy1 & Hm1 & Hd1 & Hh1 & Hmi1 & Hs1) (Hy2 & Hm2 & Hd2 & Hh2 & Hmi2 & Hs2).
  unfold strftime_stamp. intros H.
  assert (L4 : forall n m, n < 10 ^ 4 -> m < 10 ^ 4 ->
            String.length (Text.zfill 4 n) = String.length (Text.zfill 4 m)).
  { intros n m Hn Hm. destruct (zfill_digits 4 n) as [-> _]; [lia|done|].
    by destruct (zfill_digits 4 m) as [-> _]; [lia|done|]. }
  assert (L2 : forall n m, n < 10 ^ 2 -> m < 10 ^ 2 ->
            String.length (Text.zfill 2 n) = String.length (Text.zfill 2 m)).
  { intros n m Hn Hm. destruct (zfill_digits 2 n) as [-> _]; [lia|done|].
    by destruct (zfill_digits 2 m) as [-> _]; [lia|done|]. }
  apply append_inj_length in H as [Ey H]; [|by apply L4].
  apply append_inj_length in H as [Em H]; [|by apply L2].
  apply append_inj_length in H as [Ed H]; [|by apply L2].
  apply (append_inj_length "_" "_") in H as [_ H]; [|done].
  apply append_inj_length in H as [Eh H]; [|by apply L2].
  apply append_inj_length in H as [Emi Es]; [|by apply L2].
  apply (f_equal decimal_value) in Ey, Em, Ed, Eh, Emi, Es.
  rewrite !decimal_value_zfill in *.
  destruct t1, t2; simpl in *; congruence.
Qed.

Lemma strftime_stamp_length t :
  calendar_range t -> String.length (strftime_stamp t) = 15.
Proof.
  intros Ht. destruct (strftime_stamp_shape t Ht)
    as (y & m & d & h & mi & sec & E & Hy & Hm & Hd & Hh & Hmi & Hs).
  rewrite E, !length_append.
  destruct Hy as [-> _], Hm as [-> _], Hd as [-> _], Hh as [-> _],
    Hmi as [-> _], Hs as [-> _]. reflexivity.
Qed.

Lemma file_name_inj (pre post : string) t1 t2 :
  calendar_range t1 -> calendar_range t2 ->
  pre +:+ strftime_stamp t1 +:+ post = pre +:+ strftime_stamp t2 +:+ post ->
  t1 = t2.
Proof.
  intros H1 H2 H.
  apply append_inj_length in H as [_ H]; [|done].
  apply append_inj_length in H as [H _];
    [|by rewrite !strftime_stamp_length].
  by apply strftime_stamp_inj.
Qed.

End Names.

(** X10. File names tell the seconds apart.  Every field of the stamp reads
    back as the number it was written from, so for calendar dates two stamps
    are equal only for the same second, and so are two [capture_] names and
    two [Recorder_] names. *)
Theorem names_tell_seconds_apart (t1 t2 : datetime) :
  calendar_range t1 -> calendar_range t2 ->
  (decimal_value (Text.zfill 4 (year t1)) = year t1 /\
   decimal_value (Text.zfill 2 (second t1)) = second t1) /\
  (strftime_stamp t1 = strftime_stamp t2 <-> t1 = t2) /\
  (capture_name t1 = capture_name t2 <-> t1 = t2) /\
  (recorder_name t1 = recorder_name t2 <-> t1 = t2).
Proof.
  intros H1 H2. split; [split; apply decimal_value_zfill|].
  split_and!; (split; [|by intros ->]); intros H.
  - by apply strftime_stamp_inj.
  - by apply (file_name_inj "capture_" ".jpg").
  - by apply (file_name_inj "Recorder_" ".avi").
Qed.

Lemma names_tell_seconds_apart_witness :
  calendar_range Demo.t0 /\ calendar_range Demo.t1 /\
  (capture_name Demo.t0 = capture_name Demo.t1 <-> Demo.t0 = Demo.t1).
Proof.
  assert (H0 : calendar_range Demo.t0) by (vm_compute; repeat split; lia).
  assert (H1 : calendar_range Demo.t1) by (vm_compute; repeat split; lia).
  split; [exact H0|]. split; [exact H1|].
  exact (proj1 (proj2 (proj2 (names_tell_seconds_apart Demo.t0 Demo.t1 H0 H1)))).
Defined.

(** X9. Two photos saved to the same directory.  Both reads succeed, the
    same directory is confirmed twice and the second [cv.imwrite] succeeds.
    The second photo is on disk afterwards.  When both prompts return
    within the same second the two photos get the same name and the second
    replaces the first: the file system is as if only the second had been
    taken.  When they return in different seconds the names differ, and the
    first photo is on disk as well if its write succeeded; if it failed,
    nothing is at its name that was not there before. *)
Theorem photos_collide_within_a_second (e1 e2 : Env) (s : World)
    (f1 f2 : Frame) :
  cap_read (cap (self s)) (device e1) = Some f1 ->
  cap_read (cap (self s)) (device e2) = Some f2 ->
  Text.truthy (chosen_dir e1) = true ->
  chosen_dir e2 = chosen_dir e1 ->
  calendar_range (wall_next e1) -> calendar_range (wall_next e2) ->
  imwrite_ok e2 = true ->
  let s2 := save_image e2 (save_image e1 s) in
  let p1 := inside (chosen_dir e1) (capture_name (wall_next e1)) in
  let p2 := inside (chosen_dir e1) (capture_name (wall_next e2)) in
  fs s2 !! p2 = Some (ImageFile f2) /\
  (wall_next e1 = wall_next e2 ->
   p1 = p2 /\ fs s2 = <[p2 := ImageFile f2]> (fs s)) /\
  (wall_next e1 <> wall_next e2 ->
   p1 <> p2 /\
   fs s2 !! p1 = (if imwrite_ok e1 then Some (ImageFile f1) else fs s !! p1)).
Proof.
  intros Hr1 Hr2 Hd1 Hd2 Hc1 Hc2 Hok2 s2 p1 p2.
  destruct (save_image_cases e1 s) as (Hself1 & _ & _ & _ & tl1 & _ & Hcase1).
  rewrite Hr1, Hd1 in Hcase1. destruct Hcase1 as (_ & _ & _ & Hfs1).
  fold p1 in Hfs1.
  destruct (save_image_cases e2 (save_image e1 s))
    as (_ & _ & _ & _ & tl2 & _ & Hcase2).
  rewrite Hself1, Hr2, Hd2, Hd1, Hok2 in Hcase2.
  destruct Hcase2 as (_ & _ & _ & Hfs2). fold p2 s2 in Hfs2.
  rewrite Hfs1 in Hfs2. split_and!.
  - rewrite Hfs2. apply lookup_insert_eq.
  - intros Heq. assert (p1 = p2) as Hp by (unfold p1, p2; by rewrite Heq).
    split; [done|]. rewrite Hfs2, Hp.
    destruct (imwrite_ok e1); [apply insert_insert_eq|done].
  - intros Hne. assert (Hp : p1 <> p2).
    { unfold p1, p2, inside. intros H.
      apply append_inj_length in H as [_ H]; [|done].
      apply append_inj_length in H as [_ H]; [|done].
      apply Hne. by apply (file_name_inj "capture_" ".jpg"). }
    split; [done|]. rewrite Hfs2, lookup_insert_ne by done.
    destruct (imwrite_ok e1); [apply lookup_insert_eq|done].
Qed.

Lemma photos_collide_within_a_second_witness :
  calendar_range (wall_next Demo.env) /\
  Text.truthy (chosen_dir Demo.env) = true /\
  imwrite_ok Demo.env = true /\
  fs (save_image Demo.env (save_image Demo.env Demo.fresh))
    = <[inside "/tmp/out" (capture_name Demo.t1) := ImageFile Demo.frame]>
        (fs Demo.fresh).
Proof.
  assert (H1 : calendar_range (wall_next Demo.env))
    by (vm_compute; repeat split; lia).
  split; [exact H1|]. split; [reflexivity|]. split; [reflexivity|].
  exact (proj2 (proj1 (proj2
    (photos_collide_within_a_second Demo.env Demo.env Demo.fresh
       Demo.frame Demo.frame eq_refl eq_refl eq_refl eq_refl H1 H1 eq_refl))
    eq_refl)).
Defined.
(** ** The preview *)

Lemma swap_channels_twice (row : list Pixel) :
  map (fun '(b, g, r) => (r, g, b)) (map (fun '(b, g, r) => (r, g, b)) row) = row.
Proof.
  induction row as [|[[b g] r] row IH]; simpl; [done|]. by rewrite IH.
Qed.

Lemma mirror_twice (f : Frame) :
  flip_horizontal (cvtColor_BGR2RGB (flip_horizontal (cvtColor_BGR2RGB f))) = f.
Proof.
  unfold flip_horizontal, cvtColor_BGR2RGB.
  induction f as [|row f IH]; simpl; [done|].
  rewrite IH. f_equal.
  rewrite List.map_rev, List.rev_involutive. apply swap_channels_twice.
Qed.

Lemma mirrored_row (row : list Pixel) j b g r :
  row !! j = Some (b, g, r) ->
  rev (map (fun '(b, g, r) => (r, g, b)) row) !! (length row - 1 - j)
    = Some (r, g, b).
Proof.
  unfold Pixel in *.
  intros Hj. pose proof (lookup_lt_Some _ _ _ Hj) as Hlt.
  rewrite List.rev_alt. change (rev_append ?l []) with (reverse l).
  rewrite reverse_lookup by (rewrite List.length_map; lia).
  rewrite List.length_map.
  replace (length row - S (length row - 1 - j)) with j by lia.
  clear Hlt. revert j Hj. induction row as [|p row IH]; intros [|j] Hj;
    simpl in *; try done.
  - by inversion Hj.
  - by apply IH.
Qed.

Lemma mirrored_rows (frame : Frame) i row :
  frame !! i = Some row ->
  flip_horizontal (cvtColor_BGR2RGB frame) !! i
    = Some (rev (map (fun '(b, g, r) => (r, g, b)) row)).
Proof.
  unfold flip_horizontal, cvtColor_BGR2RGB.
  revert i. induction frame as [|row0 frame IH]; intros [|i] Hi;
    simpl in *; try done.
  - by inversion Hi.
  - by apply IH.
Qed.

Lemma frame_ok_shape (f : Frame) :
  frame_ok f = true ->
  1 <= length f /\ 1 <= length (default [] (head f)) /\
  forall i row, f !! i = Some row -> length row = length (default [] (head f)).
Proof.
  unfold frame_ok. destruct f as [|row0 rest]; [done|]. simpl.
  intros H. apply andb_true_iff in H as [Hw Hall].
  apply negb_true_iff, Nat.eqb_neq in Hw.
  split; [lia|]. split; [lia|].
  intros [|i] row Hi; simpl in Hi; [by inversion Hi|].
  rewrite forallb_forall in Hall.
  apply Nat.eqb_eq, Hall. apply list_elem_of_In.
  by eapply list_elem_of_lookup_2.
Qed.

Lemma cap_read_ok c d f : cap_read c d = Some f -> frame_ok f = true.
Proof.
  unfold cap_read. destruct (cap_opened c); [|done].
  destruct d as [f0|]; [|done].
  destruct (frame_ok f0) eqn:E; [|done]. intros H. by inversion H; subst.
Qed.

(** The size [QImage.scaled] gives with the aspect ratio kept: nothing for
    an empty target; otherwise at least one pixel each way, within the
    target, and as wide or as high as the target. *)
Lemma scaled_size_fits (w h tw th : nat) :
  1 <= w -> 1 <= h ->
  (tw = 0 \/ th = 0 -> scaled_size w h tw th = (0, 0)) /\
  (1 <= tw -> 1 <= th ->
   1 <= (scaled_size w h tw th).1 <= tw /\
   1 <= (scaled_size w h tw th).2 <= th /\
   ((scaled_size w h tw th).1 = tw \/ (scaled_size w h tw th).2 = th)).
Proof.
  intros Hw Hh. unfold scaled_size, keep_aspect_ratio. split.
  - intros [-> | ->]; [done|]. by rewrite orb_true_r.
  - intros Htw Hth.
    destruct (Nat.eqb_spec tw 0) as [|_]; [lia|].
    destruct (Nat.eqb_spec th 0) as [|_]; [lia|].
    destruct (Nat.eqb_spec w 0) as [|_]; [lia|].
    destruct (Nat.eqb_spec h 0) as [|_]; [lia|].
    cbn [orb].
    destruct (Nat.leb_spec (th * w / h) tw) as [Hle|Hgt]; cbn [fst snd].
    + split_and!; lia.
    + assert (H1 : w * (tw * h / w) <= tw * h) by (apply Nat.Div0.mul_div_le).
      assert (H2 : h * (th * w / h) <= th * w) by (apply Nat.Div0.mul_div_le).
      assert (H3 : tw * h / w < th) by nia.
      split_and!; lia.
Qed.

(** X11. The preview shows the frame mirrored, in RGB, scaled into the
    picture box.  On a successful read [update_frame] builds an image of
    the same height and width as the frame, three bytes per pixel, in which
    row [i] is row [i] of the frame read from right to left with the blue
    and red channels exchanged; mirroring such an image once more gives the
    frame back.  The picture box is set to that image scaled to the size
    [QImage.scaled] computes for the size of the picture box with the
    aspect ratio kept: a null pixmap for an empty box, otherwise a size of
    at least one pixel each way that fits the box and is as wide or as high
    as the box.  The tick makes one read and one update of the picture box,
    and leaves the capture handle, the worker reference, the button, the
    recorders, the signal queue and the files alone. *)
Theorem preview_shows_mirrored_frame (e : Env) (s : World) (frame : Frame) :
  cap_read (cap (self s)) (device e) = Some frame ->
  let s' := update_frame e s in
  (exists pix,
     picture_box (self s') = Some pix /\
     trace s' = trace s ++ [CapRead None true; SetPixmap pix] /\
     img_h (pix_source pix) = length frame /\
     img_w (pix_source pix) = length (default [] (head frame)) /\
     1 <= img_h (pix_source pix) /\ 1 <= img_w (pix_source pix) /\
     img_bytes_per_line (pix_source pix) = 3 * img_w (pix_source pix) /\
     length (img_data (pix_source pix)) = length frame /\
     (forall i row,
        frame !! i = Some row ->
        length row = img_w (pix_source pix) /\
        exists row',
          img_data (pix_source pix) !! i = Some row' /\
          length row' = length row /\
          forall j b g r,
            row !! j = Some (b, g, r) ->
            row' !! (length row - 1 - j) = Some (r, g, b)) /\
     flip_horizontal (cvtColor_BGR2RGB (img_data (pix_source pix))) = frame /\
     pix_size pix =
       scaled_size (img_w (pix_source pix)) (img_h (pix_source pix))
         (picture_box_size (self s)).1 (picture_box_size (self s)).2 /\
     ((picture_box_size (self s)).1 = 0 \/ (picture_box_size (self s)).2 = 0 ->
      pix_size pix = (0, 0)) /\
     (1 <= (picture_box_size (self s)).1 ->
      1 <= (picture_box_size (self s)).2 ->
      1 <= (pix_size pix).1 <= (picture_box_size (self s)).1 /\
      1 <= (pix_size pix).2 <= (picture_box_size (self s)).2 /\
      ((pix_size pix).1 = (picture_box_size (self s)).1 \/
       (pix_size pix).2 = (picture_box_size (self s)).2))) /\
  cap (self s') = cap (self s) /\
  video_thread (self s') = video_thread (self s) /\
  video_btn (self s') = video_btn (self s) /\
  picture_box_size (self s') = picture_box_size (self s) /\
  gui s' = gui s /\ recorders s' = recorders s /\
  posted s' = posted s /\ fs s' = fs s.
Proof.
  intros Hread s'.
  destruct (frame_ok_shape frame (cap_read_ok _ _ _ Hread)) as (Hh & Hw & Hrect).
  unfold s', update_frame. rewrite Hread. simpl.
  destruct (picture_box_size (self s)) as [bw bh] eqn:Hbox. simpl.
  split; [|by rewrite Hbox].
  assert (Eh : length (flip_horizontal (cvtColor_BGR2RGB frame)) = length frame).
  { unfold flip_horizontal, cvtColor_BGR2RGB. by rewrite !List.length_map. }
  assert (Ew : match flip_horizontal (cvtColor_BGR2RGB frame) with
               | [] => 0
               | row :: _ => length row
               end = length (default [] (head frame))).
  { destruct frame as [|row frame]; simpl; [done|].
    by rewrite List.length_rev, List.length_map. }
  eexists. split; [reflexivity|]. simpl. rewrite Eh, Ew.
  destruct (scaled_size_fits (length (default [] (head frame))) (length frame)
              bw bh Hw Hh) as [Hnull Hfit].
  split_and!; try done.
  - by rewrite <- app_assoc.
  - intros i row Hi. split; [by eapply Hrect|].
    exists (rev (map (fun '(b, g, r) => (r, g, b)) row)). split_and!.
    + by apply mirrored_rows.
    + by rewrite List.length_rev, List.length_map.
    + intros j b g r. apply mirrored_row.
  - apply mirror_twice.
Qed.

Lemma preview_shows_mirrored_frame_witness :
  cap_read (cap (self Demo.fresh)) (device Demo.env) = Some Demo.frame /\
  picture_box_size (self Demo.fresh) = (720, 560) /\
  exists pix,
    picture_box (self (update_frame Demo.env Demo.fresh)) = Some pix /\
    img_data (pix_source pix) = [[(6, 5, 4)%N; (3, 2, 1)%N]] /\
    pix_size pix = (720, 360).
Proof.
  split; [reflexivity|]. split; [reflexivity|].
  destruct (preview_shows_mirrored_frame Demo.env Demo.fresh Demo.frame eq_refl)
    as ((pix & Hpix & _) & _).
  exists pix. split; [exact Hpix|].
  vm_compute in Hpix. inversion Hpix. split; reflexivity.
Defined.
(** ** Closing the window while recording *)




(** ** One click at a time: what a run keeps *)

(** X13. One click at a time keeps one session.  After any run from
    start-up in which every click on the record button finds the signal
    queue empty and the worker it refers to past line 24, at most one
    recording session is live, and a live session is the one
    [video_thread] refers to. *)
Theorem one_click_at_a_time dev_ok width height box now l s :
  exec l (boot dev_ok width height box now) = Some s ->
  patient_run l (boot dev_ok width height box now) ->
  live_sessions s <= 1 /\
  forall w r, recorders s !! w = Some r -> session_live r = true ->
    video_thread (self s) = Some w.
Proof.
  intros Hexec Hpat.
  destruct (patient_run_one_session l _ s (reach_boot _ _ _ _ _)
              (one_session_boot _ _ _ _ _) Hpat Hexec) as (P1 & _).
  assert (Href : forall w r, recorders s !! w = Some r ->
            session_live r = true -> video_thread (self s) = Some w).
  { intros w r Hr Hl. apply (P1 w r Hr). by apply live_not_finished. }
  split; [|done]. unfold live_sessions. apply filter_at_most_one.
  intros i j x y Hx Hy Lx Ly.
  pose proof (Href i x Hx Lx). pose proof (Href j y Hy Ly). congruence.
Qed.

Lemma one_click_at_a_time_witness :
  patient_run
    (Demo.stop_one ++ [(Dispatch, Demo.env); (VideoClicked, Demo.env)])
    Demo.fresh /\
  video_thread (self (Demo.after
    (Demo.stop_one ++ [(Dispatch, Demo.env); (VideoClicked, Demo.env)])))
    = Some 1 /\
  live_sessions (Demo.after
    (Demo.stop_one ++ [(Dispatch, Demo.env); (VideoClicked, Demo.env)])) <= 1.
Proof.
  assert (Hpat : patient_run
    (Demo.stop_one ++ [(Dispatch, Demo.env); (VideoClicked, Demo.env)])
    Demo.fresh).
  { unfold Demo.stop_one, Demo.start_one, Demo.fresh. cbn [app].
    patient_run_by_evaluation. }
  split; [exact Hpat|]. split; [reflexivity|].
  refine (proj1 (one_click_at_a_time true 2 1 (720, 560) Demo.t0
                   (Demo.stop_one ++
                      [(Dispatch, Demo.env); (VideoClicked, Demo.env)])
                   _ _ Hpat)).
  vm_compute. reflexivity.
Defined.
